(** * GoBookingApp: the in-memory ticket store of [database/database.go]

    A shallow embedding of the booking engine (users, conferences, bookings,
    seat reservations with a 15 second hold, per-conference wait queues) and
    the properties of its specification.

    Modelling conventions.
    - Go [int] is the 64-bit two's-complement integer: a [Z] kept in range by
      [wrap64] after every addition and subtraction.
    - [time.Time] is an instant in nanoseconds, a [Z]; [After] and [Before] are
      the strict comparisons of package [time].
    - Every method runs under the store's mutex.  The clock readings a call
      takes to purge, to test a hold and to compute an expiry are identified
      with the single instant [now] the call receives.  The reading a new hold
      stores as [CreatedAt] is taken after its [ExpiresAt] was computed and is
      an input of its own ([created]).
    - [strings.ToLower] and [strings.TrimSpace] are the library's functions,
      on every string: the class [Strings] holds them, with their fast paths
      on ASCII strings and the laws the store relies on.  Every property is
      proved for all instances of the class; the runs at the end of the file
      are computed with the instance of ASCII text.
    - [uuid.New().String()] is an input of the call that draws it ([id]).
    - Go maps are [gmap string _]; their iteration order never matters for
      the existence tests and wrap-around sums embedded here.  Where a loop
      returns at its first match ([GetUserByEmail]) or fills a slice that is
      then sorted ([GetAllConferences]), the order is that of [map_to_list]
      and the result is shown not to depend on it.  A slice filled from a map
      and returned as it is ([GetUserBookings], [GetAllBookings]) is the map of
      its elements.
    - Slices are lists; their indices and lengths are natural numbers, and
      the positions computed from them are nowhere near the range of [int].
    - [float64] is the primitive binary64 float.
    - A nil-pointer dereference is the outcome [Panic].
    - The engine takes any [int] as a ticket count; the HTTP handlers only
      let counts of at least one through ([valid_call]). *)

From Stdlib Require Import ZArith Ascii String List Lia Floats Uint63.
From stdpp Require Import base gmap strings list fin_maps sorting.

Local Open Scope Z_scope.
#[local] Set Warnings "-inexact-float".

(** ** Machine integers *)

Definition int_min : Z := - 2 ^ 63.
Definition int_max : Z := 2 ^ 63 - 1.

Definition fits_int (z : Z) : Prop := int_min <= z <= int_max.

Definition wrap64 (z : Z) : Z := (z + 2 ^ 63) mod 2 ^ 64 - 2 ^ 63.

Definition int_add (a b : Z) : Z := wrap64 (a + b).
Definition int_sub (a b : Z) : Z := wrap64 (a - b).

(** [float64(n)] for an [int] and the product [p * float64(n)]. *)
Definition float64_of_int (z : Z) : float :=
  if z =? int_min then (-9223372036854775808)%float
  else if z <? 0 then PrimFloat.opp (PrimFloat.of_uint63 (Uint63.of_Z (- z)))
  else PrimFloat.of_uint63 (Uint63.of_Z z).

(** ** Time *)

Definition After (t u : Z) : bool := bool_decide (u < t).
Definition Before (t u : Z) : bool := bool_decide (t < u).

Definition Second : Z := 1000000000.

(** The hold of a seat reservation: [15 * time.Second]. *)
Definition holdDuration : Z := 15 * Second.

(** ** Package strings

    [strings.ToLower] and [strings.TrimSpace] are library code, and both are
    Unicode-aware: [ToLower] maps every letter to its lower case, [TrimSpace]
    removes the leading and trailing white space that Unicode defines.  On a
    string whose bytes are all below 0x80 each takes a fast path, embedded
    here as [lower_ascii] and [trim_ascii].  On other strings the two
    functions are known through the laws of the class [Strings] only. *)

Definition isUpper (c : ascii) : bool :=
  let n := N_of_ascii c in ((65 <=? n) && (n <=? 90))%N.

Definition toLowerByte (c : ascii) : ascii :=
  if isUpper c then ascii_of_N (N_of_ascii c + 32) else c.

(** The fast path of [ToLower]: ['A'..'Z'] to ['a'..'z']. *)
Fixpoint lower_ascii (s : string) : string :=
  match s with
  | EmptyString => EmptyString
  | String c s' => String (toLowerByte c) (lower_ascii s')
  end.

(** The table [asciiSpace]: tab, newline, vertical tab, form feed, carriage
    return and space. *)
Definition isSpace (c : ascii) : bool :=
  let n := N_of_ascii c in (((9 <=? n) && (n <=? 13)) || (n =? 32))%N.

Fixpoint trimLeft (s : string) : string :=
  match s with
  | EmptyString => EmptyString
  | String c s' => if isSpace c then trimLeft s' else s
  end.

Fixpoint trimRight (s : string) : string :=
  match s with
  | EmptyString => EmptyString
  | String c s' =>
      match trimRight s' with
      | EmptyString => if isSpace c then EmptyString else String c EmptyString
      | r => String c r
      end
  end.

(** The fast path of [TrimSpace]. *)
Definition trim_ascii (s : string) : string := trimRight (trimLeft s).

(** Every byte is below [utf8.RuneSelf] (0x80). *)
Fixpoint isASCII (s : string) : bool :=
  match s with
  | EmptyString => true
  | String c s' => (N_of_ascii c <? 128)%N && isASCII s'
  end.

(** [strings.ToLower] and [strings.TrimSpace].  Their source is the Go
    library's, not this repository's; they are taken as the library documents
    them:
    - on a string of ASCII bytes they take the fast paths above;
    - [ToLower] maps every Unicode letter to its lower case, so lowering
      again changes nothing;
    - [TrimSpace] removes all leading and trailing white space, as Unicode
      defines it, so trimming again changes nothing, and white space put
      around a string (text that [TrimSpace] removes entirely) is removed
      with the string's own;
    - the lower case of a letter is no white space and white space has no
      lower case, so lowering and trimming commute. *)
Class Strings := {
  ToLower : string → string;
  TrimSpace : string → string;
  ToLower_ascii : ∀ s, isASCII s = true → ToLower s = lower_ascii s;
  TrimSpace_ascii : ∀ s, isASCII s = true → TrimSpace s = trim_ascii s;
  ToLower_ToLower : ∀ s, ToLower (ToLower s) = ToLower s;
  TrimSpace_TrimSpace : ∀ s, TrimSpace (TrimSpace s) = TrimSpace s;
  TrimSpace_ToLower : ∀ s, TrimSpace (ToLower s) = ToLower (TrimSpace s);
  TrimSpace_blank :
    ∀ pre s post, TrimSpace pre = EmptyString → TrimSpace post = EmptyString →
      TrimSpace (pre +:+ s +:+ post) = TrimSpace s
}.

(** ** Package models *)

Record User := {
  User_ID : string;
  User_Name : string;
  User_Email : string;
  User_Created : Z
}.

Record Conference := {
  Conf_ID : string;
  Conf_Name : string;
  Conf_Location : string;
  TotalTickets : Z;
  AvailableTickets : Z;
  Price : float;
  Conf_Date : Z
}.

Record Booking := {
  Booking_ID : string;
  Booking_UserID : string;
  Booking_ConferenceID : string;
  TicketsBooked : Z;
  Booking_TotalAmount : float;
  Status : string;
  BookedAt : Z
}.

Record SeatReservation := {
  Res_ID : string;
  Res_UserID : string;
  Res_ConferenceID : string;
  Res_TicketCount : Z;
  Res_TotalAmount : float;
  ExpiresAt : Z;
  CreatedAt : Z
}.

(** ** Package database *)

Record WaitEntry := {
  Wait_ID : string;
  Wait_UserID : string;
  Wait_ConferenceID : string;
  Wait_TicketCount : Z;
  EnqueuedAt : Z
}.

Record Database := {
  Users : gmap string User;
  Conferences : gmap string Conference;
  Bookings : gmap string Booking;
  Reservations : gmap string SeatReservation;
  WaitQueues : gmap string (list WaitEntry);
  StartTime : Z
}.

(** The errors the store returns, one constructor per [fmt.Errorf] message. *)
Inductive error : Type :=
  | ErrUserExists (email : string)
  | ErrUserNotFound
  | ErrConferenceNotFound
  | ErrNotEnoughTickets
  | ErrAlreadyReserved
  | ErrNotEnoughForReservation
  | ErrReservationNotFound
  | ErrReservationExpired
  | ErrNotYourTurn.

(** The error kinds of the specification. *)
Inductive ErrorKind : Type :=
  | NotFound
  | InsufficientInventory
  | DuplicateActiveReservation
  | DuplicateContact
  | Expired
  | NotYourTurn.

Definition kind (e : error) : ErrorKind :=
  match e with
  | ErrUserExists _ => DuplicateContact
  | ErrUserNotFound => NotFound
  | ErrConferenceNotFound => NotFound
  | ErrNotEnoughTickets => InsufficientInventory
  | ErrAlreadyReserved => DuplicateActiveReservation
  | ErrNotEnoughForReservation => InsufficientInventory
  | ErrReservationNotFound => NotFound
  | ErrReservationExpired => Expired
  | ErrNotYourTurn => NotYourTurn
  end.

Inductive outcome (A : Type) : Type :=
  | Ok (a : A)
  | Err (e : error)
  | Panic.
Arguments Ok {A} a.
Arguments Err {A} e.
Arguments Panic {A}.

Definition set_Users (f : gmap string User → gmap string User) (db : Database) : Database :=
  {| Users := f (Users db); Conferences := Conferences db; Bookings := Bookings db;
     Reservations := Reservations db; WaitQueues := WaitQueues db;
     StartTime := StartTime db |}.

Definition set_Conferences (f : gmap string Conference → gmap string Conference)
    (db : Database) : Database :=
  {| Users := Users db; Conferences := f (Conferences db); Bookings := Bookings db;
     Reservations := Reservations db; WaitQueues := WaitQueues db;
     StartTime := StartTime db |}.

Definition set_Bookings (f : gmap string Booking → gmap string Booking)
    (db : Database) : Database :=
  {| Users := Users db; Conferences := Conferences db; Bookings := f (Bookings db);
     Reservations := Reservations db; WaitQueues := WaitQueues db;
     StartTime := StartTime db |}.

Definition set_Reservations (f : gmap string SeatReservation → gmap string SeatReservation)
    (db : Database) : Database :=
  {| Users := Users db; Conferences := Conferences db; Bookings := Bookings db;
     Reservations := f (Reservations db); WaitQueues := WaitQueues db;
     StartTime := StartTime db |}.

Definition set_WaitQueues (f : gmap string (list WaitEntry) → gmap string (list WaitEntry))
    (db : Database) : Database :=
  {| Users := Users db; Conferences := Conferences db; Bookings := Bookings db;
     Reservations := Reservations db; WaitQueues := f (WaitQueues db);
     StartTime := StartTime db |}.

(** [conference.AvailableTickets -= n] through the pointer stored in the map. *)
Definition take_tickets (n : Z) (c : Conference) : Conference :=
  {| Conf_ID := Conf_ID c; Conf_Name := Conf_Name c; Conf_Location := Conf_Location c;
     TotalTickets := TotalTickets c;
     AvailableTickets := int_sub (AvailableTickets c) n;
     Price := Price c; Conf_Date := Conf_Date c |}.

Section store.
Context {lib : Strings}.

Definition normalize (email : string) : string := ToLower (TrimSpace email).

(** [CreateUser]. *)
Definition CreateUser (id : string) (now : Z) (name email : string) (db : Database)
    : Database * outcome User :=
  let norm := normalize email in
  if bool_decide (map_Exists (λ _ u, normalize (User_Email u) = norm) (Users db))
  then (db, Err (ErrUserExists email))
  else
    let user := {| User_ID := id; User_Name := name; User_Email := norm;
                   User_Created := now |} in
    (set_Users (insert id user) db, Ok user).

(** [GetUserByEmail]: whether some stored user has that normalized email. *)
Definition HasUserByEmail (email : string) (db : Database) : bool :=
  bool_decide (map_Exists (λ _ u, normalize (User_Email u) = normalize email) (Users db)).

Definition GetUser (userID : string) (db : Database) : outcome User :=
  match Users db !! userID with
  | Some u => Ok u
  | None => Err ErrUserNotFound
  end.

Definition GetConference (conferenceID : string) (db : Database) : outcome Conference :=
  match Conferences db !! conferenceID with
  | Some c => Ok c
  | None => Err ErrConferenceNotFound
  end.

(** [CreateBooking]. *)
Definition CreateBooking (id : string) (now : Z) (userID conferenceID : string)
    (ticketCount : Z) (db : Database) : Database * outcome Booking :=
  match Conferences db !! conferenceID with
  | None => (db, Err ErrConferenceNotFound)
  | Some conference =>
      if bool_decide (AvailableTickets conference < ticketCount)
      then (db, Err ErrNotEnoughTickets)
      else
        let booking :=
          {| Booking_ID := id; Booking_UserID := userID;
             Booking_ConferenceID := conferenceID; TicketsBooked := ticketCount;
             Booking_TotalAmount :=
               PrimFloat.mul (Price conference) (float64_of_int ticketCount);
             Status := "confirmed"; BookedAt := now |} in
        (set_Bookings (insert id booking)
           (set_Conferences (insert conferenceID (take_tickets ticketCount conference)) db),
         Ok booking)
  end.

Definition GetBooking (id : string) (db : Database) : option Booking :=
  Bookings db !! id.

(** [cleanupExpiredReservationsLocked]: drop the holds the instant is after. *)
Definition cleanupExpiredReservationsLocked (now : Z) (db : Database) : Database :=
  set_Reservations (filter (λ kr, After now (ExpiresAt kr.2) = false)) db.

(** The loop [reservedTickets += reservation.TicketCount] over the holds that
    satisfy [keep]. *)
Definition sum_tickets (keep : SeatReservation → bool)
    (m : gmap string SeatReservation) : Z :=
  map_fold (λ _ r acc, if keep r then int_add acc (Res_TicketCount r) else acc) 0 m.

Definition for_conference (conferenceID : string) (r : SeatReservation) : bool :=
  bool_decide (Res_ConferenceID r = conferenceID).

Definition new_reservation (id : string) (now created : Z)
    (userID conferenceID : string) (ticketCount : Z) (conference : Conference)
    : SeatReservation :=
  {| Res_ID := id; Res_UserID := userID; Res_ConferenceID := conferenceID;
     Res_TicketCount := ticketCount;
     Res_TotalAmount := PrimFloat.mul (Price conference) (float64_of_int ticketCount);
     ExpiresAt := now + holdDuration; CreatedAt := created |}.

(** [CreateReservation]. *)
Definition CreateReservation (id : string) (now created : Z)
    (userID conferenceID : string)
    (ticketCount : Z) (db : Database) : Database * outcome SeatReservation :=
  let db := cleanupExpiredReservationsLocked now db in
  match Conferences db !! conferenceID with
  | None => (db, Err ErrConferenceNotFound)
  | Some conference =>
      if bool_decide (map_Exists (λ _ r,
           Res_UserID r = userID ∧ Res_ConferenceID r = conferenceID ∧
           Before now (ExpiresAt r) = true) (Reservations db))
      then (db, Err ErrAlreadyReserved)
      else
        let reservedTickets :=
          sum_tickets (for_conference conferenceID) (Reservations db) in
        let availableForReservation :=
          int_sub (AvailableTickets conference) reservedTickets in
        if bool_decide (availableForReservation < ticketCount)
        then (db, Err ErrNotEnoughForReservation)
        else
          let reservation :=
            new_reservation id now created userID conferenceID ticketCount conference in
          (set_Reservations (insert id reservation) db, Ok reservation)
  end.

(** [ConfirmReservation]. *)
Definition ConfirmReservation (id : string) (now : Z) (reservationID : string)
    (db : Database) : Database * outcome Booking :=
  match Reservations db !! reservationID with
  | None => (db, Err ErrReservationNotFound)
  | Some reservation =>
      if After now (ExpiresAt reservation)
      then (set_Reservations (delete reservationID) db, Err ErrReservationExpired)
      else
        let booking :=
          {| Booking_ID := id; Booking_UserID := Res_UserID reservation;
             Booking_ConferenceID := Res_ConferenceID reservation;
             TicketsBooked := Res_TicketCount reservation;
             Booking_TotalAmount := Res_TotalAmount reservation;
             Status := "confirmed"; BookedAt := now |} in
        match Conferences db !! Res_ConferenceID reservation with
        | None => (db, Panic)
        | Some conference =>
            (set_Reservations (delete reservationID)
               (set_Bookings (insert id booking)
                  (set_Conferences
                     (insert (Res_ConferenceID reservation)
                        (take_tickets (Res_TicketCount reservation) conference)) db)),
             Ok booking)
        end
  end.

(** [CancelReservation]. *)
Definition CancelReservation (reservationID : string) (db : Database)
    : Database * outcome unit :=
  match Reservations db !! reservationID with
  | None => (db, Err ErrReservationNotFound)
  | Some _ => (set_Reservations (delete reservationID) db, Ok tt)
  end.

(** [GetReservation]: purge, then read. *)
Definition GetReservation (now : Z) (reservationID : string) (db : Database)
    : Database * outcome SeatReservation :=
  let db := cleanupExpiredReservationsLocked now db in
  match Reservations db !! reservationID with
  | None => (db, Err ErrReservationNotFound)
  | Some reservation => (db, Ok reservation)
  end.

(** [GetUserReservations]: purge, then the holds of the user (as a map, the
    slice's order being the map's iteration order). *)
Definition GetUserReservations (now : Z) (userID : string) (db : Database)
    : Database * gmap string SeatReservation :=
  let db := cleanupExpiredReservationsLocked now db in
  (db, filter (λ kr, Res_UserID kr.2 = userID) (Reservations db)).

(** [db.WaitQueues[conferenceID]], the nil slice when the key is absent. *)
Definition queue_of (conferenceID : string) (db : Database) : list WaitEntry :=
  default [] (WaitQueues db !! conferenceID).

(** The index of the first entry of the user, as the loops of [EnqueueWait]
    and [GetQueuePosition] find it. *)
Fixpoint find_user (userID : string) (q : list WaitEntry) : option nat :=
  match q with
  | [] => None
  | e :: q' =>
      if bool_decide (Wait_UserID e = userID) then Some 0%nat
      else S <$> find_user userID q'
  end.

Definition set_count (ticketCount : Z) (e : WaitEntry) : WaitEntry :=
  {| Wait_ID := Wait_ID e; Wait_UserID := Wait_UserID e;
     Wait_ConferenceID := Wait_ConferenceID e; Wait_TicketCount := ticketCount;
     EnqueuedAt := EnqueuedAt e |}.

(** [EnqueueWait]. *)
Definition EnqueueWait (id : string) (now : Z) (userID conferenceID : string)
    (ticketCount : Z) (db : Database) : Database * Z :=
  let q := queue_of conferenceID db in
  match find_user userID q with
  | Some i =>
      (set_WaitQueues (insert conferenceID (alter (set_count ticketCount) i q)) db,
       Z.of_nat i + 1)
  | None =>
      let entry := {| Wait_ID := id; Wait_UserID := userID;
                      Wait_ConferenceID := conferenceID;
                      Wait_TicketCount := ticketCount; EnqueuedAt := now |} in
      let q := q ++ [entry] in
      (set_WaitQueues (insert conferenceID q) db, Z.of_nat (length q))
  end.

(** [GetQueuePosition]. *)
Definition GetQueuePosition (userID conferenceID : string) (db : Database) : Z :=
  match find_user userID (queue_of conferenceID db) with
  | Some i => Z.of_nat i + 1
  | None => 0
  end.

Definition active_for (now : Z) (conferenceID : string) (r : SeatReservation) : bool :=
  for_conference conferenceID r && Before now (ExpiresAt r).

(** [ClaimNext]. *)
Definition ClaimNext (id : string) (now created : Z) (userID conferenceID : string)
    (db : Database) : Database * outcome SeatReservation :=
  let db := cleanupExpiredReservationsLocked now db in
  match queue_of conferenceID db with
  | [] => (db, Err ErrNotYourTurn)
  | head :: rest =>
      if bool_decide (Wait_UserID head ≠ userID) then (db, Err ErrNotYourTurn)
      else
        match Conferences db !! conferenceID with
        | None => (db, Err ErrConferenceNotFound)
        | Some conf =>
            let reserved := sum_tickets (active_for now conferenceID) (Reservations db) in
            let available := int_sub (AvailableTickets conf) reserved in
            let need := Wait_TicketCount head in
            if bool_decide (available < need)
            then (db, Err ErrNotEnoughTickets)
            else
              let res := new_reservation id now created userID conferenceID need conf in
              (set_WaitQueues (insert conferenceID rest)
                 (set_Reservations (insert id res) db),
               Ok res)
        end
  end.

(** The three sample conferences of [addSampleData].  Their dates,
    [time.Now().AddDate(...)], are calendar computations and are inputs here. *)
Definition conf1 (date : Z) : Conference :=
  {| Conf_ID := "conf-1"; Conf_Name := "Go Conference 2024";
     Conf_Location := "San Francisco"; TotalTickets := 100;
     AvailableTickets := 100; Price := 299.99%float; Conf_Date := date |}.

Definition conf2 (date : Z) : Conference :=
  {| Conf_ID := "conf-2"; Conf_Name := "DevOps Summit";
     Conf_Location := "New York"; TotalTickets := 75;
     AvailableTickets := 75; Price := 399.99%float; Conf_Date := date |}.

Definition conf3 (date : Z) : Conference :=
  {| Conf_ID := "conf-3"; Conf_Name := "Cloud Native Expo";
     Conf_Location := "Seattle"; TotalTickets := 150;
     AvailableTickets := 150; Price := 199.99%float; Conf_Date := date |}.

(** [addSampleData]. *)
Definition addSampleData (d1 d2 d3 : Z) (db : Database) : Database :=
  set_Conferences
    (λ m, <[Conf_ID (conf3 d3) := conf3 d3]>
            (<[Conf_ID (conf2 d2) := conf2 d2]>
               (<[Conf_ID (conf1 d1) := conf1 d1]> m)))
    db.

(** [NewDatabase]. *)
Definition NewDatabase (now d1 d2 d3 : Z) : Database :=
  addSampleData d1 d2 d3
    {| Users := ∅; Conferences := ∅; Bookings := ∅; Reservations := ∅;
       WaitQueues := ∅; StartTime := now |}.

(** [ResetDatabase]. *)
Definition ResetDatabase (now d1 d2 d3 : Z) (db : Database) : Database :=
  NewDatabase now d1 d2 d3.

(** ** Calls and traces

    The methods that can change the store, with the inputs they take and the
    identifiers and instants they draw. *)
Inductive call : Type :=
  | CallCreateUser (id : string) (now : Z) (name email : string)
  | CallCreateBooking (id : string) (now : Z) (userID conferenceID : string)
      (ticketCount : Z)
  | CallCreateReservation (id : string) (now created : Z)
      (userID conferenceID : string)
      (ticketCount : Z)
  | CallConfirmReservation (id : string) (now : Z) (reservationID : string)
  | CallCancelReservation (reservationID : string)
  | CallGetReservation (now : Z) (reservationID : string)
  | CallGetUserReservations (now : Z) (userID : string)
  | CallEnqueueWait (id : string) (now : Z) (userID conferenceID : string)
      (ticketCount : Z)
  | CallClaimNext (id : string) (now created : Z) (userID conferenceID : string)
  | CallResetDatabase (now d1 d2 d3 : Z).

(** What a call reports, its payload forgotten. *)
Inductive status : Type :=
  | Success
  | Failure (e : error)
  | Crashed.

Definition status_of {A : Type} (o : outcome A) : status :=
  match o with
  | Ok _ => Success
  | Err e => Failure e
  | Panic => Crashed
  end.

Definition is_Ok {A : Type} (o : outcome A) : bool :=
  match o with Ok _ => true | _ => false end.

Definition exec (c : call) (db : Database) : Database * status :=
  match c with
  | CallCreateUser id now name email =>
      prod_map (λ x, x) status_of (CreateUser id now name email db)
  | CallCreateBooking id now u conf n =>
      prod_map (λ x, x) status_of (CreateBooking id now u conf n db)
  | CallCreateReservation id now created u conf n =>
      prod_map (λ x, x) status_of (CreateReservation id now created u conf n db)
  | CallConfirmReservation id now rid =>
      prod_map (λ x, x) status_of (ConfirmReservation id now rid db)
  | CallCancelReservation rid =>
      prod_map (λ x, x) status_of (CancelReservation rid db)
  | CallGetReservation now rid =>
      prod_map (λ x, x) status_of (GetReservation now rid db)
  | CallGetUserReservations now u => ((GetUserReservations now u db).1, Success)
  | CallEnqueueWait id now u conf n => ((EnqueueWait id now u conf n db).1, Success)
  | CallClaimNext id now created u conf =>
      prod_map (λ x, x) status_of (ClaimNext id now created u conf db)
  | CallResetDatabase now d1 d2 d3 => (ResetDatabase now d1 d2 d3 db, Success)
  end.

Definition run (db : Database) (cs : list call) : Database :=
  foldl (λ db c, (exec c db).1) db cs.

(** The identifier a call draws for a new seat reservation, if it draws one. *)
Definition reservation_id_drawn (c : call) : option string :=
  match c with
  | CallCreateReservation id _ _ _ _ _ => Some id
  | CallClaimNext id _ _ _ _ => Some id
  | _ => None
  end.

(** The identifier a call draws for a new booking, if it draws one. *)
Definition booking_id_drawn (c : call) : option string :=
  match c with
  | CallCreateBooking id _ _ _ _ => Some id
  | CallConfirmReservation id _ _ => Some id
  | _ => None
  end.

(** Along the trace no call draws the identifier of a stored booking. *)
Fixpoint bookings_fresh (db : Database) (cs : list call) : Prop :=
  match cs with
  | [] => True
  | c :: cs' =>
      (∀ id, booking_id_drawn c = Some id → Bookings db !! id = None) ∧
      bookings_fresh (exec c db).1 cs'
  end.

(** The ticket counts the handlers let through ([binding:"required,min=1"]). *)
Definition valid_call (c : call) : Prop :=
  match c with
  | CallCreateBooking _ _ _ _ n => 1 <= n
  | CallCreateReservation _ _ _ _ _ n => 1 <= n
  | CallEnqueueWait _ _ _ _ n => 1 <= n
  | _ => True
  end.

(** The instant a call reads from the clock, if it reads one. *)
Definition instant_of (c : call) : option Z :=
  match c with
  | CallCreateUser _ now _ _ => Some now
  | CallCreateBooking _ now _ _ _ => Some now
  | CallCreateReservation _ now created _ _ _ => Some now
  | CallConfirmReservation _ now _ => Some now
  | CallCancelReservation _ => None
  | CallGetReservation now _ => Some now
  | CallGetUserReservations now _ => Some now
  | CallEnqueueWait _ now _ _ _ => Some now
  | CallClaimNext _ now created _ _ => Some now
  | CallResetDatabase now _ _ _ => Some now
  end.

(** One [EnqueueWait] request: the identifier and instant it draws, the
    requester and the ticket count. *)
Record enqueue_request := {
  req_id : string;
  req_now : Z;
  req_user : string;
  req_count : Z
}.

(** A sequence of [EnqueueWait] calls on one conference, with the positions
    they return. *)
Fixpoint enqueue_all (conferenceID : string) (reqs : list enqueue_request)
    (db : Database) : Database * list Z :=
  match reqs with
  | [] => (db, [])
  | rq :: reqs' =>
      let out :=
        EnqueueWait (req_id rq) (req_now rq) (req_user rq) conferenceID (req_count rq) db in
      let rest := enqueue_all conferenceID reqs' out.1 in
      (rest.1, out.2 :: rest.2)
  end.

(** ** Derived quantities of the specification *)

(** Text made of ASCII white space only. *)
Fixpoint all_space (s : string) : bool :=
  match s with
  | EmptyString => true
  | String c s' => isSpace c && all_space s'
  end.

(** White space: text that [TrimSpace] removes entirely. *)
Definition blank (s : string) : Prop := TrimSpace s = EmptyString.

(** Two contacts that differ only in letter case or surrounding white space. *)
Definition same_contact (e1 e2 : string) : Prop :=
  ∃ pre1 post1 pre2 post2 s1 s2,
    e1 = pre1 +:+ s1 +:+ post1 ∧ e2 = pre2 +:+ s2 +:+ post2 ∧
    blank pre1 ∧ blank post1 ∧ blank pre2 ∧ blank post2 ∧
    ToLower s1 = ToLower s2.


(** A hold is Active at [now] when [now < expiresAt]. *)
Definition Active (now : Z) (r : SeatReservation) : Prop := now < ExpiresAt r.

#[global] Instance Active_dec (now : Z) (r : SeatReservation) : Decision (Active now r) :=
  Z_lt_dec now (ExpiresAt r).

(** The Active holds of a requester for a conference. *)
Definition active_holds (now : Z) (userID conferenceID : string) (db : Database)
    : gmap string SeatReservation :=
  filter (λ kr, Res_UserID kr.2 = userID ∧ Res_ConferenceID kr.2 = conferenceID ∧
                Active now kr.2) (Reservations db).

(** The sum of ticket counts, as a mathematical integer, over the holds that
    satisfy [keep]. *)
Definition total_tickets (keep : SeatReservation → bool)
    (m : gmap string SeatReservation) : Z :=
  map_fold (λ _ r acc, if keep r then acc + Res_TicketCount r else acc) 0 m.

(** A hold the purge at [now] leaves in place: [now] is not after its expiry. *)
Definition unpurged (now : Z) (r : SeatReservation) : bool :=
  negb (After now (ExpiresAt r)).

(** Tickets of a conference on hold once the purge at [now] is done. *)
Definition held (now : Z) (conferenceID : string) (db : Database) : Z :=
  total_tickets (λ r, for_conference conferenceID r && unpurged now r) (Reservations db).

(** Tickets of a conference held by Active holds. *)
Definition held_active (now : Z) (conferenceID : string) (db : Database) : Z :=
  total_tickets (active_for now conferenceID) (Reservations db).

(** Tickets of a conference sold: the sum over its bookings. *)
Definition booked (conferenceID : string) (db : Database) : Z :=
  map_fold (λ _ b acc,
    if bool_decide (Booking_ConferenceID b = conferenceID)
    then acc + TicketsBooked b else acc) 0 (Bookings db).

(** The counter of every conference is its capacity less its bookings, in
    64-bit arithmetic. *)
Definition accounted (db : Database) : Prop :=
  ∀ c conf, Conferences db !! c = Some conf →
    AvailableTickets conf = wrap64 (TotalTickets conf - booked c db).

(** The holds of a conference that expire exactly at [t]. *)
Definition expires_at (t : Z) (conferenceID : string) (r : SeatReservation) : bool :=
  for_conference conferenceID r && bool_decide (ExpiresAt r = t).

(** The bounds a conference's counter and holds stay within. *)
Definition conf_bounded (c : string) (conf : Conference)
    (m : gmap string SeatReservation) : Prop :=
  0 <= TotalTickets conf <= 2 ^ 60 ∧
  AvailableTickets conf <= TotalTickets conf ∧
  total_tickets (for_conference c) m <= 2 * TotalTickets conf ∧
  - (2 * TotalTickets conf) <= AvailableTickets conf - total_tickets (for_conference c) m ∧
  ∀ t, total_tickets (expires_at t c) m <= TotalTickets conf.

(** No hold of the ledger has a negative ticket count. *)
Definition nonneg (m : gmap string SeatReservation) : Prop :=
  ∀ i r, m !! i = Some r → 0 <= Res_TicketCount r.

Record bounded (db : Database) : Prop := {
  bounded_holds : nonneg (Reservations db);
  bounded_queues :
    ∀ c q, WaitQueues db !! c = Some q → Forall (λ e, 0 <= Wait_TicketCount e) q;
  bounded_confs :
    ∀ c conf, Conferences db !! c = Some conf → conf_bounded c conf (Reservations db)
}.

(** The counter of every conference is exactly its capacity less its
    bookings. *)
Definition accounted_exactly (db : Database) : Prop :=
  ∀ c conf, Conferences db !! c = Some conf →
    AvailableTickets conf = TotalTickets conf - booked c db.

(** The stores reached from a fresh one by calls the handlers let through. *)
Definition valid_reachable (db : Database) : Prop :=
  ∃ now d1 d2 d3 cs,
    Forall valid_call cs ∧ db = run (NewDatabase now d1 d2 d3) cs.

(** Every hold names a stored conference. *)
Definition wf (db : Database) : Prop :=
  ∀ rid r, Reservations db !! rid = Some r →
    is_Some (Conferences db !! Res_ConferenceID r).

(** The states the store can be in: a fresh store, then any calls. *)
Definition reachable (db : Database) : Prop :=
  ∃ now d1 d2 d3 cs, db = run (NewDatabase now d1 d2 d3) cs.

(** [db'] is [db] with some holds that had expired by [now] removed, and
    nothing else changed. *)
Definition purged_only (now : Z) (db db' : Database) : Prop :=
  Users db' = Users db ∧ Conferences db' = Conferences db ∧
  Bookings db' = Bookings db ∧ WaitQueues db' = WaitQueues db ∧
  StartTime db' = StartTime db ∧
  ∀ rid, Reservations db' !! rid = Reservations db !! rid ∨
         (Reservations db' !! rid = None ∧
          ∃ r, Reservations db !! rid = Some r ∧ ExpiresAt r < now).

(** The text is empty or starts with a byte that is not white space. *)
Definition starts_clean (s : string) : Prop :=
  match s with
  | EmptyString => True
  | String c _ => isSpace c = false
  end.

(** ** The reads of the store *)

(** The loop of [GetUserByEmail] over the users in the order [users]: the
    first one whose normalized email is the normalized input. *)
Definition find_by_email (email : string) (users : list (string * User)) : option User :=
  (λ found, found.2.2) <$>
    list_find (λ kv, normalize (User_Email kv.2) = normalize email) users.

(** [GetUserByEmail].  The range loop visits the map in an order Go leaves
    open; here it is the order of [map_to_list]. *)
Definition GetUserByEmail (email : string) (db : Database) : option User :=
  find_by_email email (map_to_list (Users db)).

(** [GetUserBookings]: the bookings of the user (as a map, the slice's order
    being the map's iteration order). *)
Definition GetUserBookings (userID : string) (db : Database) : gmap string Booking :=
  filter (λ kb, Booking_UserID kb.2 = userID) (Bookings db).

(** [GetAllBookings]: one row per booking, with the user and the conference
    its identifiers name ([None] for the nil pointer of a missing key). *)
Definition GetAllBookings (db : Database)
    : gmap string (Booking * option User * option Conference) :=
  (λ b, (b, Users db !! Booking_UserID b, Conferences db !! Booking_ConferenceID b))
    <$> Bookings db.

(** The order [conferences[i].ID < conferences[j].ID] of [sort.Slice], made
    reflexive: strings compare bytewise. *)
Definition id_le (c1 c2 : Conference) : Prop :=
  String.leb (Conf_ID c1) (Conf_ID c2) = true.

#[global] Instance id_le_dec (c1 c2 : Conference) : Decision (id_le c1 c2) :=
  bool_eq_dec _ _.

(** [GetAllConferences]: every conference, sorted by identifier. *)
Definition GetAllConferences (db : Database) : list Conference :=
  merge_sort id_le ((map_to_list (Conferences db)).*2).

(** One step of the second loop of [GetConferenceStats]:
    [s := stats[r.ConferenceID]; s.Reserved += r.TicketCount;
     stats[r.ConferenceID] = s], for a hold the instant is before. *)
Definition count_hold (now : Z) (r : SeatReservation) (stats : gmap string (Z * Z))
    : gmap string (Z * Z) :=
  if Before now (ExpiresAt r) then
    let s := default (0, 0) (stats !! Res_ConferenceID r) in
    <[Res_ConferenceID r := (int_add s.1 (Res_TicketCount r), s.2)]> stats
  else stats.

(** [GetConferenceStats]: per conference, the tickets on hold (expired holds
    ignored) and the length of the wait queue. *)
Definition GetConferenceStats (now : Z) (db : Database) : gmap string (Z * Z) :=
  let stats :=
    map_imap (λ id _, Some (0, Z.of_nat (length (queue_of id db)))) (Conferences db) in
  map_fold (λ _ r stats, count_hold now r stats) stats (Reservations db).

(** ** Derived quantities (continued) *)

(** A conference with its counter set to [a]. *)
Definition with_available (a : Z) (c : Conference) : Conference :=
  {| Conf_ID := Conf_ID c; Conf_Name := Conf_Name c; Conf_Location := Conf_Location c;
     TotalTickets := TotalTickets c; AvailableTickets := a;
     Price := Price c; Conf_Date := Conf_Date c |}.

(** The sample catalogue with the counters [a1], [a2], [a3]. *)
Definition catalogue (a1 a2 a3 d1 d2 d3 : Z) : gmap string Conference :=
  <["conf-3" := with_available a3 (conf3 d3)]>
    (<["conf-2" := with_available a2 (conf2 d2)]>
       (<["conf-1" := with_available a1 (conf1 d1)]> ∅)).

(** The amount charged for [n] tickets of a conference the store holds under
    [conferenceID]: [conference.Price * float64(n)]. *)
Definition charged (conferenceID : string) (n : Z) (amount : float) (db : Database)
    : Prop :=
  ∃ conf, Conferences db !! conferenceID = Some conf ∧
          amount = PrimFloat.mul (Price conf) (float64_of_int n).

(** What every record of a store reached from a fresh one looks like. *)
Record coherent (db : Database) : Prop := {
  coherent_users :
    ∀ id u, Users db !! id = Some u →
      User_ID u = id ∧ normalize (User_Email u) = User_Email u;
  coherent_emails :
    ∀ id1 id2 u1 u2, Users db !! id1 = Some u1 → Users db !! id2 = Some u2 →
      normalize (User_Email u1) = normalize (User_Email u2) → id1 = id2;
  coherent_conferences :
    ∃ a1 a2 a3 d1 d2 d3, Conferences db = catalogue a1 a2 a3 d1 d2 d3;
  coherent_bookings :
    ∀ id b, Bookings db !! id = Some b →
      Booking_ID b = id ∧ Status b = "confirmed" ∧
      charged (Booking_ConferenceID b) (TicketsBooked b) (Booking_TotalAmount b) db;
  coherent_holds :
    ∀ id r, Reservations db !! id = Some r →
      Res_ID r = id ∧
      charged (Res_ConferenceID r) (Res_TicketCount r) (Res_TotalAmount r) db;
  coherent_queues :
    ∀ c q, WaitQueues db !! c = Some q →
      NoDup (Wait_UserID <$> q) ∧ Forall (λ e, Wait_ConferenceID e = c) q
}.

(** What a requester can still reserve of a conference at [now]: the
    counter less the holds the purge leaves. *)
Definition effective (now : Z) (conferenceID : string) (db : Database) : option Z :=
  (λ conf, AvailableTickets conf - held now conferenceID db)
    <$> Conferences db !! conferenceID.

(** Calls other than [ResetDatabase]. *)
Definition keeps_data (c : call) : Prop :=
  match c with
  | CallResetDatabase _ _ _ _ => False
  | _ => True
  end.

(** Calls other than [ConfirmReservation]. *)
Definition no_confirm (c : call) : Prop :=
  match c with
  | CallConfirmReservation _ _ _ => False
  | _ => True
  end.

(** Calls other than [CreateBooking] and [ClaimNext]: the hold workflow
    (reserve, then confirm, cancel or let expire) and the calls that touch
    no ticket. *)
Definition holds_only (c : call) : Prop :=
  match c with
  | CallCreateBooking _ _ _ _ _ => False
  | CallClaimNext _ _ _ _ _ => False
  | _ => True
  end.

(** Every counter is between 0 and the capacity. *)
Definition in_stock (db : Database) : Prop :=
  ∀ c conf, Conferences db !! c = Some conf →
    0 <= AvailableTickets conf <= TotalTickets conf ∧ TotalTickets conf <= 2 ^ 60.

(** Every counter covers the holds stored for its conference. *)
Definition covered (db : Database) : Prop :=
  nonneg (Reservations db) ∧
  ∀ c conf, Conferences db !! c = Some conf →
    total_tickets (for_conference c) (Reservations db) <= AvailableTickets conf ∧
    AvailableTickets conf <= TotalTickets conf ∧ TotalTickets conf <= 2 ^ 60.

(** The identifier a call draws for a new user, if it draws one. *)
Definition user_id_drawn (c : call) : option string :=
  match c with
  | CallCreateUser id _ _ _ => Some id
  | _ => None
  end.

(** Along the trace no call draws the identifier of a stored user. *)
Fixpoint users_fresh (db : Database) (cs : list call) : Prop :=
  match cs with
  | [] => True
  | c :: cs' =>
      (∀ id, user_id_drawn c = Some id → Users db !! id = None) ∧
      users_fresh (exec c db).1 cs'
  end.

(** Every booking, hold and queue entry is for at least one ticket. *)
Record positive (db : Database) : Prop := {
  positive_bookings : ∀ id b, Bookings db !! id = Some b → 1 <= TicketsBooked b;
  positive_holds : ∀ id r, Reservations db !! id = Some r → 1 <= Res_TicketCount r;
  positive_queues :
    ∀ c q, WaitQueues db !! c = Some q → Forall (λ e, 1 <= Wait_TicketCount e) q
}.

(** The calls that purge the expired holds before anything else
    ([cleanupExpiredReservationsLocked]). *)
Definition purges (c : call) : Prop :=
  match c with
  | CallCreateReservation _ _ _ _ _ _ => True
  | CallGetReservation _ _ => True
  | CallGetUserReservations _ _ => True
  | CallClaimNext _ _ _ _ _ => True
  | _ => False
  end.

(** The clock does not run backwards inside a call: the reading stored as
    [CreatedAt] is taken after the one [ExpiresAt] is computed from. *)
Definition clock_ordered (c : call) : Prop :=
  match c with
  | CallCreateReservation _ now created _ _ _ => now <= created
  | CallClaimNext _ now created _ _ => now <= created
  | _ => True
  end.

(** No hold expires later than one hold duration after its [CreatedAt]. *)
Definition punctual (db : Database) : Prop :=
  ∀ id r, Reservations db !! id = Some r → ExpiresAt r <= CreatedAt r + holdDuration.

End store.

(** * Properties *)

Section machine_integers.
Context {lib : Strings}.

Lemma wrap64_id z : fits_int z → wrap64 z = z.
Proof.
  unfold fits_int, int_min, int_max, wrap64. intros Hz.
  rewrite Z.mod_small by lia. lia.
Qed.

Lemma wrap64_add_l a b : wrap64 (wrap64 a + b) = wrap64 (a + b).
Proof.
  unfold wrap64. f_equal.
  replace ((a + 2 ^ 63) mod 2 ^ 64 - 2 ^ 63 + b + 2 ^ 63)
    with ((a + 2 ^ 63) mod 2 ^ 64 + b) by lia.
  rewrite Zplus_mod_idemp_l. f_equal; lia.
Qed.

Lemma wrap64_sub_l a b : wrap64 (wrap64 a - b) = wrap64 (a - b).
Proof.
  replace (wrap64 a - b) with (wrap64 a + - b) by lia.
  rewrite wrap64_add_l. f_equal; lia.
Qed.

Lemma wrap64_sub_r a b : wrap64 (a - wrap64 b) = wrap64 (a - b).
Proof.
  unfold wrap64. change (2 ^ 64) with (2 * 2 ^ 63). generalize (2 ^ 63). intros h.
  f_equal.
  replace (a - ((b + h) mod (2 * h) - h) + h)
    with (a + 2 * h - (b + h) mod (2 * h)) by lia.
  rewrite Zminus_mod_idemp_r. f_equal; lia.
Qed.

Lemma int_sub_exact a b : fits_int (a - b) → int_sub a b = a - b.
Proof. apply wrap64_id. Qed.

(** Subtracting a wrapped sum is subtracting the sum, when the result fits. *)
Lemma int_sub_wrapped a b : fits_int (a - b) → int_sub a (wrap64 b) = a - b.
Proof. intros. unfold int_sub. rewrite wrap64_sub_r. by apply wrap64_id. Qed.

End machine_integers.

Section ticket_sums.
Context {lib : Strings}.
Implicit Types (m : gmap string SeatReservation) (keep : SeatReservation → bool).

Lemma total_tickets_empty keep : total_tickets keep ∅ = 0.
Proof. apply map_fold_empty. Qed.

Lemma total_tickets_insert keep m i r :
  m !! i = None →
  total_tickets keep (<[i:=r]> m) =
    (if keep r then Res_TicketCount r else 0) + total_tickets keep m.
Proof.
  intros Hi. unfold total_tickets.
  rewrite map_fold_insert_L; [destruct (keep r); lia | | done].
  intros j1 j2 z1 z2 y _ _ _. destruct (keep z1), (keep z2); lia.
Qed.

Lemma total_tickets_delete keep m i r :
  m !! i = Some r →
  total_tickets keep (delete i m) =
    total_tickets keep m - (if keep r then Res_TicketCount r else 0).
Proof.
  intros Hi. rewrite <- (insert_delete_id m i r) at 2 by done.
  rewrite total_tickets_insert by apply lookup_delete_eq. lia.
Qed.

Lemma sum_tickets_insert keep m i r :
  m !! i = None →
  sum_tickets keep (<[i:=r]> m) =
    if keep r then int_add (sum_tickets keep m) (Res_TicketCount r)
    else sum_tickets keep m.
Proof.
  intros Hi. unfold sum_tickets.
  rewrite map_fold_insert_L; [done | | done].
  intros j1 j2 z1 z2 y _ _ _. destruct (keep z1), (keep z2); try done.
  unfold int_add. rewrite !wrap64_add_l. f_equal; lia.
Qed.

(** The loop's wrap-around sum is the mathematical sum, wrapped once. *)
Lemma sum_tickets_wrap keep m :
  sum_tickets keep m = wrap64 (total_tickets keep m).
Proof.
  induction m as [|i r m Hi IH] using map_ind.
  - unfold sum_tickets, total_tickets. rewrite !map_fold_empty. done.
  - rewrite sum_tickets_insert, total_tickets_insert by done.
    destruct (keep r); [|by rewrite IH].
    rewrite IH. unfold int_add. rewrite wrap64_add_l. f_equal; lia.
Qed.

End ticket_sums.

Section purge.
Context {lib : Strings}.
Implicit Types (db : Database) (now : Z).

Lemma After_spec t u : After t u = true ↔ u < t.
Proof. unfold After. apply bool_decide_eq_true. Qed.

Lemma After_false t u : After t u = false ↔ t <= u.
Proof. unfold After. rewrite bool_decide_eq_false. lia. Qed.

Lemma Before_spec t u : Before t u = true ↔ t < u.
Proof. unfold Before. apply bool_decide_eq_true. Qed.

(** The holds the purge keeps are those the instant is not after. *)
Lemma lookup_cleanup now db rid r :
  Reservations (cleanupExpiredReservationsLocked now db) !! rid = Some r ↔
  Reservations db !! rid = Some r ∧ now <= ExpiresAt r.
Proof.
  unfold cleanupExpiredReservationsLocked. simpl.
  rewrite map_lookup_filter_Some. simpl. by rewrite After_false.
Qed.

Lemma lookup_cleanup_None now db rid :
  Reservations db !! rid = None →
  Reservations (cleanupExpiredReservationsLocked now db) !! rid = None.
Proof.
  intros H. unfold cleanupExpiredReservationsLocked. simpl.
  rewrite map_lookup_filter_None. by left.
Qed.

Lemma cleanup_purged_only now db :
  purged_only now db (cleanupExpiredReservationsLocked now db).
Proof.
  repeat split; try done. intros rid.
  destruct (Reservations db !! rid) as [r|] eqn:Hr.
  - destruct (decide (now <= ExpiresAt r)).
    + left. by apply lookup_cleanup.
    + right. split; [|exists r; split; [done|lia]].
      destruct (Reservations (cleanupExpiredReservationsLocked now db) !! rid)
        as [r'|] eqn:Hr'; [|done].
      apply lookup_cleanup in Hr' as [Hr1 Hr2]. simplify_eq. lia.
  - left. by apply lookup_cleanup_None.
Qed.

Lemma purged_only_refl now db : purged_only now db db.
Proof. repeat split; try done. by left. Qed.

Lemma total_tickets_cleanup keep now db :
  total_tickets keep (Reservations (cleanupExpiredReservationsLocked now db)) =
  total_tickets (λ r, keep r && unpurged now r) (Reservations db).
Proof.
  unfold cleanupExpiredReservationsLocked. simpl.
  induction (Reservations db) as [|i r m Hi IH] using map_ind.
  - by rewrite map_filter_empty.
  - rewrite (total_tickets_insert _ m) by done. unfold unpurged at 1.
    destruct (After now (ExpiresAt r)) eqn:HA; simpl.
    + rewrite map_filter_insert_False by (simpl; congruence).
      rewrite delete_id by done. rewrite IH, andb_false_r. lia.
    + rewrite map_filter_insert_True by done.
      rewrite total_tickets_insert by (by rewrite map_lookup_filter_None; left).
      by rewrite IH, andb_true_r.
Qed.

Lemma held_cleanup now c db :
  total_tickets (for_conference c)
    (Reservations (cleanupExpiredReservationsLocked now db)) = held now c db.
Proof. apply total_tickets_cleanup. Qed.

End purge.

Section create_reservation.
Context {lib : Strings}.
Implicit Types (db : Database) (now : Z).

Lemma no_active_hold_check now u c db :
  active_holds now u c db = ∅ →
  bool_decide (map_Exists (λ _ r,
    Res_UserID r = u ∧ Res_ConferenceID r = c ∧ Before now (ExpiresAt r) = true)
    (Reservations (cleanupExpiredReservationsLocked now db))) = false.
Proof.
  intros Hnone. apply bool_decide_eq_false. intros (rid & r & Hr & Hu & Hc & Hb).
  apply lookup_cleanup in Hr as [Hr _].
  assert (active_holds now u c db !! rid = Some r) as Hin.
  { unfold active_holds. apply map_lookup_filter_Some. split; [done|]. simpl.
    repeat split; try done. by apply Before_spec. }
  rewrite Hnone in Hin. by rewrite lookup_empty in Hin.
Qed.

Lemma active_hold_check now u c db rid r :
  Reservations db !! rid = Some r → Res_UserID r = u → Res_ConferenceID r = c →
  Active now r →
  bool_decide (map_Exists (λ _ r,
    Res_UserID r = u ∧ Res_ConferenceID r = c ∧ Before now (ExpiresAt r) = true)
    (Reservations (cleanupExpiredReservationsLocked now db))) = true.
Proof.
  intros Hr Hu Hc Ha. apply bool_decide_eq_true. exists rid, r.
  unfold Active in Ha. split; [apply lookup_cleanup; split; [done|lia]|].
  repeat split; try done. by apply Before_spec.
Qed.

(** What [CreateReservation] does once the conference is found and the
    requester holds nothing Active for it. *)
Lemma CreateReservation_checked id now created u c n db conf :
  Conferences db !! c = Some conf →
  active_holds now u c db = ∅ →
  fits_int (AvailableTickets conf - held now c db) →
  CreateReservation id now created u c n db =
    let db1 := cleanupExpiredReservationsLocked now db in
    if bool_decide (AvailableTickets conf - held now c db < n)
    then (db1, Err ErrNotEnoughForReservation)
    else (set_Reservations (insert id (new_reservation id now created u c n conf)) db1,
          Ok (new_reservation id now created u c n conf)).
Proof.
  intros Hconf Hnone Hdiff. unfold CreateReservation.
  change (Conferences (cleanupExpiredReservationsLocked now db)) with (Conferences db).
  rewrite Hconf. rewrite no_active_hold_check by done.
  rewrite sum_tickets_wrap, held_cleanup.
  by rewrite int_sub_wrapped.
Qed.

(** The requester already holds an Active reservation for the conference:
    [CreateReservation] refuses. *)
Lemma CreateReservation_duplicate id now created u c n db conf rid r :
  Conferences db !! c = Some conf →
  Reservations db !! rid = Some r →
  Res_UserID r = u → Res_ConferenceID r = c → Active now r →
  CreateReservation id now created u c n db =
    (cleanupExpiredReservationsLocked now db, Err ErrAlreadyReserved).
Proof.
  intros Hconf Hr Hu Hc Hact. unfold CreateReservation.
  change (Conferences (cleanupExpiredReservationsLocked now db)) with (Conferences db).
  rewrite Hconf. by rewrite (active_hold_check now u c db rid r).
Qed.

End create_reservation.

Section well_formed.
Context {lib : Strings}.
Implicit Types (db : Database) (now : Z).

Lemma wf_cleanup now db : wf db → wf (cleanupExpiredReservationsLocked now db).
Proof.
  intros Hwf rid r Hr. apply lookup_cleanup in Hr as [Hr _].
  exact (Hwf rid r Hr).
Qed.

Lemma wf_NewDatabase now d1 d2 d3 : wf (NewDatabase now d1 d2 d3).
Proof. intros rid r Hr. simpl in Hr. by rewrite lookup_empty in Hr. Qed.

Lemma wf_take_tickets db c conf n :
  Conferences db !! c = Some conf →
  wf db → wf (set_Conferences (insert c (take_tickets n conf)) db).
Proof.
  intros Hc Hwf rid r Hr. simpl in *.
  destruct (decide (c = Res_ConferenceID r)) as [->|Hne].
  - rewrite lookup_insert_eq. eauto.
  - rewrite lookup_insert_ne by done. exact (Hwf rid r Hr).
Qed.

Lemma wf_insert_reservation db id r :
  is_Some (Conferences db !! Res_ConferenceID r) →
  wf db → wf (set_Reservations (insert id r) db).
Proof.
  intros Hc Hwf rid r' Hr. simpl in *.
  apply lookup_insert_Some in Hr as [[_ <-]|[_ Hr]]; [done|].
  exact (Hwf rid r' Hr).
Qed.

Lemma wf_delete_reservation db rid :
  wf db → wf (set_Reservations (delete rid) db).
Proof.
  intros Hwf rid' r Hr. simpl in *.
  apply lookup_delete_Some in Hr as [_ Hr]. exact (Hwf rid' r Hr).
Qed.

Lemma wf_same db db' :
  Reservations db' = Reservations db → Conferences db' = Conferences db →
  wf db → wf db'.
Proof. intros HR HC Hwf rid r. rewrite HR, HC. apply Hwf. Qed.

Lemma wf_CreateReservation id now created u c n db :
  wf db → wf (CreateReservation id now created u c n db).1.
Proof.
  intros Hwf. apply (wf_cleanup now) in Hwf. unfold CreateReservation.
  destruct (Conferences _ !! c) as [conf|] eqn:Hc; [|done].
  case_bool_decide; [done|]. case_bool_decide; [done|]. simpl.
  apply wf_insert_reservation; [|done]. simpl. eauto.
Qed.

Lemma wf_ClaimNext id now created u c db :
  wf db → wf (ClaimNext id now created u c db).1.
Proof.
  intros Hwf. apply (wf_cleanup now) in Hwf. unfold ClaimNext.
  destruct (queue_of c _) as [|hd rest]; [done|].
  case_bool_decide; [done|].
  destruct (Conferences _ !! c) as [conf|] eqn:Hc; [|done].
  case_bool_decide; [done|]. simpl.
  intros rid r Hr. simpl in *.
  apply lookup_insert_Some in Hr as [[_ <-]|[_ Hr]]; [simpl; eauto|].
  exact (Hwf rid r Hr).
Qed.

Lemma wf_ConfirmReservation id now rid db :
  wf db → wf (ConfirmReservation id now rid db).1.
Proof.
  intros Hwf. unfold ConfirmReservation.
  destruct (Reservations db !! rid) as [r|] eqn:Hr; [|done].
  destruct (After now (ExpiresAt r)); [by apply wf_delete_reservation|].
  destruct (Conferences db !! Res_ConferenceID r) as [conf|] eqn:Hc; [|done].
  simpl. apply wf_delete_reservation.
  exact (wf_take_tickets db _ conf (Res_TicketCount r) Hc Hwf).
Qed.

Lemma wf_exec c db : wf db → wf (exec c db).1.
Proof.
  intros Hwf. destruct c; simpl.
  - unfold CreateUser. case_bool_decide; simpl; [done|].
    by eapply wf_same.
  - unfold CreateBooking.
    destruct (Conferences db !! conferenceID) as [conf|] eqn:Hc; [|done].
    case_bool_decide; [done|]. simpl.
    exact (wf_take_tickets db _ conf ticketCount Hc Hwf).
  - by apply wf_CreateReservation.
  - by apply wf_ConfirmReservation.
  - unfold CancelReservation.
    destruct (Reservations db !! reservationID); [|done].
    by apply wf_delete_reservation.
  - unfold GetReservation.
    destruct (Reservations _ !! reservationID); by apply wf_cleanup.
  - by apply wf_cleanup.
  - unfold EnqueueWait. destruct (find_user _ _); simpl; by eapply wf_same.
  - by apply wf_ClaimNext.
  - apply wf_NewDatabase.
Qed.

Lemma wf_run cs db : wf db → wf (run db cs).
Proof.
  revert db. induction cs as [|c cs IH]; intros db Hwf; [done|].
  simpl. apply IH. by apply wf_exec.
Qed.

(** No reachable store holds a reservation for a conference it lacks. *)
Lemma reachable_wf db : reachable db → wf db.
Proof.
  intros (now & d1 & d2 & d3 & cs & ->). apply wf_run, wf_NewDatabase.
Qed.

End well_formed.

(** Unfold the range of the machine integer for [lia]. *)
Ltac int_bounds :=
  unfold fits_int, int_min, int_max in *;
  change (2 ^ 63) with 9223372036854775808 in *;
  change (2 ^ 60) with 1152921504606846976 in *.

Section nonnegative_sums.
Context {lib : Strings}.
Implicit Types (m : gmap string SeatReservation) (keep : SeatReservation → bool).

Lemma nonneg_insert_inv m i r :
  m !! i = None → nonneg (<[i:=r]> m) → 0 <= Res_TicketCount r ∧ nonneg m.
Proof.
  intros Hi Hnn. split; [apply (Hnn i), lookup_insert_eq|].
  intros j r' Hj. apply (Hnn j). rewrite lookup_insert_ne; [done|].
  intros ->. congruence.
Qed.

Lemma nonneg_subseteq m m' : m' ⊆ m → nonneg m → nonneg m'.
Proof. intros Hsub Hnn i r Hi. apply (Hnn i). by eapply lookup_weaken. Qed.

Lemma nonneg_delete m i : nonneg m → nonneg (delete i m).
Proof. apply nonneg_subseteq, delete_subseteq. Qed.

Lemma nonneg_insert m i r : 0 <= Res_TicketCount r → nonneg m → nonneg (<[i:=r]> m).
Proof.
  intros Hr Hnn j r' Hj.
  apply lookup_insert_Some in Hj as [[_ <-]|[_ Hj]]; [done|]. by apply (Hnn j).
Qed.

Lemma total_tickets_nonneg keep m : nonneg m → 0 <= total_tickets keep m.
Proof.
  induction m as [|i r m Hi IH] using map_ind; intros Hnn.
  - by rewrite total_tickets_empty.
  - apply nonneg_insert_inv in Hnn as [Hr Hnn]; [|done].
    rewrite total_tickets_insert by done. specialize (IH Hnn).
    destruct (keep r); lia.
Qed.

(** A sum over fewer holds is smaller. *)
Lemma total_tickets_mono keep keep' m :
  nonneg m →
  (∀ i r, m !! i = Some r → keep r = true → keep' r = true) →
  total_tickets keep m <= total_tickets keep' m.
Proof.
  induction m as [|i r m Hi IH] using map_ind; intros Hnn Himp.
  - by rewrite !total_tickets_empty.
  - apply nonneg_insert_inv in Hnn as [Hr Hnn]; [|done].
    rewrite !total_tickets_insert by done.
    assert (total_tickets keep m <= total_tickets keep' m) as Hle.
    { apply IH; [done|]. intros j r' Hj. apply (Himp j).
      rewrite lookup_insert_ne; [done|]. intros ->. congruence. }
    pose proof (Himp i r (lookup_insert_eq _ _ _)) as Hir.
    destruct (keep r); [rewrite Hir by done; lia|].
    destruct (keep' r); lia.
Qed.

(** A sum over holds that fall in one of two classes is at most the two
    classes' sums. *)
Lemma total_tickets_cover keep k1 k2 m :
  nonneg m →
  (∀ i r, m !! i = Some r → keep r = true → k1 r = true ∨ k2 r = true) →
  total_tickets keep m <= total_tickets k1 m + total_tickets k2 m.
Proof.
  induction m as [|i r m Hi IH] using map_ind; intros Hnn Himp.
  - by rewrite !total_tickets_empty.
  - apply nonneg_insert_inv in Hnn as [Hr Hnn]; [|done].
    rewrite !total_tickets_insert by done.
    assert (total_tickets keep m <= total_tickets k1 m + total_tickets k2 m) as Hle.
    { apply IH; [done|]. intros j r' Hj. apply (Himp j).
      rewrite lookup_insert_ne; [done|]. intros ->. congruence. }
    pose proof (Himp i r (lookup_insert_eq _ _ _)) as Hir.
    destruct (keep r); [|destruct (k1 r), (k2 r); lia].
    destruct (Hir eq_refl) as [->| ->]; [destruct (k2 r)|destruct (k1 r)]; lia.
Qed.

Lemma total_tickets_delete_le keep m i :
  nonneg m → total_tickets keep (delete i m) <= total_tickets keep m.
Proof.
  intros Hnn. destruct (m !! i) as [r|] eqn:Hi.
  - rewrite (total_tickets_delete keep m i r) by done.
    pose proof (Hnn i r Hi). destruct (keep r); lia.
  - rewrite delete_id by done. lia.
Qed.

(** Storing a hold, over an old one or not, adds at most its tickets. *)
Lemma total_tickets_insert_le keep m i r :
  nonneg m →
  total_tickets keep (<[i:=r]> m) <=
    (if keep r then Res_TicketCount r else 0) + total_tickets keep m.
Proof.
  intros Hnn. rewrite <- insert_delete_eq.
  rewrite total_tickets_insert by apply lookup_delete_eq.
  pose proof (total_tickets_delete_le keep m i Hnn). lia.
Qed.

Lemma total_tickets_insert_skip keep m i r :
  nonneg m → keep r = false →
  total_tickets keep (<[i:=r]> m) <= total_tickets keep m.
Proof.
  intros Hnn Hr. pose proof (total_tickets_insert_le keep m i r Hnn) as Hle.
  by rewrite Hr in Hle.
Qed.

Lemma total_tickets_cleanup_le keep now db :
  nonneg (Reservations db) →
  total_tickets keep (Reservations (cleanupExpiredReservationsLocked now db))
    <= total_tickets keep (Reservations db).
Proof.
  intros Hnn. rewrite total_tickets_cleanup. apply total_tickets_mono; [done|].
  by intros i r _ [? _]%andb_true_iff.
Qed.

End nonnegative_sums.

Section bounds.
Context {lib : Strings}.
Implicit Types (db : Database) (now : Z) (m : gmap string SeatReservation).

(** A ledger whose sums did not grow keeps a conference within its bounds. *)
Lemma conf_bounded_shrink c conf m m' :
  total_tickets (for_conference c) m' <= total_tickets (for_conference c) m →
  (∀ t, total_tickets (expires_at t c) m' <= total_tickets (expires_at t c) m) →
  conf_bounded c conf m → conf_bounded c conf m'.
Proof.
  intros Hall Hat (HT & Hav & Hsum & Hlow & Hexp).
  repeat split; try lia. intros t. specialize (Hat t). specialize (Hexp t). lia.
Qed.

Lemma expires_at_for_conference t c r :
  expires_at t c r = true → for_conference c r = true.
Proof. unfold expires_at. by intros [? _]%andb_true_iff. Qed.

Lemma bounded_cleanup now db : bounded db → bounded (cleanupExpiredReservationsLocked now db).
Proof.
  intros [Hh Hq Hc]. split.
  - eapply nonneg_subseteq; [|exact Hh]. apply map_filter_subseteq.
  - exact Hq.
  - intros c conf Hconf. apply (conf_bounded_shrink c conf (Reservations db)).
    + by apply total_tickets_cleanup_le.
    + intros t. by apply total_tickets_cleanup_le.
    + by apply Hc.
Qed.

Lemma bounded_delete rid db : bounded db → bounded (set_Reservations (delete rid) db).
Proof.
  intros [Hh Hq Hc]. split.
  - by apply nonneg_delete.
  - exact Hq.
  - intros c conf Hconf. apply (conf_bounded_shrink c conf (Reservations db)).
    + by apply total_tickets_delete_le.
    + intros t. by apply total_tickets_delete_le.
    + by apply Hc.
Qed.

Lemma bounded_NewDatabase now d1 d2 d3 : bounded (NewDatabase now d1 d2 d3).
Proof.
  split.
  - intros i r Hi. simpl in Hi. by rewrite lookup_empty in Hi.
  - intros c q Hq. simpl in Hq. by rewrite lookup_empty in Hq.
  - intros c conf Hc. simpl in Hc. unfold conf_bounded. simpl.
    rewrite total_tickets_empty.
    assert (∀ t, total_tickets (expires_at t c) ∅ = 0) as Hz
      by (intros; apply total_tickets_empty).
    repeat (apply lookup_insert_Some in Hc as [[_ <-]|[_ Hc]];
      [simpl; int_bounds; repeat split; try lia; intros t; rewrite Hz; lia|]).
    by rewrite lookup_empty in Hc.
Qed.

(** The effective availability either path computes fits the machine
    integer, whatever holds the sum leaves out. *)
Lemma bounded_fits c conf db keep :
  bounded db → Conferences db !! c = Some conf →
  (∀ i r, Reservations db !! i = Some r → keep r = true → for_conference c r = true) →
  0 <= total_tickets keep (Reservations db)
    <= total_tickets (for_conference c) (Reservations db) ∧
  fits_int (AvailableTickets conf - total_tickets keep (Reservations db)).
Proof.
  intros [Hh Hq Hc] Hconf Hkeep.
  destruct (Hc c conf Hconf) as (HT & Hav & Hsum & Hlow & _).
  pose proof (total_tickets_nonneg keep _ Hh).
  pose proof (total_tickets_mono keep (for_conference c) _ Hh Hkeep).
  split; [lia|]. int_bounds. lia.
Qed.

Lemma bounded_CreateBooking id now u c n db :
  0 <= n → bounded db → bounded (CreateBooking id now u c n db).1.
Proof.
  intros Hn Hb. unfold CreateBooking.
  destruct (Conferences db !! c) as [conf|] eqn:Hconf; [|done].
  case_bool_decide as Hlt; [done|]. simpl.
  destruct Hb as [Hh Hq Hc]. split; [done|done|]. simpl.
  intros c' conf' Hc'. apply lookup_insert_Some in Hc' as [[<- <-]|[_ Hc']];
    [|by apply Hc].
  destruct (Hc c conf Hconf) as (HT & Hav & Hsum & Hlow & Hexp).
  unfold conf_bounded. simpl. rewrite int_sub_exact by (int_bounds; lia).
  repeat split; try lia. done.
Qed.

Lemma bounded_insert_hold id r db c conf :
  bounded db → Conferences db !! c = Some conf →
  Res_ConferenceID r = c → 0 <= Res_TicketCount r →
  Res_TicketCount r + total_tickets (for_conference c) (Reservations db)
    <= 2 * TotalTickets conf →
  - (2 * TotalTickets conf) <=
    AvailableTickets conf - Res_TicketCount r
      - total_tickets (for_conference c) (Reservations db) →
  Res_TicketCount r + total_tickets (expires_at (ExpiresAt r) c) (Reservations db)
    <= TotalTickets conf →
  bounded (set_Reservations (insert id r) db).
Proof.
  intros [Hh Hq Hc] Hconf Hrc Hr Hsum' Hlow' Hexp'. split; simpl.
  - by apply nonneg_insert.
  - exact Hq.
  - intros c' conf' Hc'. destruct (decide (c' = c)) as [->|Hne].
    + assert (conf' = conf) as -> by congruence.
      destruct (Hc c conf Hconf) as (HT & Hav & Hsum & Hlow & Hexp).
      pose proof (total_tickets_insert_le (for_conference c) _ id r Hh) as Hle.
      assert (for_conference c r = true) as Hfc by by apply bool_decide_eq_true.
      rewrite Hfc in Hle.
      repeat split; try lia. intros t.
      pose proof (total_tickets_insert_le (expires_at t c) _ id r Hh) as Hlt.
      unfold expires_at at 2 in Hlt. rewrite Hfc in Hlt. simpl in Hlt.
      case_bool_decide as Ht; [subst t; lia|]. specialize (Hexp t). lia.
    + apply (conf_bounded_shrink c' conf' (Reservations db)); [| |by apply Hc].
      * apply total_tickets_insert_skip; [done|].
        apply bool_decide_eq_false. congruence.
      * intros t. apply total_tickets_insert_skip; [done|].
        unfold expires_at. rewrite andb_false_iff. left.
        apply bool_decide_eq_false. congruence.
Qed.

Lemma holdDuration_pos : 0 < holdDuration.
Proof. done. Qed.

Lemma bounded_CreateReservation id now created u c n db :
  0 <= n → bounded db → bounded (CreateReservation id now created u c n db).1.
Proof.
  intros Hn Hb%(bounded_cleanup now). unfold CreateReservation.
  remember (cleanupExpiredReservationsLocked now db) as db1 eqn:Hdb1. clear Hdb1.
  destruct (Conferences db1 !! c) as [conf|] eqn:Hconf; [|done].
  case_bool_decide; [done|].
  destruct (bounded_fits c conf db1 (for_conference c) Hb Hconf) as [Hs Hfit];
    [done|].
  rewrite sum_tickets_wrap, int_sub_wrapped by done.
  case_bool_decide as Hlt; [done|]. cbn [fst].
  destruct (bounded_confs _ Hb c conf Hconf) as (HT & Hav & Hsum & Hlow & Hexp).
  pose proof (total_tickets_mono (expires_at (now + holdDuration) c)
    (for_conference c) _ (bounded_holds _ Hb)
    (λ i r _, expires_at_for_conference _ c r)).
  apply (bounded_insert_hold id _ db1 c conf); cbn [new_reservation
    Res_ConferenceID Res_TicketCount ExpiresAt]; try done; lia.
Qed.

(** After the purge at [now] a hold of the conference is Active or expires
    at [now]. *)
Lemma cleanup_cover now c db :
  nonneg (Reservations db) →
  let m := Reservations (cleanupExpiredReservationsLocked now db) in
  total_tickets (for_conference c) m <=
    total_tickets (active_for now c) m + total_tickets (expires_at now c) m.
Proof.
  intros Hnn m. apply total_tickets_cover.
  - eapply nonneg_subseteq; [|exact Hnn]. apply map_filter_subseteq.
  - intros i r Hi Hfc. apply lookup_cleanup in Hi as [_ Hexpi].
    unfold active_for, expires_at. rewrite Hfc. simpl.
    destruct (decide (ExpiresAt r = now)) as [Heq|Hne].
    + right. by apply bool_decide_eq_true.
    + left. apply Before_spec. lia.
Qed.

Lemma queue_of_Some c db hd rest :
  queue_of c db = hd :: rest → WaitQueues db !! c = Some (hd :: rest).
Proof.
  unfold queue_of. destruct (WaitQueues db !! c) as [q|]; simpl; [|done].
  by intros ->.
Qed.

Lemma bounded_ClaimNext id now created u c db :
  bounded db → bounded (ClaimNext id now created u c db).1.
Proof.
  intros Hb. pose proof (cleanup_cover now c db (bounded_holds _ Hb)) as Hcover.
  apply (bounded_cleanup now) in Hb. unfold ClaimNext.
  remember (cleanupExpiredReservationsLocked now db) as db1 eqn:Hdb1. clear Hdb1.
  cbv zeta in Hcover.
  destruct (queue_of c db1) as [|hd rest] eqn:Hq; [done|].
  case_bool_decide; [done|].
  destruct (Conferences db1 !! c) as [conf|] eqn:Hconf; [|done].
  assert (∀ i r, Reservations db1 !! i = Some r →
            active_for now c r = true → for_conference c r = true) as Hact
    by (unfold active_for; by intros i r _ [? _]%andb_true_iff).
  destruct (bounded_fits c conf db1 (active_for now c) Hb Hconf Hact) as [Hs Hfit].
  rewrite sum_tickets_wrap, int_sub_wrapped by done.
  case_bool_decide as Hlt; [done|]. cbn [fst].
  apply queue_of_Some in Hq.
  pose proof (bounded_queues _ Hb c _ Hq) as Hqb.
  apply Forall_cons in Hqb as [Hhd Hrest].
  destruct (bounded_confs _ Hb c conf Hconf) as (HT & Hav & Hsum & Hlow & Hexp).
  assert (total_tickets (expires_at (now + holdDuration) c) (Reservations db1) <=
          total_tickets (active_for now c) (Reservations db1)) as Hnew.
  { apply total_tickets_mono; [apply Hb|]. intros i r _.
    unfold expires_at, active_for. intros [Hfc Ht]%andb_true_iff.
    rewrite Hfc. simpl. apply bool_decide_eq_true in Ht.
    apply Before_spec. pose proof holdDuration_pos. lia. }
  pose proof (Hexp now) as Hnow.
  assert (bounded (set_Reservations
    (insert id (new_reservation id now created u c (Wait_TicketCount hd) conf)) db1)) as Hb'.
  { apply (bounded_insert_hold id _ db1 c conf); cbn [new_reservation
      Res_ConferenceID Res_TicketCount ExpiresAt]; try done; lia. }
  destruct Hb' as [Hh' Hq' Hc']. split; simpl; [done| |done].
  intros c' q' Hq''. apply lookup_insert_Some in Hq'' as [[_ <-]|[_ Hq'']]; [done|].
  by apply (Hq' c').
Qed.

Lemma bounded_ConfirmReservation id now rid db :
  bounded db → bounded (ConfirmReservation id now rid db).1.
Proof.
  intros Hb. unfold ConfirmReservation.
  destruct (Reservations db !! rid) as [r|] eqn:Hr; [|done].
  destruct (After now (ExpiresAt r)); [by apply bounded_delete|].
  destruct (Conferences db !! Res_ConferenceID r) as [conf|] eqn:Hconf; [|done].
  simpl. destruct Hb as [Hh Hq Hc]. split; simpl.
  - by apply nonneg_delete.
  - exact Hq.
  - pose proof (Hh rid r Hr) as Hk.
    intros c' conf' Hc'. apply lookup_insert_Some in Hc' as [[<- <-]|[Hne Hc']].
    + destruct (Hc _ conf Hconf) as (HT & Hav & Hsum & Hlow & Hexp).
      pose proof (total_tickets_delete (for_conference (Res_ConferenceID r)) _ rid r Hr)
        as Hdel.
      assert (for_conference (Res_ConferenceID r) r = true) as Hfc
        by (by apply bool_decide_eq_true).
      rewrite Hfc in Hdel.
      pose proof (total_tickets_nonneg (for_conference (Res_ConferenceID r))
        _ (nonneg_delete _ rid Hh)) as Hpos.
      unfold conf_bounded. simpl. rewrite int_sub_exact by (int_bounds; lia).
      repeat split; try lia. intros t.
      pose proof (total_tickets_delete_le (expires_at t (Res_ConferenceID r)) _ rid Hh).
      specialize (Hexp t). lia.
    + apply (conf_bounded_shrink c' conf' (Reservations db)); [| |by apply Hc].
      * by apply total_tickets_delete_le.
      * intros t. by apply total_tickets_delete_le.
Qed.

Lemma bounded_EnqueueWait id now u c n db :
  0 <= n → bounded db → bounded (EnqueueWait id now u c n db).1.
Proof.
  intros Hn [Hh Hq Hc]. unfold EnqueueWait.
  assert (Forall (λ e, 0 <= Wait_TicketCount e) (queue_of c db)) as Hqc.
  { unfold queue_of. destruct (WaitQueues db !! c) as [q|] eqn:Hqq; simpl; [|done].
    by apply (Hq c). }
  destruct (find_user u (queue_of c db)) as [i|]; split; simpl; try done.
  - intros c' q' Hq'. apply lookup_insert_Some in Hq' as [[_ <-]|[_ Hq']];
      [|by apply (Hq c')].
    by apply Forall_alter.
  - intros c' q' Hq'. apply lookup_insert_Some in Hq' as [[_ <-]|[_ Hq']];
      [|by apply (Hq c')].
    apply Forall_app. split; [done|]. by repeat constructor.
Qed.

(** Calls with the counts the handlers let through keep the store bounded. *)
Lemma bounded_exec c db : valid_call c → bounded db → bounded (exec c db).1.
Proof.
  intros Hv Hb. destruct c; simpl in *.
  - unfold CreateUser. case_bool_decide; [done|]. by destruct Hb.
  - apply bounded_CreateBooking; [lia|done].
  - apply bounded_CreateReservation; [lia|done].
  - by apply bounded_ConfirmReservation.
  - unfold CancelReservation. destruct (Reservations db !! reservationID); [|done].
    by apply bounded_delete.
  - unfold GetReservation.
    destruct (Reservations _ !! reservationID); by apply bounded_cleanup.
  - by apply bounded_cleanup.
  - apply bounded_EnqueueWait; [lia|done].
  - by apply bounded_ClaimNext.
  - apply bounded_NewDatabase.
Qed.

Lemma bounded_run cs db : Forall valid_call cs → bounded db → bounded (run db cs).
Proof.
  revert db. induction cs as [|c cs IH]; intros db Hv Hb; [done|].
  apply Forall_cons in Hv as [Hc Hcs]. simpl. apply IH; [done|].
  by apply bounded_exec.
Qed.

Lemma valid_reachable_bounded db : valid_reachable db → bounded db.
Proof.
  intros (now & d1 & d2 & d3 & cs & Hv & ->).
  by apply bounded_run, bounded_NewDatabase.
Qed.

(** In a bounded store the subtraction [CreateReservation] makes is exact. *)
Lemma bounded_held_fits now c conf db :
  bounded db → Conferences db !! c = Some conf →
  fits_int (AvailableTickets conf - held now c db).
Proof.
  intros Hb Hconf. apply (bounded_fits c conf db); [done|done|].
  by intros i r _ [? _]%andb_true_iff.
Qed.

Lemma valid_reachable_reachable db : valid_reachable db → reachable db.
Proof. intros (now & d1 & d2 & d3 & cs & _ & ->). by exists now, d1, d2, d3, cs. Qed.

End bounds.

Section accounting.
Context {lib : Strings}.
Implicit Types (db : Database) (now : Z).

Lemma booked_insert c db id b :
  Bookings db !! id = None →
  booked c (set_Bookings (insert id b) db) =
    (if bool_decide (Booking_ConferenceID b = c) then TicketsBooked b else 0)
    + booked c db.
Proof.
  intros Hid. unfold booked. simpl.
  rewrite map_fold_insert_L; [case_bool_decide; lia| |done].
  intros j1 j2 z1 z2 y _ _ _. repeat case_bool_decide; lia.
Qed.

(** Selling [n] tickets of conference [c] under a fresh booking identifier
    keeps every counter in step with the bookings. *)
Lemma accounted_sell db c conf id b :
  Conferences db !! c = Some conf →
  Bookings db !! id = None →
  Booking_ConferenceID b = c →
  accounted db →
  accounted (set_Bookings (insert id b)
               (set_Conferences (insert c (take_tickets (TicketsBooked b) conf)) db)).
Proof.
  intros Hc Hid Hb Hacc c' conf' Hc'. simpl in Hc'.
  rewrite booked_insert by done.
  change (booked c' (set_Conferences _ db)) with (booked c' db).
  destruct (decide (c = c')) as [<-|Hne].
  - rewrite lookup_insert_eq in Hc'. injection Hc' as <-. simpl.
    rewrite bool_decide_eq_true_2 by done.
    rewrite (Hacc c conf Hc). unfold int_sub. rewrite wrap64_sub_l. f_equal; lia.
  - rewrite lookup_insert_ne in Hc' by done.
    rewrite bool_decide_eq_false_2 by congruence.
    rewrite (Hacc c' conf' Hc'). f_equal; lia.
Qed.

Lemma accounted_same db db' :
  Conferences db' = Conferences db → Bookings db' = Bookings db →
  accounted db → accounted db'.
Proof.
  intros HC HB Hacc c conf. rewrite HC. unfold booked. rewrite HB. apply Hacc.
Qed.

Lemma accounted_NewDatabase now d1 d2 d3 : accounted (NewDatabase now d1 d2 d3).
Proof.
  intros c conf Hc. simpl in Hc.
  change (booked c (NewDatabase now d1 d2 d3)) with 0.
  repeat (apply lookup_insert_Some in Hc as [[_ <-]|[_ Hc]]; [by vm_compute|]).
  by rewrite lookup_empty in Hc.
Qed.

Lemma accounted_exec c db :
  (∀ id, booking_id_drawn c = Some id → Bookings db !! id = None) →
  accounted db → accounted (exec c db).1.
Proof.
  intros Hfresh Hacc. destruct c; simpl in *.
  - unfold CreateUser. case_bool_decide; [done|]. by eapply accounted_same.
  - unfold CreateBooking.
    destruct (Conferences db !! conferenceID) as [conf|] eqn:Hc; [|done].
    case_bool_decide; [done|]. simpl.
    by apply (accounted_sell db conferenceID conf id
      {| Booking_ID := id; Booking_UserID := userID;
         Booking_ConferenceID := conferenceID; TicketsBooked := ticketCount;
         Booking_TotalAmount := _; Status := _; BookedAt := now |}); auto.
  - eapply accounted_same; [| |exact Hacc]; unfold CreateReservation;
      destruct (Conferences _ !! conferenceID); try done;
      repeat case_bool_decide; done.
  - unfold ConfirmReservation.
    destruct (Reservations db !! reservationID) as [r|] eqn:Hr; [|done].
    destruct (After now (ExpiresAt r)); [by eapply accounted_same|].
    destruct (Conferences db !! Res_ConferenceID r) as [conf|] eqn:Hc; [|done].
    simpl. eapply accounted_same; [| |
      apply (accounted_sell db (Res_ConferenceID r) conf id
        {| Booking_ID := id; Booking_UserID := Res_UserID r;
           Booking_ConferenceID := Res_ConferenceID r;
           TicketsBooked := Res_TicketCount r;
           Booking_TotalAmount := Res_TotalAmount r; Status := "confirmed";
           BookedAt := now |}); auto]; done.
  - unfold CancelReservation. destruct (Reservations db !! reservationID);
      [by eapply accounted_same|done].
  - unfold GetReservation.
    destruct (Reservations _ !! reservationID); by eapply accounted_same.
  - by eapply accounted_same.
  - unfold EnqueueWait. destruct (find_user _ _); by eapply accounted_same.
  - eapply accounted_same; [| |exact Hacc]; unfold ClaimNext;
      destruct (queue_of conferenceID _); try done;
      case_bool_decide; try done;
      destruct (Conferences _ !! conferenceID); try done;
      case_bool_decide; done.
  - apply accounted_NewDatabase.
Qed.

Lemma accounted_run cs db :
  bookings_fresh db cs → accounted db → accounted (run db cs).
Proof.
  revert db. induction cs as [|c cs IH]; intros db Hfresh Hacc; [done|].
  destruct Hfresh as [Hc Hcs]. simpl. apply IH; [done|].
  by apply accounted_exec.
Qed.

(** On every trace from a fresh store that draws fresh booking identifiers,
    each conference's counter is its capacity less its bookings. *)
Lemma accounted_reachable now d1 d2 d3 cs :
  bookings_fresh (NewDatabase now d1 d2 d3) cs →
  accounted (run (NewDatabase now d1 d2 d3) cs).
Proof. intros. by apply accounted_run, accounted_NewDatabase. Qed.

(** A direct booking of a count that is not negative never drives the
    counter below zero. *)
Lemma CreateBooking_nonnegative id now u c n db conf b :
  Conferences db !! c = Some conf →
  0 <= n → fits_int (AvailableTickets conf) →
  (CreateBooking id now u c n db).2 = Ok b →
  AvailableTickets <$> Conferences (CreateBooking id now u c n db).1 !! c =
    Some (AvailableTickets conf - n) ∧
  0 <= AvailableTickets conf - n.
Proof.
  intros Hc Hn Hfit. unfold CreateBooking. rewrite Hc.
  case_bool_decide as Hlt; [done|]. simpl. intros _.
  rewrite lookup_insert_eq. simpl. rewrite int_sub_exact; [split; [done|lia]|].
  unfold fits_int, int_min, int_max in *.
  change (2 ^ 63) with 9223372036854775808 in *. lia.
Qed.

End accounting.

Section exact_accounting.
Context {lib : Strings}.
Implicit Types (db : Database) (now : Z).

(** In a bounded store a direct booking that passes its check subtracts
    without wrapping. *)
Lemma CreateBooking_fits c conf n db :
  bounded db → Conferences db !! c = Some conf →
  0 <= n → ¬ AvailableTickets conf < n →
  fits_int (AvailableTickets conf - n).
Proof.
  intros Hb Hconf Hn Hlt.
  destruct (bounded_confs _ Hb c conf Hconf) as (HT & Hav & _).
  int_bounds. lia.
Qed.

(** In a bounded store confirming a stored hold subtracts without wrapping. *)
Lemma ConfirmReservation_fits rid r conf db :
  bounded db → Reservations db !! rid = Some r →
  Conferences db !! Res_ConferenceID r = Some conf →
  fits_int (AvailableTickets conf - Res_TicketCount r).
Proof.
  intros Hb Hr Hconf.
  destruct (bounded_confs _ Hb _ conf Hconf) as (HT & Hav & Hsum & Hlow & _).
  pose proof (bounded_holds _ Hb rid r Hr) as Hk.
  pose proof (total_tickets_delete (for_conference (Res_ConferenceID r)) _ rid r Hr)
    as Hdel.
  assert (for_conference (Res_ConferenceID r) r = true) as Hfc
    by (by apply bool_decide_eq_true).
  rewrite Hfc in Hdel.
  pose proof (total_tickets_nonneg (for_conference (Res_ConferenceID r))
    _ (nonneg_delete _ rid (bounded_holds _ Hb))) as Hpos.
  int_bounds. lia.
Qed.

Lemma accounted_exactly_sell db c conf id b :
  Conferences db !! c = Some conf →
  Bookings db !! id = None →
  Booking_ConferenceID b = c →
  fits_int (AvailableTickets conf - TicketsBooked b) →
  accounted_exactly db →
  accounted_exactly (set_Bookings (insert id b)
               (set_Conferences (insert c (take_tickets (TicketsBooked b) conf)) db)).
Proof.
  intros Hc Hid Hb Hfit Hacc c' conf' Hc'. simpl in Hc'.
  rewrite booked_insert by done.
  change (booked c' (set_Conferences _ db)) with (booked c' db).
  destruct (decide (c = c')) as [<-|Hne].
  - rewrite lookup_insert_eq in Hc'. injection Hc' as <-. simpl.
    rewrite bool_decide_eq_true_2 by done.
    rewrite int_sub_exact by done. rewrite (Hacc c conf Hc). lia.
  - rewrite lookup_insert_ne in Hc' by done.
    rewrite bool_decide_eq_false_2 by congruence.
    rewrite (Hacc c' conf' Hc'). lia.
Qed.

Lemma accounted_exactly_same db db' :
  Conferences db' = Conferences db → Bookings db' = Bookings db →
  accounted_exactly db → accounted_exactly db'.
Proof.
  intros HC HB Hacc c conf. rewrite HC. unfold booked. rewrite HB. apply Hacc.
Qed.

Lemma accounted_exactly_NewDatabase now d1 d2 d3 :
  accounted_exactly (NewDatabase now d1 d2 d3).
Proof.
  intros c conf Hc. simpl in Hc.
  change (booked c (NewDatabase now d1 d2 d3)) with 0.
  repeat (apply lookup_insert_Some in Hc as [[_ <-]|[_ Hc]]; [by vm_compute|]).
  by rewrite lookup_empty in Hc.
Qed.

Lemma accounted_exactly_exec c db :
  valid_call c → bounded db →
  (∀ id, booking_id_drawn c = Some id → Bookings db !! id = None) →
  accounted_exactly db → accounted_exactly (exec c db).1.
Proof.
  intros Hv Hb Hfresh Hacc. destruct c; simpl in *.
  - unfold CreateUser. case_bool_decide; [done|]. by eapply accounted_exactly_same.
  - unfold CreateBooking.
    destruct (Conferences db !! conferenceID) as [conf|] eqn:Hc; [|done].
    case_bool_decide; [done|]. simpl.
    apply (accounted_exactly_sell db conferenceID conf id
      {| Booking_ID := id; Booking_UserID := userID;
         Booking_ConferenceID := conferenceID; TicketsBooked := ticketCount;
         Booking_TotalAmount := _; Status := _; BookedAt := now |}); auto.
    simpl. apply (CreateBooking_fits conferenceID conf ticketCount db); auto; lia.
  - eapply accounted_exactly_same; [| |exact Hacc]; unfold CreateReservation;
      destruct (Conferences _ !! conferenceID); try done;
      repeat case_bool_decide; done.
  - unfold ConfirmReservation.
    destruct (Reservations db !! reservationID) as [r|] eqn:Hr; [|done].
    destruct (After now (ExpiresAt r)); [by eapply accounted_exactly_same|].
    destruct (Conferences db !! Res_ConferenceID r) as [conf|] eqn:Hc; [|done].
    simpl. eapply accounted_exactly_same; [| |
      apply (accounted_exactly_sell db (Res_ConferenceID r) conf id
        {| Booking_ID := id; Booking_UserID := Res_UserID r;
           Booking_ConferenceID := Res_ConferenceID r;
           TicketsBooked := Res_TicketCount r;
           Booking_TotalAmount := Res_TotalAmount r; Status := "confirmed";
           BookedAt := now |}); auto]; try done.
    simpl. by apply (ConfirmReservation_fits reservationID r conf db).
  - unfold CancelReservation. destruct (Reservations db !! reservationID);
      [by eapply accounted_exactly_same|done].
  - unfold GetReservation.
    destruct (Reservations _ !! reservationID); by eapply accounted_exactly_same.
  - by eapply accounted_exactly_same.
  - unfold EnqueueWait. destruct (find_user _ _); by eapply accounted_exactly_same.
  - eapply accounted_exactly_same; [| |exact Hacc]; unfold ClaimNext;
      destruct (queue_of conferenceID _); try done;
      case_bool_decide; try done;
      destruct (Conferences _ !! conferenceID); try done;
      case_bool_decide; done.
  - apply accounted_exactly_NewDatabase.
Qed.

Lemma accounted_exactly_run cs db :
  Forall valid_call cs → bookings_fresh db cs →
  bounded db → accounted_exactly db →
  bounded (run db cs) ∧ accounted_exactly (run db cs).
Proof.
  revert db. induction cs as [|c cs IH]; intros db Hv Hfresh Hb Hacc; [done|].
  apply Forall_cons in Hv as [Hc Hcs]. destruct Hfresh as [Hf Hfs]. simpl.
  apply IH; [done|done| |].
  - by apply bounded_exec.
  - by apply accounted_exactly_exec.
Qed.

(** What the store does keep of the capacity invariant: on every trace from
    a fresh store, made of calls with ticket counts of at least one and
    drawing fresh booking identifiers, each conference's counter is exactly
    its capacity less its bookings, and lies between minus twice the
    capacity and the capacity. *)
Lemma capacity_bounds now d1 d2 d3 cs c conf :
  Forall valid_call cs →
  bookings_fresh (NewDatabase now d1 d2 d3) cs →
  Conferences (run (NewDatabase now d1 d2 d3) cs) !! c = Some conf →
  AvailableTickets conf =
    TotalTickets conf - booked c (run (NewDatabase now d1 d2 d3) cs) ∧
  - (2 * TotalTickets conf) <= AvailableTickets conf <= TotalTickets conf.
Proof.
  intros Hv Hfresh Hconf.
  destruct (accounted_exactly_run cs (NewDatabase now d1 d2 d3) Hv Hfresh)
    as [Hb Hacc];
    [apply bounded_NewDatabase|apply accounted_exactly_NewDatabase|].
  split; [by apply Hacc|].
  destruct (bounded_confs _ Hb c conf Hconf) as (HT & Hav & Hsum & Hlow & _).
  pose proof (total_tickets_nonneg (for_conference c) _ (bounded_holds _ Hb)).
  lia.
Qed.

End exact_accounting.

Section confirm.
Context {lib : Strings}.
Implicit Types (db : Database) (now : Z).

(** C4 (amended).  In a reachable store, [ConfirmReservation] fails with
    NotFound when the reservation is absent; fails with Expired, discarding
    the entry, when the instant is strictly after the expiry ([now > expiresAt]);
    and otherwise, the expiry instant itself included, stores and returns a
    booking with the reservation's requester, conference, ticket count and
    amount, takes that count off the conference's available tickets (in
    64-bit arithmetic; exactly, in a store reached by calls with ticket
    counts of at least one) and removes the reservation. *)
Theorem confirm_reservation_contract id now rid db :
  reachable db →
  let out := ConfirmReservation id now rid db in
  (Reservations db !! rid = None →
     out = (db, Err ErrReservationNotFound) ∧
     kind ErrReservationNotFound = NotFound) ∧
  (∀ r, Reservations db !! rid = Some r → ExpiresAt r < now →
     out = (set_Reservations (delete rid) db, Err ErrReservationExpired) ∧
     kind ErrReservationExpired = Expired) ∧
  (∀ r, Reservations db !! rid = Some r → now <= ExpiresAt r →
     ∃ conf b,
       Conferences db !! Res_ConferenceID r = Some conf ∧ out.2 = Ok b ∧
       Booking_ID b = id ∧ Booking_UserID b = Res_UserID r ∧
       Booking_ConferenceID b = Res_ConferenceID r ∧
       TicketsBooked b = Res_TicketCount r ∧
       Booking_TotalAmount b = Res_TotalAmount r ∧
       Bookings out.1 = <[id := b]> (Bookings db) ∧
       Reservations out.1 = delete rid (Reservations db) ∧
       AvailableTickets <$> Conferences out.1 !! Res_ConferenceID r =
         Some (int_sub (AvailableTickets conf) (Res_TicketCount r)) ∧
       (valid_reachable db →
        AvailableTickets <$> Conferences out.1 !! Res_ConferenceID r =
          Some (AvailableTickets conf - Res_TicketCount r))).
Proof.
  intros Hwf%reachable_wf out. subst out. unfold ConfirmReservation.
  split; [|split].
  - by intros ->.
  - intros r -> Hexp. by rewrite (proj2 (After_spec now (ExpiresAt r)) Hexp).
  - intros r Hr Hexp. rewrite Hr.
    rewrite (proj2 (After_false now (ExpiresAt r)) Hexp).
    destruct (Hwf rid r Hr) as [conf Hc]. rewrite Hc. simpl.
    eexists conf, _. repeat split; try done.
    + by rewrite lookup_insert_eq.
    + intros Hb%valid_reachable_bounded. rewrite lookup_insert_eq. simpl.
      rewrite int_sub_exact; [done|].
      by apply (ConfirmReservation_fits rid r conf db).
Qed.

Lemma ConfirmReservation_settles id now rid db :
  wf db → Reservations (ConfirmReservation id now rid db).1 !! rid = None.
Proof.
  intros Hwf. unfold ConfirmReservation.
  destruct (Reservations db !! rid) as [r|] eqn:Hr; [|done].
  destruct (After now (ExpiresAt r)); simpl; [apply lookup_delete_eq|].
  destruct (Hwf rid r Hr) as [conf Hc]. rewrite Hc. simpl. apply lookup_delete_eq.
Qed.

Lemma CancelReservation_settles rid db :
  Reservations (CancelReservation rid db).1 !! rid = None.
Proof.
  unfold CancelReservation.
  destruct (Reservations db !! rid) as [r|] eqn:Hr; [|done].
  simpl. apply lookup_delete_eq.
Qed.

End confirm.

Section absent.
Context {lib : Strings}.
Implicit Types (db : Database) (now : Z).

Lemma absent_exec rid c db :
  Reservations db !! rid = None →
  reservation_id_drawn c ≠ Some rid →
  Reservations (exec c db).1 !! rid = None.
Proof.
  intros Habs Hid. destruct c; simpl in *.
  - unfold CreateUser. by case_bool_decide.
  - unfold CreateBooking. destruct (Conferences db !! conferenceID); [|done].
    by case_bool_decide.
  - unfold CreateReservation.
    destruct (Conferences _ !! conferenceID);
      [|by apply lookup_cleanup_None].
    case_bool_decide; [by apply lookup_cleanup_None|].
    case_bool_decide; [by apply lookup_cleanup_None|]. simpl.
    rewrite lookup_insert_ne by congruence.
    by apply (lookup_cleanup_None now db).
  - unfold ConfirmReservation.
    destruct (Reservations db !! reservationID) as [r|]; [|done].
    destruct (After now (ExpiresAt r)); simpl.
    + rewrite lookup_delete_None. by right.
    + destruct (Conferences db !! Res_ConferenceID r); [|done]. simpl.
      rewrite lookup_delete_None. by right.
  - unfold CancelReservation.
    destruct (Reservations db !! reservationID); [|done]. simpl.
    rewrite lookup_delete_None. by right.
  - unfold GetReservation.
    destruct (Reservations _ !! reservationID); by apply lookup_cleanup_None.
  - by apply lookup_cleanup_None.
  - unfold EnqueueWait. by destruct (find_user _ _).
  - unfold ClaimNext.
    destruct (queue_of conferenceID _) as [|hd rest];
      [by apply lookup_cleanup_None|].
    case_bool_decide; [by apply lookup_cleanup_None|].
    destruct (Conferences _ !! conferenceID); [|by apply lookup_cleanup_None].
    case_bool_decide; [by apply lookup_cleanup_None|]. simpl.
    rewrite lookup_insert_ne by congruence.
    by apply (lookup_cleanup_None now db).
  - done.
Qed.

Lemma absent_run rid cs db :
  Reservations db !! rid = None →
  Forall (λ c, reservation_id_drawn c ≠ Some rid) cs →
  Reservations (run db cs) !! rid = None.
Proof.
  revert db. induction cs as [|c cs IH]; intros db Habs Hcs; [done|].
  inversion Hcs; subst. simpl. apply IH; [|done]. by apply absent_exec.
Qed.

Lemma absent_not_found rid db :
  Reservations db !! rid = None →
  ∀ id now,
    (GetReservation now rid db).2 = Err ErrReservationNotFound ∧
    (ConfirmReservation id now rid db).2 = Err ErrReservationNotFound ∧
    (CancelReservation rid db).2 = Err ErrReservationNotFound.
Proof.
  intros Habs id now. repeat split.
  - unfold GetReservation. by rewrite (lookup_cleanup_None now db rid Habs).
  - unfold ConfirmReservation. by rewrite Habs.
  - unfold CancelReservation. by rewrite Habs.
Qed.

(** A call that does not draw the identifier of a stored hold leaves the
    hold as it is or removes it. *)
Lemma kept_or_gone_exec rid r c db :
  Reservations db !! rid = Some r →
  reservation_id_drawn c ≠ Some rid →
  Reservations (exec c db).1 !! rid = Some r ∨
  Reservations (exec c db).1 !! rid = None.
Proof.
  intros Hr Hid.
  assert (∀ now, Reservations (cleanupExpiredReservationsLocked now db) !! rid = Some r ∨
                 Reservations (cleanupExpiredReservationsLocked now db) !! rid = None)
    as Hpurge.
  { intros now. destruct (Reservations (cleanupExpiredReservationsLocked now db) !! rid)
      as [r'|] eqn:Hr'; [|by right].
    apply lookup_cleanup in Hr' as [Hr' _]. left. congruence. }
  assert (∀ k, Reservations (set_Reservations (delete k) db) !! rid = Some r ∨
               Reservations (set_Reservations (delete k) db) !! rid = None) as Hdel.
  { intros k. simpl. destruct (decide (k = rid)) as [->|Hne].
    - right. apply lookup_delete_eq.
    - left. by rewrite lookup_delete_ne. }
  destruct c; simpl in *.
  - left. unfold CreateUser. by case_bool_decide.
  - left. unfold CreateBooking. destruct (Conferences db !! conferenceID); [|done].
    by case_bool_decide.
  - unfold CreateReservation. cbv zeta.
    destruct (Conferences _ !! conferenceID); [|apply Hpurge].
    case_bool_decide; [apply Hpurge|]. case_bool_decide; [apply Hpurge|].
    cbn [fst]. simpl. rewrite lookup_insert_ne by congruence. apply Hpurge.
  - unfold ConfirmReservation.
    destruct (Reservations db !! reservationID) as [r'|]; [|by left].
    destruct (After now (ExpiresAt r')); [apply Hdel|].
    destruct (Conferences db !! Res_ConferenceID r'); [|by left].
    apply (Hdel reservationID).
  - unfold CancelReservation.
    destruct (Reservations db !! reservationID); [apply Hdel|by left].
  - unfold GetReservation. cbv zeta.
    destruct (Reservations _ !! reservationID); apply Hpurge.
  - apply Hpurge.
  - left. unfold EnqueueWait. by destruct (find_user _ _).
  - unfold ClaimNext. cbv zeta.
    destruct (queue_of conferenceID _) as [|hd rest]; [apply Hpurge|].
    case_bool_decide; [apply Hpurge|].
    destruct (Conferences _ !! conferenceID); [|apply Hpurge].
    case_bool_decide; [apply Hpurge|]. cbn [fst]. simpl.
    rewrite lookup_insert_ne by congruence. apply Hpurge.
  - by right.
Qed.

Lemma kept_or_gone_run rid r cs db :
  Reservations db !! rid = Some r →
  Forall (λ c, reservation_id_drawn c ≠ Some rid) cs →
  Reservations (run db cs) !! rid = Some r ∨ Reservations (run db cs) !! rid = None.
Proof.
  revert db. induction cs as [|c cs IH]; intros db Hr Hcs; [by left|].
  apply Forall_cons in Hcs as [Hc Hcs]. simpl.
  destruct (kept_or_gone_exec rid r c db Hr Hc) as [Hkept|Hgone].
  - by apply IH.
  - right. by apply absent_run.
Qed.

(** A call that purges, made after a hold's expiry, removes the hold. *)
Lemma purged_exec rid r c t db :
  Reservations db !! rid = Some r →
  purges c → instant_of c = Some t → ExpiresAt r < t →
  reservation_id_drawn c ≠ Some rid →
  Reservations (exec c db).1 !! rid = None.
Proof.
  intros Hr Hp Ht Hexp Hid.
  assert (Reservations (cleanupExpiredReservationsLocked t db) !! rid = None) as Hgone.
  { destruct (Reservations (cleanupExpiredReservationsLocked t db) !! rid)
      as [r'|] eqn:Hr'; [|done].
    apply lookup_cleanup in Hr' as [Hr' Hle].
    assert (r' = r) as -> by congruence. lia. }
  destruct c; simpl in *; try done; injection Ht as ->.
  - unfold CreateReservation. cbv zeta.
    destruct (Conferences _ !! conferenceID); [|done].
    case_bool_decide; [done|]. case_bool_decide; [done|].
    cbn [fst]. simpl. by rewrite lookup_insert_ne by congruence.
  - unfold GetReservation. cbv zeta.
    by destruct (Reservations _ !! reservationID).
  - done.
  - unfold ClaimNext. cbv zeta.
    destruct (queue_of conferenceID _) as [|hd rest]; [done|].
    case_bool_decide; [done|]. destruct (Conferences _ !! conferenceID); [|done].
    case_bool_decide; [done|]. cbn [fst]. simpl.
    by rewrite lookup_insert_ne by congruence.
Qed.

(** C5 (amended).  In a reachable store: confirming a reservation yields
    Expired exactly when the entry is still stored and the instant is
    strictly after its expiry; a stored hold that has expired is removed by
    every later call that purges (create-reservation, get-reservation,
    list-user-reservations, claim), and then the confirmation yields
    NotFound: after any calls, a confirmation strictly after the expiry
    yields Expired or NotFound.  Once a reservation has been confirmed or
    cancelled (whatever that call returned), get, confirm and cancel on its
    identifier yield NotFound, at once (the second attempt) and after any
    further calls that do not draw that identifier anew. *)
Theorem expiry_idempotence rid db :
  reachable db →
  (∀ id now,
     (ConfirmReservation id now rid db).2 = Err ErrReservationExpired ↔
     ∃ r, Reservations db !! rid = Some r ∧ ExpiresAt r < now) ∧
  (∀ r c t,
     Reservations db !! rid = Some r →
     purges c → instant_of c = Some t → ExpiresAt r < t →
     reservation_id_drawn c ≠ Some rid →
     ∀ id now,
       (ConfirmReservation id now rid (exec c db).1).2 = Err ErrReservationNotFound) ∧
  (∀ r cs id now,
     Reservations db !! rid = Some r →
     Forall (λ c, reservation_id_drawn c ≠ Some rid) cs →
     ExpiresAt r < now →
     (ConfirmReservation id now rid (run db cs)).2 = Err ErrReservationExpired ∨
     (ConfirmReservation id now rid (run db cs)).2 = Err ErrReservationNotFound) ∧
  (∀ db1,
     (∃ id now, db1 = (ConfirmReservation id now rid db).1) ∨
     db1 = (CancelReservation rid db).1 →
     ∀ cs, Forall (λ c, reservation_id_drawn c ≠ Some rid) cs →
     ∀ id now,
       (GetReservation now rid (run db1 cs)).2 = Err ErrReservationNotFound ∧
       (ConfirmReservation id now rid (run db1 cs)).2 = Err ErrReservationNotFound ∧
       (CancelReservation rid (run db1 cs)).2 = Err ErrReservationNotFound ∧
       kind ErrReservationNotFound = NotFound) ∧
  kind ErrReservationExpired = Expired.
Proof.
  intros Hwf%reachable_wf. split; [|split; [|split; [|split; [|done]]]].
  - intros id now. unfold ConfirmReservation.
    destruct (Reservations db !! rid) as [r|] eqn:Hr.
    + destruct (After now (ExpiresAt r)) eqn:Hafter.
      * apply After_spec in Hafter. split; [|done]. intros _. by exists r.
      * apply After_false in Hafter. destruct (Hwf rid r Hr) as [conf ->].
        split; [done|]. intros (r' & [= <-] & Hlt). lia.
    + split; [done|]. by intros (r' & ? & _).
  - intros r c t Hr Hp Ht Hexp Hid id now. unfold ConfirmReservation.
    by rewrite (purged_exec rid r c t db).
  - intros r cs id now Hr Hcs Hexp. unfold ConfirmReservation.
    destruct (kept_or_gone_run rid r cs db Hr Hcs) as [-> | ->]; [|by right].
    left. by rewrite (proj2 (After_spec now (ExpiresAt r)) Hexp).
  - intros db1 Hdb1 cs Hcs id now.
    assert (Reservations (run db1 cs) !! rid = None) as Habs.
    { apply absent_run; [|done]. destruct Hdb1 as [(id' & now' & ->)| ->].
      - by apply ConfirmReservation_settles.
      - apply CancelReservation_settles. }
    destruct (absent_not_found rid _ Habs id now) as (Hg & Hc & Hx).
    by repeat split.
Qed.

End absent.

Section failures.
Context {lib : Strings}.
Implicit Types (db : Database) (now : Z).

Lemma purged_only_delete_expired now db rid r :
  Reservations db !! rid = Some r → ExpiresAt r < now →
  purged_only now db (set_Reservations (delete rid) db).
Proof.
  intros Hr Hexp. repeat split; try done. intros rid'. simpl.
  destruct (decide (rid' = rid)) as [->|Hne].
  - right. rewrite lookup_delete_eq. eauto.
  - left. by rewrite lookup_delete_ne.
Qed.

(** One branch of a call: it succeeded, or it failed having purged at most. *)
Ltac settle_branch :=
  simpl; split; [eauto|];
  first [ discriminate
        | intros; first [ apply purged_only_refl | apply cleanup_purged_only ] ].

(** C8.  In a reachable store every call returns a success or one error
    (never a crash), and a call that returns an error leaves the store as it
    was apart from the removal of holds that had expired by then. *)
Theorem failed_calls_change_nothing c db :
  reachable db →
  ((exec c db).2 = Success ∨ ∃ e, (exec c db).2 = Failure e) ∧
  ∀ e, (exec c db).2 = Failure e →
       purged_only (default 0 (instant_of c)) db (exec c db).1.
Proof.
  intros Hwf%reachable_wf. destruct c; simpl.
  - unfold CreateUser. case_bool_decide; settle_branch.
  - unfold CreateBooking. destruct (Conferences db !! conferenceID);
      [case_bool_decide|]; settle_branch.
  - unfold CreateReservation. destruct (Conferences _ !! conferenceID);
      [case_bool_decide; [|case_bool_decide]|]; settle_branch.
  - unfold ConfirmReservation.
    destruct (Reservations db !! reservationID) as [r|] eqn:Hr; [|settle_branch].
    destruct (After now (ExpiresAt r)) eqn:Hexp; simpl.
    + split; [eauto|]. intros. apply After_spec in Hexp.
      by apply (purged_only_delete_expired now db reservationID r).
    + destruct (Hwf _ _ Hr) as [conf Hc]. rewrite Hc. settle_branch.
  - unfold CancelReservation. destruct (Reservations db !! reservationID);
      settle_branch.
  - unfold GetReservation. destruct (Reservations _ !! reservationID);
      settle_branch.
  - settle_branch.
  - settle_branch.
  - unfold ClaimNext. destruct (queue_of conferenceID _) as [|hd rest];
      [|case_bool_decide;
        [|destruct (Conferences _ !! conferenceID); [case_bool_decide|]]];
      settle_branch.
  - settle_branch.
Qed.

End failures.

Section claim.
Context {lib : Strings}.
Implicit Types (db : Database) (now : Z).

Lemma queue_of_cleanup now c db :
  queue_of c (cleanupExpiredReservationsLocked now db) = queue_of c db.
Proof. done. Qed.

(** A failing claim is a purge and nothing more. *)
Lemma ClaimNext_failure id now created u c db e :
  (ClaimNext id now created u c db).2 = Err e →
  (ClaimNext id now created u c db).1 = cleanupExpiredReservationsLocked now db ∧
  (e = ErrNotYourTurn ∨ e = ErrConferenceNotFound ∨ e = ErrNotEnoughTickets).
Proof.
  unfold ClaimNext. destruct (queue_of c _) as [|hd rest]; simpl.
  { intros [= <-]. eauto. }
  case_bool_decide; simpl. { intros [= <-]. eauto. }
  destruct (Conferences _ !! c); simpl; [|intros [= <-]; eauto].
  case_bool_decide; simpl; [intros [= <-]; eauto|discriminate].
Qed.

(** C7.  A claim by a requester who is not at index 0 of the conference's
    queue fails with NotYourTurn; and every failing claim (NotYourTurn,
    NotFound or InsufficientInventory) leaves the wait queues, the
    conferences' counters and the bookings as they were, and the ledger as it
    was apart from the purge of expired holds: every queue position is kept. *)
Theorem claim_gating id now created u c db :
  let out := ClaimNext id now created u c db in
  (Wait_UserID <$> head (queue_of c db) ≠ Some u → out.2 = Err ErrNotYourTurn) ∧
  (∀ e, out.2 = Err e →
     (kind e = NotYourTurn ∨ kind e = NotFound ∨ kind e = InsufficientInventory) ∧
     WaitQueues out.1 = WaitQueues db ∧
     Conferences out.1 = Conferences db ∧
     Bookings out.1 = Bookings db ∧
     Reservations out.1 = Reservations (cleanupExpiredReservationsLocked now db) ∧
     purged_only now db out.1 ∧
     (∀ v c', GetQueuePosition v c' out.1 = GetQueuePosition v c' db)).
Proof.
  intros out. subst out. split.
  - intros Hhead. unfold ClaimNext. rewrite queue_of_cleanup.
    destruct (queue_of c db) as [|hd rest]; [done|]. simpl in Hhead.
    rewrite bool_decide_eq_true_2; [done|]. congruence.
  - intros e He. apply ClaimNext_failure in He as [Hst Hkind]; rewrite Hst.
    split; [destruct Hkind as [ -> | [ -> | -> ] ]; simpl; eauto|].
    repeat split; try done. apply cleanup_purged_only.
Qed.

End claim.

Section queue.
Context {lib : Strings}.
Implicit Types (db : Database) (q : list WaitEntry).

Lemma queue_of_insert c c' q db :
  queue_of c' (set_WaitQueues (insert c q) db) =
    if decide (c = c') then q else queue_of c' db.
Proof.
  unfold queue_of. simpl. destruct (decide (c = c')) as [->|Hne].
  - by rewrite lookup_insert_eq.
  - by rewrite lookup_insert_ne.
Qed.

(** A requester not yet queued is appended and told the new length. *)
Lemma EnqueueWait_new id now u c n db :
  find_user u (queue_of c db) = None →
  ∃ e, Wait_UserID e = u ∧ Wait_TicketCount e = n ∧
    queue_of c (EnqueueWait id now u c n db).1 = queue_of c db ++ [e] ∧
    (EnqueueWait id now u c n db).2 = Z.of_nat (length (queue_of c db)) + 1.
Proof.
  intros Hnew. unfold EnqueueWait. rewrite Hnew. cbv zeta. cbn [fst snd].
  eexists. split; [|split; [|split]].
  3: { rewrite queue_of_insert, decide_True by done. reflexivity. }
  - done.
  - done.
  - rewrite length_app. simpl. lia.
Qed.

(** A queued requester keeps the slot; only the requested count changes. *)
Lemma EnqueueWait_again id now u c n db i :
  find_user u (queue_of c db) = Some i →
  (EnqueueWait id now u c n db).2 = Z.of_nat i + 1 ∧
  Wait_UserID <$> queue_of c (EnqueueWait id now u c n db).1 =
    Wait_UserID <$> queue_of c db.
Proof.
  intros Hi. unfold EnqueueWait. rewrite Hi. cbn [fst snd]. split; [done|].
  rewrite queue_of_insert, decide_True by done.
  rewrite (list_fmap_alter Wait_UserID _ (λ x, x)) by (by apply Forall_forall).
  by apply list_alter_id.
Qed.

Lemma find_user_NoDup u q i :
  NoDup (Wait_UserID <$> q) → (Wait_UserID <$> q) !! i = Some u →
  find_user u q = Some i.
Proof.
  revert i. induction q as [|e q IH]; intros i Hnd Hi; [done|].
  simpl in *. apply NoDup_cons in Hnd as [Hnotin Hnd].
  destruct i as [|i]; simpl in Hi.
  - injection Hi as Hi. by rewrite bool_decide_eq_true_2.
  - rewrite bool_decide_eq_false_2.
    + by rewrite (IH i).
    + intros He. apply Hnotin. rewrite He. by eapply list_elem_of_lookup_2.
Qed.

Lemma find_user_None u q : u ∉ Wait_UserID <$> q → find_user u q = None.
Proof.
  induction q as [|e q IH]; simpl; [done|].
  intros Hnotin. apply not_elem_of_cons in Hnotin as [Hne Hnotin].
  rewrite bool_decide_eq_false_2 by done. by rewrite IH.
Qed.

(** A successful claim pops the head of the queue. *)
Lemma ClaimNext_success id now created u c db db' res :
  ClaimNext id now created u c db = (db', Ok res) →
  ∃ hd, queue_of c db = hd :: queue_of c db' ∧ Wait_UserID hd = u ∧
        Res_TicketCount res = Wait_TicketCount hd.
Proof.
  unfold ClaimNext. rewrite queue_of_cleanup.
  destruct (queue_of c db) as [|hd rest]; [done|].
  case_bool_decide as Hu; [done|].
  destruct (Conferences _ !! c); [|done].
  case_bool_decide; [done|]. intros [= <- <-].
  exists hd. rewrite queue_of_insert, decide_True by done.
  split; [done|]. split; [|done].
  destruct (decide (Wait_UserID hd = u)); [done|]. by destruct Hu.
Qed.

(** After a successful claim everyone behind the head is one place ahead. *)
Lemma ClaimNext_shifts id now created u c db db' res v :
  ClaimNext id now created u c db = (db', Ok res) →
  1 < GetQueuePosition v c db →
  GetQueuePosition v c db' = GetQueuePosition v c db - 1.
Proof.
  intros Hclaim. apply ClaimNext_success in Hclaim as (hd & Hq & Hu & _).
  unfold GetQueuePosition. rewrite Hq. simpl.
  case_bool_decide; [lia|].
  destruct (find_user v (queue_of c db')); simpl; lia.
Qed.

End queue.

Section fairness.
Context {lib : Strings}.
Implicit Types (db : Database) (q : list WaitEntry).

Lemma enqueue_all_spec c reqs db :
  NoDup ((Wait_UserID <$> queue_of c db) ++ (req_user <$> reqs)) →
  Wait_UserID <$> queue_of c (enqueue_all c reqs db).1 =
    (Wait_UserID <$> queue_of c db) ++ (req_user <$> reqs) ∧
  (enqueue_all c reqs db).2 =
    (λ i, Z.of_nat (length (queue_of c db) + i) + 1) <$> seq 0 (length reqs).
Proof.
  revert db. induction reqs as [|rq reqs IH]; intros db Hnd.
  - simpl. by rewrite app_nil_r.
  - simpl in *.
    assert (req_user rq ∉ Wait_UserID <$> queue_of c db) as Hnew.
    { apply NoDup_app in Hnd as (_ & Hdisj & _). intros Hin.
      apply (Hdisj _ Hin). left. }
    apply find_user_None in Hnew.
    destruct (EnqueueWait_new (req_id rq) (req_now rq) (req_user rq) c
                (req_count rq) db Hnew) as (e & Hu & _ & Hq & Hpos).
    destruct (IH (EnqueueWait (req_id rq) (req_now rq) (req_user rq) c
                    (req_count rq) db).1) as [IHq IHpos].
    { rewrite Hq, fmap_app. simpl. rewrite Hu, <- app_assoc. done. }
    split.
    + rewrite IHq, Hq, fmap_app. simpl. by rewrite Hu, <- app_assoc.
    + rewrite IHpos, Hpos, Hq, length_app. simpl. f_equal; [f_equal; lia|].
      rewrite <- fmap_S_seq, <- list_fmap_compose.
      apply list_fmap_ext. intros _ i _. simpl. lia.
Qed.

(** C6.  [N] enqueues by distinct requesters on an empty queue of one
    conference return the positions [1..N] in enqueue order, and
    [GetQueuePosition] reports the same; after a successful claim (which
    only the first requester can make) every remaining requester's position
    is one less than before. *)
Theorem queue_fairness c reqs db :
  queue_of c db = [] →
  NoDup (req_user <$> reqs) →
  let out := enqueue_all c reqs db in
  out.2 = (λ i, Z.of_nat i + 1) <$> seq 0 (length reqs) ∧
  (∀ i u, (req_user <$> reqs) !! i = Some u →
     GetQueuePosition u c out.1 = Z.of_nat i + 1) ∧
  (∀ id now created claimant db' res,
     ClaimNext id now created claimant c out.1 = (db', Ok res) →
     (req_user <$> reqs) !! 0%nat = Some claimant ∧
     ∀ i u, (req_user <$> reqs) !! S i = Some u →
       GetQueuePosition u c db' = (Z.of_nat (S i) + 1) - 1).
Proof.
  intros Hempty Hnd out. subst out.
  destruct (enqueue_all_spec c reqs db) as [Hq Hpos].
  { by rewrite Hempty. }
  rewrite Hempty in Hq, Hpos. simpl in Hq, Hpos.
  assert (∀ i u, (req_user <$> reqs) !! i = Some u →
     GetQueuePosition u c (enqueue_all c reqs db).1 = Z.of_nat i + 1) as Hget.
  { intros i u Hi. unfold GetQueuePosition.
    rewrite (find_user_NoDup u _ i); [done| |]; by rewrite Hq. }
  split; [done|]. split; [done|].
  intros id now created claimant db' res Hclaim.
  pose proof (ClaimNext_success _ _ _ _ _ _ _ _ Hclaim) as (hd & Hhd & Hu & _).
  split.
  - rewrite <- Hq, Hhd. simpl. by rewrite Hu.
  - intros i u Hi. rewrite <- (Hget (S i) u Hi).
    apply (ClaimNext_shifts _ _ _ _ _ _ _ _ _ Hclaim).
    rewrite (Hget (S i) u Hi). lia.
Qed.

End fairness.

Section requester.
Context {lib : Strings}.
Implicit Types (db : Database) (now : Z).

(** C9 (amended).  Neither [CreateBooking] nor [CreateReservation] looks
    at the users: for every [userID] they return what they would return
    with any other user table, and their only errors, once the conference
    exists, are about tickets and about a hold already held.  A booking
    succeeds when the available tickets suffice; a reservation succeeds when
    the requester holds no Active reservation for the conference and the
    effective availability suffices (in a store reached by calls with ticket
    counts of at least one).  The record made is owned by [userID]. *)
Theorem requester_existence_not_checked id now created userID c n db conf :
  valid_reachable db →
  Conferences db !! c = Some conf →
  let booking := CreateBooking id now userID c n db in
  let hold := CreateReservation id now created userID c n db in
  (n <= AvailableTickets conf →
     ∃ b, booking.2 = Ok b ∧ Booking_UserID b = userID ∧
          Bookings booking.1 !! id = Some b) ∧
  (active_holds now userID c db = ∅ →
   n <= AvailableTickets conf - held now c db →
     ∃ r, hold.2 = Ok r ∧ Res_UserID r = userID ∧
          Reservations hold.1 !! id = Some r) ∧
  (∀ users,
     CreateBooking id now userID c n (set_Users (λ _, users) db) =
       (set_Users (λ _, users) booking.1, booking.2) ∧
     CreateReservation id now created userID c n (set_Users (λ _, users) db) =
       (set_Users (λ _, users) hold.1, hold.2)) ∧
  (∀ e, booking.2 = Err e → e = ErrNotEnoughTickets) ∧
  (∀ e, hold.2 = Err e → e = ErrAlreadyReserved ∨ e = ErrNotEnoughForReservation).
Proof.
  intros Hb%valid_reachable_bounded Hconf booking hold. subst booking hold.
  repeat split.
  - intros Hn. unfold CreateBooking. rewrite Hconf.
    rewrite bool_decide_eq_false_2 by lia. simpl.
    eexists. split; [done|]. split; [done|]. apply lookup_insert_eq.
  - intros Hnone Hn.
    rewrite (CreateReservation_checked _ _ _ _ _ _ _ conf)
      by (try done; by apply bounded_held_fits).
    cbv zeta.
    rewrite bool_decide_eq_false_2 by lia. simpl.
    eexists. split; [done|]. split; [done|]. apply lookup_insert_eq.
  - unfold CreateBooking. simpl. rewrite Hconf. by case_bool_decide.
  - unfold CreateReservation. simpl.
    change (Conferences (cleanupExpiredReservationsLocked now db))
      with (Conferences db). rewrite Hconf.
    case_bool_decide; [done|]. by case_bool_decide.
  - unfold CreateBooking. rewrite Hconf. case_bool_decide; simpl; congruence.
  - unfold CreateReservation.
    change (Conferences (cleanupExpiredReservationsLocked now db))
      with (Conferences db). rewrite Hconf.
    case_bool_decide; simpl; [intros e [= <-]; by left|].
    case_bool_decide; simpl; [intros e [= <-]; by right|done].
Qed.

End requester.

Section contact.
Context {lib : Strings}.

(** Normalizing is idempotent: a stored contact compares as itself. *)
Lemma normalize_idem s : normalize (normalize s) = normalize s.
Proof.
  unfold normalize.
  by rewrite TrimSpace_ToLower, TrimSpace_TrimSpace, ToLower_ToLower.
Qed.

(** Contacts equal up to case and padding have one normal form. *)
Lemma same_contact_normalize e1 e2 :
  same_contact e1 e2 → normalize e1 = normalize e2.
Proof.
  intros (pre1 & post1 & pre2 & post2 & s1 & s2 & -> & -> & H1 & H2 & H3 & H4 & Hs).
  unfold normalize. rewrite !TrimSpace_blank by done.
  by rewrite <- !TrimSpace_ToLower, Hs.
Qed.

Lemma isASCII_trimLeft s : isASCII s = true → isASCII (trimLeft s) = true.
Proof.
  induction s as [|c s IH]; simpl; [done|].
  intros [Hc Hs]%andb_true_iff. destruct (isSpace c); [by apply IH|].
  simpl. by rewrite Hc, Hs.
Qed.

Lemma isASCII_trimRight s : isASCII s = true → isASCII (trimRight s) = true.
Proof.
  induction s as [|c s IH]; simpl; [done|].
  intros [Hc Hs]%andb_true_iff. specialize (IH Hs).
  destruct (trimRight s); simpl in *.
  - destruct (isSpace c); simpl; [done|]. by rewrite Hc.
  - by rewrite Hc, IH.
Qed.

(** On an ASCII contact the normal form is the one the fast paths compute. *)
Lemma normalize_ascii s : isASCII s = true → normalize s = lower_ascii (trim_ascii s).
Proof.
  intros Hs. unfold normalize. rewrite (TrimSpace_ascii s Hs).
  apply ToLower_ascii. by apply isASCII_trimRight, isASCII_trimLeft.
Qed.

(** C10.  [CreateUser] stores and returns the normalized contact, for
    every input: the record's email is the input trimmed and lowercased by
    the library's functions, which on an ASCII input is the input without
    its surrounding ASCII white space and with ['A'..'Z'] lowered; it refuses
    exactly when a stored user's normalized email equals the input's; hence,
    after a user is created, an input that differs from the first only in
    case or surrounding white space is refused with DuplicateContact. *)
Theorem create_user_normalizes id now name email db :
  let out := CreateUser id now name email db in
  (∀ u, out.2 = Ok u →
     User_Email u = ToLower (TrimSpace email) ∧ Users out.1 !! id = Some u ∧
     (isASCII email = true → User_Email u = lower_ascii (trim_ascii email))) ∧
  (out.2 = Err (ErrUserExists email) ↔
     ∃ uid u, Users db !! uid = Some u ∧
       ToLower (TrimSpace (User_Email u)) = ToLower (TrimSpace email)) ∧
  (is_Ok out.2 = false → out.2 = Err (ErrUserExists email)) ∧
  (∀ id' now' name' email',
     is_Ok out.2 = true → same_contact email email' →
     (CreateUser id' now' name' email' out.1).2 = Err (ErrUserExists email')) ∧
  kind (ErrUserExists email) = DuplicateContact.
Proof.
  intros out. subst out. unfold CreateUser.
  destruct (bool_decide (map_Exists
    (λ _ u, normalize (User_Email u) = normalize email) (Users db))) eqn:Hdup;
    simpl.
  - apply bool_decide_eq_true in Hdup. by repeat split.
  - apply bool_decide_eq_false in Hdup.
    split; [intros u [= <-]; split; [done|split; [apply lookup_insert_eq|]];
            simpl; apply normalize_ascii|].
    split; [split; [done|]; intros (uid & u & Hu & Heq); destruct Hdup;
            by exists uid, u|].
    split; [done|]. split; [|done].
    intros id' now' name' email' _ Hsame.
    rewrite bool_decide_eq_true_2; [done|].
    eexists id, _. split; [apply lookup_insert_eq|]. simpl.
    rewrite normalize_idem. by apply same_contact_normalize.
Qed.

End contact.

Section capacity.
Context {lib : Strings}.

(** C1 (counter-check on the code).  From a fresh store: a requester
    holds one seat of a 100-seat conference, another books all 100 directly
    (the direct path ignores holds), the hold is confirmed (confirmation
    does not re-check): the conference ends with -1 available tickets, 101
    tickets booked out of 100. *)
Theorem confirm_after_direct_booking_oversells :
  let db0 := NewDatabase 0 1 2 3 in
  let s1 := CreateReservation "r1" 0 1 "alice" "conf-1" 1 db0 in
  let s2 := CreateBooking "b1" 1 "bob" "conf-1" 100 s1.1 in
  let s3 := ConfirmReservation "b2" 2 "r1" s2.1 in
  is_Ok s1.2 = true ∧ is_Ok s2.2 = true ∧ is_Ok s3.2 = true ∧
  AvailableTickets <$> Conferences s3.1 !! "conf-1" = Some (-1) ∧
  TotalTickets <$> Conferences s3.1 !! "conf-1" = Some 100 ∧
  booked "conf-1" s3.1 = 101.
Proof. vm_compute. by repeat split. Qed.

(** The lower bound of [capacity_bounds] is attained.  One requester holds
    all 100 seats; at the very instant that hold expires the head of the
    queue claims 100 more (the expiring hold is kept by the purge but not
    counted by the claim); a third books the 100 seats directly; both holds
    are confirmed: -200 available tickets, 300 booked out of 100. *)
Lemma lower_bound_attained :
  let db := run (NewDatabase 0 1 2 3)
    [ CallCreateReservation "r1" 0 1 "alice" "conf-1" 100;
      CallEnqueueWait "w1" 1 "bob" "conf-1" 100;
      CallClaimNext "r2" holdDuration (holdDuration + 1) "bob" "conf-1";
      CallCreateBooking "b1" holdDuration "carol" "conf-1" 100;
      CallConfirmReservation "b2" holdDuration "r1";
      CallConfirmReservation "b3" holdDuration "r2" ] in
  AvailableTickets <$> Conferences db !! "conf-1" = Some (-200) ∧
  TotalTickets <$> Conferences db !! "conf-1" = Some 100 ∧
  booked "conf-1" db = 300.
Proof. vm_compute. by repeat split. Qed.

End capacity.

Section exclusivity.
Context {lib : Strings}.

(** C2 (counter-check on the code).  From a fresh store: a requester
    reserves a seat directly, joins the conference's wait queue and claims
    its head; [ClaimNext] does not look for an Active hold of the claimant,
    so the requester ends with two Active reservations for the conference. *)
Theorem claim_grants_second_active_hold :
  let db0 := NewDatabase 0 1 2 3 in
  let s1 := CreateReservation "r1" 0 1 "alice" "conf-1" 1 db0 in
  let s2 := EnqueueWait "w1" 1 "alice" "conf-1" 1 s1.1 in
  let s3 := ClaimNext "r2" 2 3 "alice" "conf-1" s2.1 in
  is_Ok s1.2 = true ∧ s2.2 = 1 ∧ is_Ok s3.2 = true ∧
  size (active_holds 2 "alice" "conf-1" s3.1) = 2%nat.
Proof. vm_compute. by repeat split. Qed.

End exclusivity.

Section effective_availability.
Context {lib : Strings}.
Implicit Types (db : Database) (now : Z).

(** C3 (amended).  In a store reached by calls with ticket counts of at
    least one, given a stored conference and a requester with no Active
    reservation for it, [CreateReservation] fails with InsufficientInventory
    exactly when the requested count exceeds the available tickets minus the
    tickets of the holds the purge leaves, those with [now ≤ expiresAt] (a
    hold expiring at [now] still counts); otherwise it succeeds, returning
    and storing a hold that expires at [now + holdDuration]; the conferences,
    and so their available tickets, are untouched in every case. *)
Theorem create_reservation_effective_availability id now created u c n db conf :
  valid_reachable db →
  Conferences db !! c = Some conf →
  active_holds now u c db = ∅ →
  let out := CreateReservation id now created u c n db in
  ((∃ e, out.2 = Err e ∧ kind e = InsufficientInventory) ↔
     n > AvailableTickets conf - held now c db) ∧
  (¬ n > AvailableTickets conf - held now c db →
     ∃ r, out.2 = Ok r ∧ Res_ID r = id ∧ Res_UserID r = u ∧
          Res_ConferenceID r = c ∧ Res_TicketCount r = n ∧
          ExpiresAt r = now + holdDuration ∧
          Reservations out.1 !! id = Some r) ∧
  Conferences out.1 = Conferences db.
Proof.
  intros Hb%valid_reachable_bounded Hconf Hnone out. subst out.
  rewrite (CreateReservation_checked _ _ _ _ _ _ _ conf)
    by (try done; by apply bounded_held_fits).
  cbv zeta. case_bool_decide as Hlt; simpl.
  - split; [split; [lia|eauto]|]. split; [lia|done].
  - split; [split; [intros (e & He & _); discriminate | lia]|].
    split; [|done]. intros _. eexists. split; [done|].
    repeat split; try done. apply lookup_insert_eq.
Qed.

End effective_availability.

(** * Further properties of the store *)

Section catalogue.
Context {lib : Strings}.

Lemma catalogue_lookup a1 a2 a3 d1 d2 d3 c conf :
  catalogue a1 a2 a3 d1 d2 d3 !! c = Some conf →
  (c = "conf-1" ∧ conf = with_available a1 (conf1 d1)) ∨
  (c = "conf-2" ∧ conf = with_available a2 (conf2 d2)) ∨
  (c = "conf-3" ∧ conf = with_available a3 (conf3 d3)).
Proof.
  unfold catalogue. intros Hc.
  apply lookup_insert_Some in Hc as [[<- <-]|[_ Hc]]; [by right; right|].
  apply lookup_insert_Some in Hc as [[<- <-]|[_ Hc]]; [by right; left|].
  apply lookup_insert_Some in Hc as [[<- <-]|[_ Hc]]; [by left|].
  by rewrite lookup_empty in Hc.
Qed.

Lemma catalogue_is_Some a1 a2 a3 d1 d2 d3 b1 b2 b3 e1 e2 e3 c :
  is_Some (catalogue a1 a2 a3 d1 d2 d3 !! c) →
  is_Some (catalogue b1 b2 b3 e1 e2 e3 !! c).
Proof.
  intros [conf Hc].
  apply catalogue_lookup in Hc as [[-> _]|[[-> _]|[-> _]]]; by eexists.
Qed.

(** Taking tickets of a catalogued conference changes its counter only. *)
Lemma catalogue_take a1 a2 a3 d1 d2 d3 c conf n :
  catalogue a1 a2 a3 d1 d2 d3 !! c = Some conf →
  ∃ b1 b2 b3,
    <[c := take_tickets n conf]> (catalogue a1 a2 a3 d1 d2 d3) =
      catalogue b1 b2 b3 d1 d2 d3.
Proof.
  intros Hc. apply catalogue_lookup in Hc as [[-> ->]|[[-> ->]|[-> ->]]];
    unfold catalogue.
  - exists (int_sub a1 n), a2, a3.
    rewrite (insert_insert_ne _ "conf-1" "conf-3") by done.
    rewrite (insert_insert_ne _ "conf-1" "conf-2") by done.
    by rewrite insert_insert_eq.
  - exists a1, (int_sub a2 n), a3.
    rewrite (insert_insert_ne _ "conf-2" "conf-3") by done.
    by rewrite insert_insert_eq.
  - exists a1, a2, (int_sub a3 n). by rewrite insert_insert_eq.
Qed.

End catalogue.

Section coherence.
Context {lib : Strings}.
Implicit Types (db : Database) (now : Z).

Lemma find_user_None_inv u q : find_user u q = None → u ∉ Wait_UserID <$> q.
Proof.
  induction q as [|e q IH]; simpl; [intros _; apply not_elem_of_nil|].
  case_bool_decide as He; [done|]. intros Hq.
  destruct (find_user u q); [done|]. apply not_elem_of_cons. split; [done|].
  by apply IH.
Qed.

Lemma coherent_NewDatabase now d1 d2 d3 : coherent (NewDatabase now d1 d2 d3).
Proof.
  split; simpl.
  - intros id u Hu. by rewrite lookup_empty in Hu.
  - intros id1 id2 u1 u2 Hu. by rewrite lookup_empty in Hu.
  - by exists 100, 75, 150, d1, d2, d3.
  - intros id b Hb. by rewrite lookup_empty in Hb.
  - intros id r Hr. by rewrite lookup_empty in Hr.
  - intros c q Hq. by rewrite lookup_empty in Hq.
Qed.

Lemma coherent_cleanup now db : coherent db → coherent (cleanupExpiredReservationsLocked now db).
Proof.
  intros [Hu He Hc Hb Hh Hq]. split; try done.
  intros id r Hr. apply lookup_cleanup in Hr as [Hr _]. by apply Hh.
Qed.

Lemma coherent_delete rid db : coherent db → coherent (set_Reservations (delete rid) db).
Proof.
  intros [Hu He Hc Hb Hh Hq]. split; try done.
  intros id r Hr. simpl in Hr. apply lookup_delete_Some in Hr as [_ Hr]. by apply Hh.
Qed.

Lemma coherent_insert_hold id r db :
  Res_ID r = id →
  charged (Res_ConferenceID r) (Res_TicketCount r) (Res_TotalAmount r) db →
  coherent db → coherent (set_Reservations (insert id r) db).
Proof.
  intros Hid Hconf [Hu He Hc Hb Hh Hq]. split; try done.
  intros id' r' Hr. simpl in Hr.
  apply lookup_insert_Some in Hr as [[<- <-]|[_ Hr]]; [done|]. by apply Hh.
Qed.

(** Selling tickets of a stored conference under a booking of its own
    identifier keeps the store coherent. *)
Lemma coherent_sell id b c conf db :
  Conferences db !! c = Some conf →
  Booking_ID b = id → Status b = "confirmed" → Booking_ConferenceID b = c →
  charged c (TicketsBooked b) (Booking_TotalAmount b) db →
  coherent db →
  coherent (set_Bookings (insert id b)
              (set_Conferences (insert c (take_tickets (TicketsBooked b) conf)) db)).
Proof.
  intros Hconf Hid Hst Hbc Hch [Hu He (a1 & a2 & a3 & d1 & d2 & d3 & Hc) Hb Hh Hq].
  rewrite Hc in Hconf.
  destruct (catalogue_take _ _ _ _ _ _ c conf (TicketsBooked b) Hconf)
    as (b1 & b2 & b3 & Hcat).
  assert (∀ k n amount, charged k n amount db →
            charged k n amount
              (set_Bookings (insert id b)
                 (set_Conferences (insert c (take_tickets (TicketsBooked b) conf)) db)))
    as Hkeep.
  { intros k n amount (conf' & Hk & Ham). unfold charged. simpl.
    destruct (decide (c = k)) as [<-|Hne].
    - rewrite lookup_insert_eq. eexists. split; [done|].
      rewrite Hc, Hconf in Hk. by injection Hk as <-.
    - rewrite lookup_insert_ne by done. by exists conf'. }
  split; simpl; try done.
  - exists b1, b2, b3, d1, d2, d3. by rewrite Hc.
  - intros id' b' Hb'. apply lookup_insert_Some in Hb' as [[<- <-]|[_ Hb']].
    + split; [done|]. split; [done|]. apply Hkeep. by rewrite Hbc.
    + destruct (Hb id' b' Hb') as (? & ? & ?). split; [done|]. split; [done|].
      by apply Hkeep.
  - intros id' r Hr. destruct (Hh id' r Hr) as (? & ?).
    split; [done|]. by apply Hkeep.
Qed.

Lemma coherent_CreateUser id now name email db :
  coherent db → coherent (CreateUser id now name email db).1.
Proof.
  intros Hco. unfold CreateUser. case_bool_decide as Hdup; [done|]. simpl.
  destruct Hco as [Hu He Hc Hb Hh Hq]. split; simpl; try done.
  - intros id' u Hl. apply lookup_insert_Some in Hl as [[<- <-]|[_ Hl]]; [|by apply Hu].
    split; [done|]. simpl. apply normalize_idem.
  - assert (∀ k u, Users db !! k = Some u →
                   normalize (User_Email u) ≠ normalize email) as Hnew.
    { intros k u Hk Heq. apply Hdup. by exists k, u. }
    intros id1 id2 u1 u2 H1 H2 Heq.
    apply lookup_insert_Some in H1 as [[<- <-]|[_ H1]];
      apply lookup_insert_Some in H2 as [[<- <-]|[_ H2]]; try done.
    + simpl in Heq. rewrite normalize_idem in Heq. by destruct (Hnew id2 u2 H2).
    + simpl in Heq. rewrite normalize_idem in Heq. by destruct (Hnew id1 u1 H1).
    + by apply (He id1 id2 u1 u2).
Qed.

Lemma coherent_CreateBooking id now u c n db :
  coherent db → coherent (CreateBooking id now u c n db).1.
Proof.
  intros Hco. unfold CreateBooking.
  destruct (Conferences db !! c) as [conf|] eqn:Hconf; [|done].
  case_bool_decide; [done|]. simpl.
  apply (coherent_sell id
    {| Booking_ID := id; Booking_UserID := u; Booking_ConferenceID := c;
       TicketsBooked := n; Booking_TotalAmount := _; Status := "confirmed";
       BookedAt := now |} c conf db); try done.
  by exists conf.
Qed.

Lemma coherent_CreateReservation id now created u c n db :
  coherent db → coherent (CreateReservation id now created u c n db).1.
Proof.
  intros Hco%(coherent_cleanup now). unfold CreateReservation.
  destruct (Conferences _ !! c) as [conf|] eqn:Hconf; [|done].
  case_bool_decide; [done|]. case_bool_decide; [done|]. simpl.
  apply coherent_insert_hold; try done. by exists conf.
Qed.

Lemma coherent_ConfirmReservation id now rid db :
  coherent db → coherent (ConfirmReservation id now rid db).1.
Proof.
  intros Hco. unfold ConfirmReservation.
  destruct (Reservations db !! rid) as [r|] eqn:Hr; [|done].
  destruct (After now (ExpiresAt r)); [by apply coherent_delete|].
  destruct (Conferences db !! Res_ConferenceID r) as [conf|] eqn:Hconf; [|done].
  simpl. apply coherent_delete.
  apply (coherent_sell id
    {| Booking_ID := id; Booking_UserID := Res_UserID r;
       Booking_ConferenceID := Res_ConferenceID r;
       TicketsBooked := Res_TicketCount r;
       Booking_TotalAmount := Res_TotalAmount r; Status := "confirmed";
       BookedAt := now |} (Res_ConferenceID r) conf db); try done.
  by destruct (coherent_holds _ Hco rid r Hr) as (_ & Hch).
Qed.

Lemma coherent_queue c db :
  coherent db →
  NoDup (Wait_UserID <$> queue_of c db) ∧
  Forall (λ e, Wait_ConferenceID e = c) (queue_of c db).
Proof.
  intros Hco. unfold queue_of.
  destruct (WaitQueues db !! c) as [q|] eqn:Hq; simpl.
  - by apply (coherent_queues _ Hco).
  - split; constructor.
Qed.

Lemma coherent_set_queue c q db :
  NoDup (Wait_UserID <$> q) → Forall (λ e, Wait_ConferenceID e = c) q →
  coherent db → coherent (set_WaitQueues (insert c q) db).
Proof.
  intros Hnd Hall [Hu He Hc Hb Hh Hq]. split; simpl; try done.
  intros c' q' Hq'. apply lookup_insert_Some in Hq' as [[<- <-]|[_ Hq']]; [done|].
  by apply Hq.
Qed.

Lemma coherent_EnqueueWait id now u c n db :
  coherent db → coherent (EnqueueWait id now u c n db).1.
Proof.
  intros Hco. destruct (coherent_queue c db Hco) as [Hnd Hall].
  unfold EnqueueWait. destruct (find_user u (queue_of c db)) as [i|] eqn:Hf; simpl.
  - apply coherent_set_queue; [| |done].
    + rewrite (list_fmap_alter Wait_UserID _ (λ x, x)) by (by apply Forall_forall).
      by rewrite list_alter_id.
    + by apply Forall_alter.
  - apply coherent_set_queue; [| |done].
    + rewrite fmap_app. simpl. apply NoDup_app. split; [done|]. split.
      * intros x Hx Hin. apply list_elem_of_singleton in Hin as ->.
        by apply (find_user_None_inv u (queue_of c db)).
      * apply NoDup_singleton.
    + apply Forall_app. split; [done|]. by repeat constructor.
Qed.

Lemma coherent_ClaimNext id now created u c db :
  coherent db → coherent (ClaimNext id now created u c db).1.
Proof.
  intros Hco%(coherent_cleanup now).
  destruct (coherent_queue c _ Hco) as [Hnd Hall].
  unfold ClaimNext. destruct (queue_of c _) as [|hd rest]; [done|].
  case_bool_decide; [done|].
  destruct (Conferences _ !! c) as [conf|] eqn:Hconf; [|done].
  case_bool_decide; [done|]. simpl.
  simpl in Hnd. apply NoDup_cons in Hnd as [_ Hnd].
  apply Forall_cons in Hall as [_ Hall].
  apply (coherent_set_queue c rest); [done|done|].
  apply coherent_insert_hold; try done. by exists conf.
Qed.

Lemma coherent_exec c db : coherent db → coherent (exec c db).1.
Proof.
  intros Hco. destruct c; simpl.
  - by apply coherent_CreateUser.
  - by apply coherent_CreateBooking.
  - by apply coherent_CreateReservation.
  - by apply coherent_ConfirmReservation.
  - unfold CancelReservation. destruct (Reservations db !! reservationID); [|done].
    by apply coherent_delete.
  - unfold GetReservation.
    destruct (Reservations _ !! reservationID); by apply coherent_cleanup.
  - by apply coherent_cleanup.
  - by apply coherent_EnqueueWait.
  - by apply coherent_ClaimNext.
  - apply coherent_NewDatabase.
Qed.

Lemma coherent_run cs db : coherent db → coherent (run db cs).
Proof.
  revert db. induction cs as [|c cs IH]; intros db Hco; [done|].
  simpl. by apply IH, coherent_exec.
Qed.

Lemma reachable_coherent db : reachable db → coherent db.
Proof.
  intros (now & d1 & d2 & d3 & cs & ->). apply coherent_run, coherent_NewDatabase.
Qed.

End coherence.

Section users.
Context {lib : Strings}.
Implicit Types (db : Database) (now : Z).

Lemma find_by_email_Some email order db u :
  coherent db → order ≡ₚ map_to_list (Users db) →
  find_by_email email order = Some u ↔
  ∃ id, Users db !! id = Some u ∧ normalize (User_Email u) = normalize email.
Proof.
  intros Hco Hperm. unfold find_by_email. rewrite fmap_Some. split.
  - intros ([i [id u']] & Hfind & ->).
    apply list_find_Some in Hfind as (Hi & HP & _).
    apply list_elem_of_lookup_2 in Hi. rewrite Hperm in Hi.
    apply elem_of_map_to_list in Hi. by exists id.
  - intros (id & Hu & Heq).
    destruct (list_find_elem_of
      (λ kv : string * User, normalize (User_Email kv.2) = normalize email)
      order (id, u)) as [[i [id' u']] Hfind]; [|done|].
    { rewrite Hperm. by apply elem_of_map_to_list. }
    exists (i, (id', u')). split; [done|]. simpl.
    apply list_find_Some in Hfind as (Hi & HP & _).
    apply list_elem_of_lookup_2 in Hi. rewrite Hperm in Hi.
    apply elem_of_map_to_list in Hi. simpl in HP.
    assert (id = id') as <-
      by (apply (coherent_emails _ Hco id id' u u'); congruence).
    congruence.
Qed.

(** X1.  In every store reached from a fresh one, each user is stored
    under its own identifier with an email already in normal form
    (lower-case, no surrounding white space), and no two stored users have
    emails that agree up to letter case and surrounding white space. *)
Theorem users_unique_by_email db :
  reachable db →
  ∀ id1 id2 u1 u2,
    Users db !! id1 = Some u1 → Users db !! id2 = Some u2 →
    User_ID u1 = id1 ∧
    ToLower (TrimSpace (User_Email u1)) = User_Email u1 ∧
    (User_Email u1 = User_Email u2 ∨ same_contact (User_Email u1) (User_Email u2) →
     id1 = id2 ∧ u1 = u2).
Proof.
  intros Hco%reachable_coherent id1 id2 u1 u2 H1 H2.
  destruct (coherent_users _ Hco id1 u1 H1) as [Hid Hnorm].
  split; [done|]. split; [done|]. intros Hsame.
  assert (id1 = id2) as <-; [|split; congruence].
  apply (coherent_emails _ Hco id1 id2 u1 u2); try done.
  destruct Hsame as [->|Hsame]; [done|]. by apply same_contact_normalize.
Qed.

(** X2.  In every store reached from a fresh one, [GetUserByEmail] returns
    the one stored user whose email agrees with the input up to letter case
    and surrounding white space, whatever the order in which the loop visits
    the map; it finds nobody exactly when [CreateUser] accepts the email;
    and after a successful [CreateUser] it returns the created user for
    every spelling of the email. *)
Theorem GetUserByEmail_finds db email :
  reachable db →
  (∀ u, GetUserByEmail email db = Some u ↔
        ∃ id, Users db !! id = Some u ∧
              ToLower (TrimSpace (User_Email u)) = ToLower (TrimSpace email)) ∧
  (∀ order, order ≡ₚ map_to_list (Users db) →
        find_by_email email order = GetUserByEmail email db) ∧
  (GetUserByEmail email db = None ↔
        ∀ id now name, is_Ok (CreateUser id now name email db).2 = true) ∧
  (∀ id now name email' db' u,
        CreateUser id now name email db = (db', Ok u) → same_contact email email' →
        GetUserByEmail email' db' = Some u).
Proof.
  intros Hco%reachable_coherent.
  assert (∀ order u, order ≡ₚ map_to_list (Users db) →
            find_by_email email order = Some u ↔
            ∃ id, Users db !! id = Some u ∧
                  normalize (User_Email u) = normalize email) as Hfind
    by (intros; by apply find_by_email_Some).
  split; [intros u; by apply Hfind|]. split; [|split].
  - intros order Hperm. apply option_eq. intros u.
    unfold GetUserByEmail. by rewrite !Hfind.
  - unfold GetUserByEmail, find_by_email, CreateUser.
    rewrite fmap_None, list_find_None, Forall_forall. split.
    + intros Hnone id now name. rewrite bool_decide_eq_false_2; [done|].
      intros (k & u & Hk & Heq). apply (Hnone (k, u)); [|done].
      by apply elem_of_map_to_list.
    + intros Hok [k u] Hin%elem_of_map_to_list Heq. specialize (Hok "" 0 "").
      rewrite bool_decide_eq_true_2 in Hok; [done|]. by exists k, u.
  - intros id now name email' db' u Hcreate Hsame.
    pose proof (coherent_CreateUser id now name email db Hco) as Hco'.
    unfold CreateUser in *. case_bool_decide; [done|].
    injection Hcreate as <- <-. simpl in Hco'.
    unfold GetUserByEmail.
    apply (find_by_email_Some email' _ _ _ Hco'); [done|].
    exists id. split; [apply lookup_insert_eq|]. simpl.
    rewrite normalize_idem. by apply same_contact_normalize.
Qed.

End users.

Section conferences.
Context {lib : Strings}.
Implicit Types (db : Database) (now : Z).

Lemma compare_trans_not_Gt s1 s2 s3 :
  String.compare s1 s2 ≠ Gt → String.compare s2 s3 ≠ Gt → String.compare s1 s3 ≠ Gt.
Proof.
  revert s2 s3. induction s1 as [|a s1 IH]; intros [|b s2] [|c s3]; simpl; try done.
  unfold Ascii.compare.
  destruct (N.compare_spec (N_of_ascii a) (N_of_ascii b)) as [Hab|Hab|Hab];
    destruct (N.compare_spec (N_of_ascii b) (N_of_ascii c)) as [Hbc|Hbc|Hbc];
    destruct (N.compare_spec (N_of_ascii a) (N_of_ascii c)) as [Hac|Hac|Hac];
    try done; try lia; eauto.
Qed.

#[global] Instance id_le_trans : Transitive id_le.
Proof.
  intros c1 c2 c3. unfold id_le, String.leb. intros H12 H23.
  pose proof (compare_trans_not_Gt (Conf_ID c1) (Conf_ID c2) (Conf_ID c3)) as Ht.
  destruct (String.compare (Conf_ID c1) (Conf_ID c2));
    destruct (String.compare (Conf_ID c2) (Conf_ID c3));
    destruct (String.compare (Conf_ID c1) (Conf_ID c3)); try done;
    by destruct Ht.
Qed.

#[global] Instance id_le_total : Total id_le.
Proof. intros c1 c2. apply String.leb_total. Qed.

Lemma GetAllConferences_catalogue db a1 a2 a3 d1 d2 d3 :
  Conferences db = catalogue a1 a2 a3 d1 d2 d3 →
  GetAllConferences db =
    [with_available a1 (conf1 d1); with_available a2 (conf2 d2);
     with_available a3 (conf3 d3)].
Proof. unfold GetAllConferences. intros ->. vm_compute. reflexivity. Qed.

(** X3.  In every store reached from a fresh one the conferences are the
    three samples of [addSampleData] under their own identifiers, changed
    in nothing but their available-ticket counters; [GetAllConferences]
    lists them as conf-1, conf-2, conf-3, and [GetConference] fails exactly
    for the other identifiers. *)
Theorem conferences_fixed db :
  reachable db →
  ∃ a1 a2 a3 d1 d2 d3,
    Conferences db = catalogue a1 a2 a3 d1 d2 d3 ∧
    GetAllConferences db =
      [with_available a1 (conf1 d1); with_available a2 (conf2 d2);
       with_available a3 (conf3 d3)] ∧
    ∀ c, GetConference c db = Err ErrConferenceNotFound ↔
         c ≠ "conf-1" ∧ c ≠ "conf-2" ∧ c ≠ "conf-3".
Proof.
  intros Hco%reachable_coherent.
  destruct (coherent_conferences _ Hco) as (a1 & a2 & a3 & d1 & d2 & d3 & Hc).
  exists a1, a2, a3, d1, d2, d3. split; [done|].
  split; [by apply GetAllConferences_catalogue|].
  intros c. unfold GetConference. rewrite Hc. split.
  - destruct (catalogue a1 a2 a3 d1 d2 d3 !! c) eqn:Hl; [done|]. intros _.
    repeat split; intros ->; by vm_compute in Hl.
  - intros (H1 & H2 & H3). unfold catalogue.
    by rewrite !lookup_insert_ne, lookup_empty.
Qed.

(** X4.  [GetAllConferences] returns the stored conferences, each once,
    in non-decreasing order of identifier; when every conference is stored
    under its own identifier, as in every store reached from a fresh one,
    this is the only such list, so the result depends neither on the order
    in which the loop visits the map nor on the sorting algorithm. *)
Theorem GetAllConferences_sorted db :
  (∀ k conf, Conferences db !! k = Some conf → Conf_ID conf = k) →
  GetAllConferences db ≡ₚ (map_to_list (Conferences db)).*2 ∧
  Sorted id_le (GetAllConferences db) ∧
  ∀ l, l ≡ₚ (map_to_list (Conferences db)).*2 → Sorted id_le l →
       l = GetAllConferences db.
Proof.
  intros Hkeys. unfold GetAllConferences.
  split; [apply merge_sort_Permutation|].
  split; [apply (Sorted_merge_sort _)|].
  intros l Hperm Hsorted.
  apply (Sorted_unique_strong id_le); try done.
  - intros x1 x2 Hx1 Hx2 H12 H21.
    rewrite Hperm in Hx1. rewrite merge_sort_Permutation in Hx2.
    apply list_elem_of_fmap in Hx1 as ([k1 c1] & -> & Hx1).
    apply list_elem_of_fmap in Hx2 as ([k2 c2] & -> & Hx2).
    apply elem_of_map_to_list in Hx1, Hx2. simpl in *.
    pose proof (String.leb_antisym _ _ H12 H21) as Heq.
    rewrite (Hkeys k1 c1 Hx1), (Hkeys k2 c2 Hx2) in Heq. congruence.
  - apply (Sorted_merge_sort _).
  - by rewrite merge_sort_Permutation.
Qed.

End conferences.

Section bookings.
Context {lib : Strings}.
Implicit Types (db : Database) (now : Z).

(** X5.  In every store reached from a fresh one, each booking is stored
    under its own identifier, has status "confirmed", names a stored
    conference, and its amount is that conference's price times its ticket
    count, whether it was booked directly or through a hold. *)
Theorem bookings_well_formed db :
  reachable db →
  ∀ id b, GetBooking id db = Some b →
    Booking_ID b = id ∧ Status b = "confirmed" ∧
    ∃ conf, Conferences db !! Booking_ConferenceID b = Some conf ∧
            Booking_TotalAmount b =
              PrimFloat.mul (Price conf) (float64_of_int (TicketsBooked b)).
Proof.
  intros Hco%reachable_coherent id b Hb. by apply (coherent_bookings _ Hco).
Qed.

Lemma bookings_kept c db :
  keeps_data c →
  (∀ id, booking_id_drawn c = Some id → Bookings db !! id = None) →
  Bookings db ⊆ Bookings (exec c db).1.
Proof.
  intros Hkeep Hfresh. destruct c; simpl in *; try done.
  - unfold CreateUser. by case_bool_decide.
  - unfold CreateBooking. destruct (Conferences db !! conferenceID); [|done].
    case_bool_decide; [done|]. simpl. apply insert_subseteq. by apply Hfresh.
  - unfold CreateReservation. simpl.
    destruct (Conferences db !! conferenceID); [|done].
    repeat (case_bool_decide; [done|]). done.
  - unfold ConfirmReservation. destruct (Reservations db !! reservationID); [|done].
    destruct (After now (ExpiresAt s)); [done|].
    destruct (Conferences db !! Res_ConferenceID s); [|done].
    simpl. apply insert_subseteq. by apply Hfresh.
  - unfold CancelReservation. by destruct (Reservations db !! reservationID).
  - unfold GetReservation. simpl. by destruct (_ !! reservationID).
  - unfold EnqueueWait. by destruct (find_user userID (queue_of conferenceID db)).
  - unfold ClaimNext. simpl. destruct (queue_of conferenceID _); [done|].
    case_bool_decide; [done|]. destruct (Conferences db !! conferenceID); [|done].
    by case_bool_decide.
Qed.

(** X6.  Bookings are never changed or removed: whatever calls follow,
    other than a reset, and as long as no call draws the identifier of a
    stored booking, [GetBooking] keeps returning every booking once
    made, unchanged (there is no cancellation of bookings, and cancelling
    or expiring holds does not touch them). *)
Theorem bookings_persist db cs :
  Forall keeps_data cs → bookings_fresh db cs →
  ∀ id b, GetBooking id db = Some b → GetBooking id (run db cs) = Some b.
Proof.
  revert db. induction cs as [|c cs IH]; intros db Hkeep Hfresh id b Hb; [done|].
  apply Forall_cons in Hkeep as [Hc Hcs]. destruct Hfresh as [Hf Hfs].
  change (run db (c :: cs)) with (run (exec c db).1 cs).
  apply IH; try done. unfold GetBooking in *.
  by apply (lookup_weaken _ _ _ _ Hb), bookings_kept.
Qed.

(** X7.  A new booking, made directly or by confirming a hold, shows up in
    the list [GetUserBookings] returns for its requester (the hold's
    requester when confirming) and changes nobody else's list, the
    identifier drawn being fresh. *)
Theorem booking_listed_for_requester id now db :
  Bookings db !! id = None →
  (∀ u c n db' b,
     CreateBooking id now u c n db = (db', Ok b) →
     GetUserBookings u db' = <[id := b]> (GetUserBookings u db) ∧
     ∀ v, v ≠ u → GetUserBookings v db' = GetUserBookings v db) ∧
  (∀ rid r db' b,
     Reservations db !! rid = Some r →
     ConfirmReservation id now rid db = (db', Ok b) →
     GetUserBookings (Res_UserID r) db' = <[id := b]> (GetUserBookings (Res_UserID r) db) ∧
     ∀ v, v ≠ Res_UserID r → GetUserBookings v db' = GetUserBookings v db).
Proof.
  intros Hfresh.
  assert (∀ u b, Booking_UserID b = u →
    filter (λ kb, Booking_UserID kb.2 = u) (<[id := b]> (Bookings db)) =
      <[id := b]> (filter (λ kb, Booking_UserID kb.2 = u) (Bookings db)) ∧
    ∀ v, v ≠ u →
      filter (λ kb, Booking_UserID kb.2 = v) (<[id := b]> (Bookings db)) =
        filter (λ kb, Booking_UserID kb.2 = v) (Bookings db)) as Hins.
  { intros u b Hu. split.
    - by apply map_filter_insert_True.
    - intros v Hv. rewrite map_filter_insert_False by (simpl; congruence).
      by rewrite delete_id. }
  split.
  - intros u c n db' b. unfold CreateBooking.
    destruct (Conferences db !! c); [|done]. case_bool_decide; [done|].
    intros [= <- <-]. by apply Hins.
  - intros rid r db' b Hr. unfold ConfirmReservation. rewrite Hr.
    destruct (After now (ExpiresAt r)); [done|].
    destruct (Conferences db !! Res_ConferenceID r); [|done].
    intros [= <- <-]. by apply Hins.
Qed.

(** X8.  In every store reached from a fresh one, [GetAllBookings] has one
    row per stored booking; the row's conference is never the nil pointer,
    and its user is whatever the user table holds under the booking's
    requester: the nil pointer exactly when the requester is not
    registered. *)
Theorem GetAllBookings_rows db :
  reachable db →
  ∀ id,
    match GetAllBookings db !! id with
    | Some (b, user, conference) =>
        GetBooking id db = Some b ∧ is_Some conference ∧
        conference = Conferences db !! Booking_ConferenceID b ∧
        (user = None ↔ GetUser (Booking_UserID b) db = Err ErrUserNotFound)
    | None => GetBooking id db = None
    end.
Proof.
  intros Hco%reachable_coherent id. unfold GetAllBookings, GetBooking, GetUser.
  rewrite lookup_fmap. destruct (Bookings db !! id) as [b|] eqn:Hb; simpl; [|done].
  destruct (coherent_bookings _ Hco id b Hb) as (_ & _ & conf & Hconf & _).
  split; [done|]. split; [by rewrite Hconf|]. split; [done|].
  by destruct (Users db !! Booking_UserID b).
Qed.

End bookings.

Section holds.
Context {lib : Strings}.
Implicit Types (db : Database) (now : Z).

Lemma with_available_same conf : with_available (AvailableTickets conf) conf = conf.
Proof. by destruct conf. Qed.

(** X9.  Tickets never come back.  In a store reached by calls the handlers
    let through, no call other than a reset raises a conference's counter or
    changes anything else of a conference; and the counter drops only in a
    successful [CreateBooking] or [ConfirmReservation]: cancelling a hold or
    letting it expire returns nothing, as a hold takes nothing. *)
Theorem tickets_never_return c db :
  valid_reachable db → valid_call c → keeps_data c →
  ∀ k conf, Conferences db !! k = Some conf →
    ∃ conf', Conferences (exec c db).1 !! k = Some conf' ∧
      conf' = with_available (AvailableTickets conf') conf ∧
      AvailableTickets conf' <= AvailableTickets conf ∧
      (AvailableTickets conf' < AvailableTickets conf →
       (exec c db).2 = Success ∧ is_Some (booking_id_drawn c)).
Proof.
  intros Hb%valid_reachable_bounded Hvalid Hkeep k conf Hk.
  assert (∃ conf', Conferences db !! k = Some conf' ∧
      conf' = with_available (AvailableTickets conf') conf ∧
      AvailableTickets conf' <= AvailableTickets conf ∧
      ¬ AvailableTickets conf' < AvailableTickets conf) as Hsame.
  { exists conf. rewrite with_available_same. repeat split; try done; lia. }
  assert (∀ k0 conf0 n, Conferences db !! k0 = Some conf0 → 0 <= n →
            fits_int (AvailableTickets conf0 - n) →
            ∃ conf', <[k0 := take_tickets n conf0]> (Conferences db) !! k = Some conf' ∧
              conf' = with_available (AvailableTickets conf') conf ∧
              AvailableTickets conf' <= AvailableTickets conf) as Htake.
  { intros k0 conf0 n Hk0 Hn Hfits. destruct (decide (k0 = k)) as [->|Hne].
    - rewrite lookup_insert_eq. eexists. split; [done|].
      rewrite Hk in Hk0. injection Hk0 as <-. simpl.
      split; [done|]. rewrite int_sub_exact by done. lia.
    - rewrite lookup_insert_ne by done. exists conf.
      rewrite with_available_same. repeat split; try done; lia. }
  destruct c; simpl in *; try done.
  - unfold CreateUser. case_bool_decide; simpl;
      destruct Hsame as (conf' & ? & ? & ? & Hlt); exists conf'; naive_solver.
  - unfold CreateBooking. destruct (Conferences db !! conferenceID) as [conf0|] eqn:Hc;
      [|destruct Hsame as (conf' & ? & ? & ? & Hlt); exists conf'; naive_solver].
    case_bool_decide as Hlt;
      [destruct Hsame as (conf' & ? & ? & ? & ?); exists conf'; naive_solver|].
    simpl.
    destruct (Htake conferenceID conf0 ticketCount Hc ltac:(lia)
                ltac:(by apply (CreateBooking_fits conferenceID conf0 _ db); try lia))
      as (conf' & ? & ? & ?).
    exists conf'. repeat split; done.
  - unfold CreateReservation. simpl.
    destruct (Conferences db !! conferenceID);
      [|destruct Hsame as (conf' & ? & ? & ? & Hlt); exists conf'; naive_solver].
    repeat (case_bool_decide;
      [destruct Hsame as (conf' & ? & ? & ? & ?); exists conf'; naive_solver|]).
    destruct Hsame as (conf' & ? & ? & ? & ?); exists conf'; naive_solver.
  - unfold ConfirmReservation.
    destruct (Reservations db !! reservationID) as [r|] eqn:Hr;
      [|destruct Hsame as (conf' & ? & ? & ? & Hlt); exists conf'; naive_solver].
    destruct (After now (ExpiresAt r));
      [destruct Hsame as (conf' & ? & ? & ? & ?); exists conf'; naive_solver|].
    destruct (Conferences db !! Res_ConferenceID r) as [conf0|] eqn:Hc;
      [|destruct Hsame as (conf' & ? & ? & ? & Hlt); exists conf'; naive_solver].
    simpl.
    destruct (Htake (Res_ConferenceID r) conf0 (Res_TicketCount r) Hc
                ltac:(by apply (bounded_holds _ Hb reservationID))
                ltac:(by apply (ConfirmReservation_fits reservationID r conf0 db)))
      as (conf' & ? & ? & ?).
    exists conf'. repeat split; done.
  - unfold CancelReservation. destruct (Reservations db !! reservationID); simpl;
      destruct Hsame as (conf' & ? & ? & ? & Hlt); exists conf'; naive_solver.
  - unfold GetReservation. simpl. destruct (_ !! reservationID); simpl;
      destruct Hsame as (conf' & ? & ? & ? & Hlt); exists conf'; naive_solver.
  - destruct Hsame as (conf' & ? & ? & ? & Hlt); exists conf'; naive_solver.
  - unfold EnqueueWait. destruct (find_user userID (queue_of conferenceID db)); simpl;
      destruct Hsame as (conf' & ? & ? & ? & Hlt); exists conf'; naive_solver.
  - unfold ClaimNext. simpl. destruct (queue_of conferenceID _); simpl;
      [destruct Hsame as (conf' & ? & ? & ? & Hlt); exists conf'; naive_solver|].
    case_bool_decide; simpl;
      [destruct Hsame as (conf' & ? & ? & ? & Hlt); exists conf'; naive_solver|].
    destruct (Conferences db !! conferenceID); simpl;
      [|destruct Hsame as (conf' & ? & ? & ? & Hlt); exists conf'; naive_solver].
    case_bool_decide; simpl;
      destruct Hsame as (conf' & ? & ? & ? & Hlt); exists conf'; naive_solver.
Qed.

Lemma punctual_cleanup now db :
  punctual db → punctual (cleanupExpiredReservationsLocked now db).
Proof. intros Hp id r [Hr _]%lookup_cleanup. by apply (Hp id). Qed.

Lemma punctual_delete rid db : punctual db → punctual (set_Reservations (delete rid) db).
Proof.
  intros Hp id r Hr. simpl in Hr. apply lookup_delete_Some in Hr as [_ Hr].
  by apply (Hp id).
Qed.

Lemma punctual_insert id r db :
  ExpiresAt r <= CreatedAt r + holdDuration →
  punctual db → punctual (set_Reservations (insert id r) db).
Proof.
  intros Hr Hp id' r' Hr'. simpl in Hr'.
  apply lookup_insert_Some in Hr' as [[_ <-]|[_ Hr']]; [done|]. by apply (Hp id').
Qed.

Lemma punctual_exec c db : clock_ordered c → punctual db → punctual (exec c db).1.
Proof.
  intros Hclock Hp. destruct c; simpl in *.
  - unfold CreateUser. by case_bool_decide.
  - unfold CreateBooking. destruct (Conferences db !! conferenceID); [|done].
    by case_bool_decide.
  - apply (punctual_cleanup now) in Hp. unfold CreateReservation. cbv zeta.
    destruct (Conferences _ !! conferenceID); [|done].
    repeat (case_bool_decide; [done|]). cbn [fst].
    apply punctual_insert; [simpl; lia|done].
  - unfold ConfirmReservation.
    destruct (Reservations db !! reservationID) as [r|]; [|done].
    destruct (After now (ExpiresAt r)); [by apply punctual_delete|].
    destruct (Conferences db !! Res_ConferenceID r); [|done].
    cbn [fst]. by apply punctual_delete.
  - unfold CancelReservation. destruct (Reservations db !! reservationID); [|done].
    by apply punctual_delete.
  - unfold GetReservation. cbv zeta.
    destruct (_ !! reservationID); by apply punctual_cleanup.
  - by apply punctual_cleanup.
  - unfold EnqueueWait. by destruct (find_user userID (queue_of conferenceID db)).
  - apply (punctual_cleanup now) in Hp. unfold ClaimNext. cbv zeta.
    destruct (queue_of conferenceID _) as [|hd rest]; [done|].
    case_bool_decide; [done|]. destruct (Conferences _ !! conferenceID); [|done].
    case_bool_decide; [done|]. cbn [fst].
    intros id' r' Hr'. simpl in Hr'.
    apply lookup_insert_Some in Hr' as [[_ <-]|[_ Hr']]; [simpl; lia|].
    by apply (Hp id').
  - intros id r Hr. simpl in Hr. by rewrite lookup_empty in Hr.
Qed.

(** X10.  In every store reached from a fresh one, each hold is stored
    under its own identifier, names a stored conference, and its amount is
    that conference's price times its ticket count, whether it was reserved
    directly or claimed from the queue.  [CreatedAt] is a later clock
    reading than the one [ExpiresAt] is computed from: when the clock does
    not run backwards inside a call, a hold expires at most 15 seconds after
    its [CreatedAt], and not necessarily exactly 15 seconds after it. *)
Theorem holds_well_formed db :
  reachable db →
  ∀ id r, Reservations db !! id = Some r →
    Res_ID r = id ∧
    (∃ conf, Conferences db !! Res_ConferenceID r = Some conf ∧
             Res_TotalAmount r =
               PrimFloat.mul (Price conf) (float64_of_int (Res_TicketCount r))) ∧
    ((∃ now d1 d2 d3 cs,
        Forall clock_ordered cs ∧ db = run (NewDatabase now d1 d2 d3) cs) →
     ExpiresAt r <= CreatedAt r + 15 * Second).
Proof.
  intros Hco%reachable_coherent id r Hr.
  destruct (coherent_holds _ Hco id r Hr) as [Hid Hch]. split; [done|].
  split; [done|]. intros (now & d1 & d2 & d3 & cs & Hclock & ->).
  clear Hid Hch Hco. revert id r Hr.
  change (punctual (run (NewDatabase now d1 d2 d3) cs)).
  assert (punctual (NewDatabase now d1 d2 d3)) as Hfresh
    by (intros id r Hr; simpl in Hr; by rewrite lookup_empty in Hr).
  revert Hfresh. generalize (NewDatabase now d1 d2 d3) as db.
  induction cs as [|c cs IH]; intros db Hdb; [done|].
  apply Forall_cons in Hclock as [Hc Hcs].
  simpl. apply IH; [done|]. by apply punctual_exec.
Qed.

Lemma CreateReservation_Ok_inv id now created u c n db db1 r :
  CreateReservation id now created u c n db = (db1, Ok r) →
  ∃ conf, Conferences db !! c = Some conf ∧
    ¬ map_Exists (λ _ r, Res_UserID r = u ∧ Res_ConferenceID r = c ∧
                         Before now (ExpiresAt r) = true)
        (Reservations (cleanupExpiredReservationsLocked now db)) ∧
    r = new_reservation id now created u c n conf ∧
    db1 = set_Reservations (insert id r) (cleanupExpiredReservationsLocked now db).
Proof.
  unfold CreateReservation. simpl.
  destruct (Conferences db !! c) as [conf|]; [|done].
  case_bool_decide as Hdup; [done|]. case_bool_decide; [done|].
  intros [= <- <-]. by exists conf.
Qed.

(** X11.  The duplicate window.  After a successful [CreateReservation],
    a second one by the same requester for the same conference at a later
    instant is refused as a duplicate exactly while the first hold's 15
    seconds have not elapsed, whatever the ticket counts; from the expiry
    instant on the requester is never refused as a duplicate. *)
Theorem duplicate_window id1 id2 t0 created0 t1 created1 u c n1 n2 db db1 r :
  CreateReservation id1 t0 created0 u c n1 db = (db1, Ok r) →
  t0 <= t1 →
  (CreateReservation id2 t1 created1 u c n2 db1).2 = Err ErrAlreadyReserved ↔
  t1 < t0 + holdDuration.
Proof.
  intros (conf & Hconf & Hdup & -> & ->)%CreateReservation_Ok_inv Ht.
  set (r := new_reservation id1 t0 created0 u c n1 conf).
  set (db0 := cleanupExpiredReservationsLocked t0 db).
  split.
  - intros Herr. destruct (decide (t1 < t0 + holdDuration)) as [|Hge]; [done|].
    exfalso. revert Herr. unfold CreateReservation.
    change (Conferences (cleanupExpiredReservationsLocked t1
      (set_Reservations (insert id1 r) db0)) !! c) with (Conferences db !! c).
    rewrite Hconf. rewrite no_active_hold_check; [by case_bool_decide|].
    apply map_empty_filter_2. intros rid r' Hr' (Hu & Hc & Hact).
    unfold Active in Hact. simpl in Hr', Hu, Hc, Hact.
    apply lookup_insert_Some in Hr' as [[_ <-]|[_ Hr']]; [simpl in Hact; lia|].
    apply Hdup. exists rid, r'. repeat split; try done.
    apply Before_spec. lia.
  - intros Hlt.
    rewrite (CreateReservation_duplicate id2 t1 created1 u c n2 _ conf id1 r); try done.
    simpl. apply lookup_insert_eq.
Qed.

(** X12.  Reserve, then cancel: cancelling a hold just created (its
    identifier being fresh) succeeds and leaves the store as the
    reservation's purge left it, with nothing else changed; the conference's
    counter was never touched. *)
Theorem reserve_then_cancel id now created u c n db db1 r :
  CreateReservation id now created u c n db = (db1, Ok r) →
  Reservations db !! id = None →
  CancelReservation id db1 = (cleanupExpiredReservationsLocked now db, Ok tt) ∧
  Conferences db1 = Conferences db.
Proof.
  intros (conf & Hconf & Hdup & -> & ->)%CreateReservation_Ok_inv Hfresh.
  split; [|done]. unfold CancelReservation. simpl. rewrite lookup_insert_eq.
  f_equal. unfold cleanupExpiredReservationsLocked, set_Reservations. simpl.
  f_equal. apply delete_insert_id. apply map_lookup_filter_None. by left.
Qed.

(** X13.  Purging composes: a purge at one instant followed by a purge at
    another leaves what a single purge at the later of the two instants
    leaves; in particular a purge is idempotent and purges commute. *)
Theorem cleanup_composes t1 t2 db :
  cleanupExpiredReservationsLocked t2 (cleanupExpiredReservationsLocked t1 db) =
    cleanupExpiredReservationsLocked (Z.max t1 t2) db.
Proof.
  unfold cleanupExpiredReservationsLocked, set_Reservations. simpl. f_equal.
  rewrite map_filter_filter. apply map_filter_ext. intros rid r _. simpl.
  rewrite !After_false. lia.
Qed.

(** X14.  The reads agree with each other and with confirmation, in every
    store reached from a fresh one.  [GetReservation] at [now] returns a hold
    exactly when it is stored and [now] is not after its expiry (the expiry
    instant included); a hold it returns can be confirmed at that instant; a
    hold it reports missing is missing for every later confirmation;
    and [GetUserReservations] lists exactly the holds of the user that
    [GetReservation] returns. *)
Theorem reads_agree now rid db :
  reachable db →
  let out := GetReservation now rid db in
  (∀ r, out.2 = Ok r ↔ Reservations db !! rid = Some r ∧ now <= ExpiresAt r) ∧
  (∀ r id, out.2 = Ok r →
     ∃ b, (ConfirmReservation id now rid out.1).2 = Ok b ∧
          Booking_UserID b = Res_UserID r ∧
          Booking_ConferenceID b = Res_ConferenceID r ∧
          TicketsBooked b = Res_TicketCount r) ∧
  (∀ id now', is_Ok out.2 = false →
     (ConfirmReservation id now' rid out.1).2 = Err ErrReservationNotFound) ∧
  (∀ u r, (GetUserReservations now u db).2 !! rid = Some r ↔
          out.2 = Ok r ∧ Res_UserID r = u).
Proof.
  intros Hwf%reachable_wf out. subst out. unfold GetReservation.
  assert (∀ r, (let db := cleanupExpiredReservationsLocked now db in
                match Reservations db !! rid with
                | Some reservation => (db, Ok reservation)
                | None => (db, Err ErrReservationNotFound)
                end).2 = Ok r ↔
               Reservations db !! rid = Some r ∧ now <= ExpiresAt r) as Hget.
  { intros r. rewrite <- lookup_cleanup. cbv zeta.
    destruct (Reservations (cleanupExpiredReservationsLocked now db) !! rid);
      cbn [snd]; split; congruence. }
  split; [done|]. split; [|split].
  - intros r id Hr. destruct (proj1 (Hget r) Hr) as [Hst Hle].
    pose proof (proj2 (lookup_cleanup now db rid r) (conj Hst Hle)) as Hl.
    cbv zeta. rewrite Hl. cbn [fst]. unfold ConfirmReservation. rewrite Hl.
    rewrite (proj2 (After_false now (ExpiresAt r))) by done.
    destruct (Hwf rid r Hst) as [conf Hconf].
    change (Conferences (cleanupExpiredReservationsLocked now db))
      with (Conferences db).
    rewrite Hconf. by eexists.
  - intros id now'. cbv zeta.
    destruct (Reservations (cleanupExpiredReservationsLocked now db) !! rid) eqn:Hr;
      [done|]. intros _. cbn [fst]. unfold ConfirmReservation. by rewrite Hr.
  - intros u r. rewrite Hget. unfold GetUserReservations. cbv zeta. cbn [snd].
    rewrite map_lookup_filter_Some, lookup_cleanup. simpl. tauto.
Qed.

End holds.

Section queues.
Context {lib : Strings}.
Implicit Types (db : Database) (now : Z) (q : list WaitEntry).

(** What the loop over the queue finds: the first entry of the user. *)
Lemma find_user_Some u q i :
  find_user u q = Some i ↔
  (∃ e, q !! i = Some e ∧ Wait_UserID e = u) ∧
  ∀ j e, (j < i)%nat → q !! j = Some e → Wait_UserID e ≠ u.
Proof.
  revert i. induction q as [|e0 q IH]; intros i; simpl.
  { split; [done|]. by intros [(e & He & _) _]. }
  case_bool_decide as Hu.
  - split.
    + intros [= <-]. split; [by exists e0|]. intros j e Hj. lia.
    + intros [_ Hfirst]. destruct i as [|i]; [done|].
      by destruct (Hfirst 0%nat e0 ltac:(lia) eq_refl).
  - rewrite fmap_Some. split.
    + intros (i' & Hi' & ->). apply IH in Hi' as [Hat Hfirst]. split; [done|].
      intros [|j] e Hj He; [by injection He as <-|].
      apply (Hfirst j); [lia|done].
    + intros [(e & He & Heu) Hfirst]. destruct i as [|i].
      { injection He as <-. done. }
      exists i. split; [|done]. apply IH. split; [by exists e|].
      intros j e' Hj He'. apply (Hfirst (S j)); [lia|done].
Qed.

Lemma find_user_is_None u q : find_user u q = None ↔ u ∉ Wait_UserID <$> q.
Proof.
  split; [apply find_user_None_inv|apply find_user_None].
Qed.



(** X15.  In every store reached from a fresh one, a requester occupies at
    most one slot of a conference's wait queue, every entry of the queue is
    for that conference, and [GetQueuePosition] reports each entry at its
    own place: place [i] of the queue is position [i + 1] of its
    requester. *)
Theorem queue_one_slot db c :
  reachable db →
  NoDup (Wait_UserID <$> queue_of c db) ∧
  Forall (λ e, Wait_ConferenceID e = c) (queue_of c db) ∧
  ∀ i e, queue_of c db !! i = Some e →
         GetQueuePosition (Wait_UserID e) c db = Z.of_nat i + 1.
Proof.
  intros Hco%reachable_coherent.
  destruct (coherent_queue c db Hco) as [Hnd Hall]. split; [done|]. split; [done|].
  intros i e He. unfold GetQueuePosition.
  rewrite (find_user_NoDup _ _ i); [done|done|].
  by rewrite list_lookup_fmap, He.
Qed.

(** X16.  [GetQueuePosition] returns the 1-based place of the requester's
    first entry in the conference's queue, a number between 1 and the
    queue's length, and 0 exactly when the requester has no entry. *)
Theorem GetQueuePosition_first u c db :
  let p := GetQueuePosition u c db in
  let q := queue_of c db in
  0 <= p <= Z.of_nat (length q) ∧
  (p = 0 ↔ u ∉ Wait_UserID <$> q) ∧
  (0 < p →
     (∃ e, q !! Z.to_nat (p - 1) = Some e ∧ Wait_UserID e = u) ∧
     ∀ j e, (j < Z.to_nat (p - 1))%nat → q !! j = Some e → Wait_UserID e ≠ u).
Proof.
  intros p q. subst p q. unfold GetQueuePosition.
  destruct (find_user u (queue_of c db)) as [i|] eqn:Hfind.
  - pose proof (proj1 (find_user_Some _ _ _) Hfind) as [(e & He & Hu) Hfirst].
    pose proof (lookup_lt_Some _ _ _ He) as Hlen.
    replace (Z.to_nat (Z.of_nat i + 1 - 1)) with i by lia.
    split; [lia|]. split.
    + split; [lia|]. intros Hnot. apply find_user_is_None in Hnot. congruence.
    + intros _. split; [by exists e|done].
  - split; [lia|]. split; [|lia]. split; [|done].
    intros _. by apply find_user_is_None.
Qed.


End queues.

Section claims.
Context {lib : Strings}.
Implicit Types (db : Database) (now : Z).

Lemma total_tickets_ext keep keep' (m : gmap string SeatReservation) :
  (∀ i r, m !! i = Some r → keep r = keep' r) →
  total_tickets keep m = total_tickets keep' m.
Proof.
  induction m as [|i r m Hi IH] using map_ind; intros Hext.
  - by rewrite !total_tickets_empty.
  - rewrite !total_tickets_insert by done.
    rewrite (Hext i r) by apply lookup_insert_eq. rewrite IH; [done|].
    intros j r' Hj. apply (Hext j). rewrite lookup_insert_ne; [done|].
    intros ->. congruence.
Qed.

Lemma active_unpurged now c r :
  active_for now c r && unpurged now r = active_for now c r.
Proof.
  unfold active_for, unpurged. destruct (for_conference c r); simpl; [|done].
  destruct (Before now (ExpiresAt r)) eqn:HB; simpl; [|done].
  apply Before_spec in HB. rewrite (proj2 (After_false now (ExpiresAt r))); [done|lia].
Qed.

Lemma held_active_cleanup now c db :
  total_tickets (active_for now c)
    (Reservations (cleanupExpiredReservationsLocked now db)) = held_active now c db.
Proof.
  rewrite total_tickets_cleanup. apply total_tickets_ext.
  intros i r _. apply active_unpurged.
Qed.

Lemma active_for_conference now c db :
  ∀ i r, Reservations db !! i = Some r →
    active_for now c r = true → for_conference c r = true.
Proof. unfold active_for. by intros i r _ [? _]%andb_true_iff. Qed.

(** What [ClaimNext] computes as available, in a store within bounds. *)
Lemma ClaimNext_available now c conf db :
  bounded db → Conferences db !! c = Some conf →
  int_sub (AvailableTickets conf)
    (sum_tickets (active_for now c)
       (Reservations (cleanupExpiredReservationsLocked now db))) =
    AvailableTickets conf - held_active now c db.
Proof.
  intros Hb Hconf. apply (bounded_cleanup now) in Hb.
  destruct (bounded_fits c conf _ (active_for now c) Hb Hconf
              (active_for_conference now c _)) as [_ Hfit].
  rewrite sum_tickets_wrap, int_sub_wrapped by done.
  by rewrite held_active_cleanup.
Qed.

(** X18.  When a claim succeeds.  In a store reached by calls the handlers
    let through, [ClaimNext] succeeds exactly when the requester is at the
    head of the conference's queue, the conference exists, and the head's
    ticket count is at most the counter less the tickets of the Active holds;
    the hold it returns is for that count and expires 15 seconds later.  On
    success the hold is stored, the head leaves the queue, the requester has
    no queue position left, and the counter is untouched. *)
Theorem claim_succeeds_iff id now created u c db :
  valid_reachable db →
  let out := ClaimNext id now created u c db in
  (∀ res, out.2 = Ok res ↔
     ∃ hd rest conf,
       queue_of c db = hd :: rest ∧ Wait_UserID hd = u ∧
       Conferences db !! c = Some conf ∧
       Wait_TicketCount hd <= AvailableTickets conf - held_active now c db ∧
       res = new_reservation id now created u c (Wait_TicketCount hd) conf) ∧
  (∀ res, out.2 = Ok res →
     Reservations out.1 !! id = Some res ∧
     queue_of c out.1 = tail (queue_of c db) ∧
     GetQueuePosition u c db = 1 ∧ GetQueuePosition u c out.1 = 0 ∧
     Conferences out.1 = Conferences db).
Proof.
  intros Hvalid out. subst out.
  pose proof (valid_reachable_bounded _ Hvalid) as Hb.
  apply valid_reachable_reachable, reachable_coherent in Hvalid.
  destruct (coherent_queue c db Hvalid) as [Hnd _].
  unfold ClaimNext, GetQueuePosition. rewrite queue_of_cleanup.
  destruct (queue_of c db) as [|hd rest] eqn:Hq.
  { split; [|done]. intros res. split; [done|]. by intros (? & ? & ? & ? & _). }
  case_bool_decide as Hu.
  { split; [|done]. intros res. split; [done|].
    intros (? & ? & ? & [= <- <-] & ? & _). done. }
  assert (Wait_UserID hd = u) as Hhd
    by (destruct (decide (Wait_UserID hd = u)); [done|by destruct Hu]).
  change (Conferences (cleanupExpiredReservationsLocked now db)) with (Conferences db).
  destruct (Conferences db !! c) as [conf|] eqn:Hconf.
  2: { split; [|done]. intros res. split; [done|]. by intros (? & ? & ? & ? & ? & ? & _). }
  rewrite (ClaimNext_available now c conf db Hb Hconf).
  case_bool_decide as Hlt.
  { split; [|done]. intros res. split; [done|].
    intros (? & ? & ? & [= <- <-] & ? & [= <-] & ? & _). lia. }
  cbn [fst snd]. split.
  - intros res. split.
    + intros [= <-]. exists hd, rest, conf. repeat split; try done. lia.
    + intros (? & ? & ? & [= <- <-] & ? & [= <-] & ? & ->). done.
  - intros res [= <-]. split; [apply lookup_insert_eq|].
    rewrite queue_of_insert, decide_True by done. split; [done|].
    simpl. rewrite bool_decide_eq_true_2 by done. split; [done|]. split; [|done].
    rewrite find_user_None; [done|].
    simpl in Hnd. apply NoDup_cons in Hnd as [Hnotin _]. by rewrite <- Hhd.
Qed.

End claims.

Section statistics.
Context {lib : Strings}.
Implicit Types (db : Database) (now : Z).

Lemma wrap64_0 : wrap64 0 = 0.
Proof. vm_compute. reflexivity. Qed.

(** The second loop of [GetConferenceStats] over a table of zeroes that
    has a row for the conference of every hold. *)
Lemma stats_fold now (stats0 : gmap string (Z * Z)) (m : gmap string SeatReservation) :
  (∀ c s, stats0 !! c = Some s → s.1 = 0) →
  (∀ i r, m !! i = Some r → is_Some (stats0 !! Res_ConferenceID r)) →
  ∀ c, map_fold (λ _ r stats, count_hold now r stats) stats0 m !! c =
       (λ s, (wrap64 (total_tickets (active_for now c) m), s.2)) <$> stats0 !! c.
Proof.
  intros Hzero.
  apply (map_fold_weak_ind (λ st m,
    (∀ i r, m !! i = Some r → is_Some (stats0 !! Res_ConferenceID r)) →
    ∀ c, st !! c =
         (λ s, (wrap64 (total_tickets (active_for now c) m), s.2)) <$> stats0 !! c)).
  - intros _ c. rewrite total_tickets_empty, wrap64_0.
    destruct (stats0 !! c) as [[a b]|] eqn:Hc; [|done]. simpl.
    pose proof (Hzero c _ Hc) as Ha. simpl in Ha. by subst a.
  - intros i r m0 st Hi IH Hin c.
    assert (∀ j r', m0 !! j = Some r' → is_Some (stats0 !! Res_ConferenceID r'))
      as Hin0.
    { intros j r' Hj. apply (Hin j). rewrite lookup_insert_ne; [done|].
      intros ->. congruence. }
    specialize (IH Hin0). rewrite total_tickets_insert by done.
    unfold count_hold.
    destruct (Before now (ExpiresAt r)) eqn:HB.
    + assert (active_for now c r = bool_decide (Res_ConferenceID r = c)) as ->
        by (unfold active_for, for_conference; rewrite HB; apply andb_true_r).
      destruct (Hin i r (lookup_insert_eq _ _ _)) as [s0 Hs0].
      rewrite (IH (Res_ConferenceID r)), Hs0. simpl.
      destruct (decide (Res_ConferenceID r = c)) as [<-|Hne].
      * rewrite lookup_insert_eq, Hs0, bool_decide_eq_true_2 by done. simpl.
        unfold int_add. rewrite wrap64_add_l. do 3 f_equal; lia.
      * rewrite lookup_insert_ne by done. rewrite IH.
        rewrite bool_decide_eq_false_2 by done. done.
    + assert (active_for now c r = false) as ->
        by (unfold active_for; rewrite HB; apply andb_false_r).
      by rewrite IH.
Qed.

(** X19.  [GetConferenceStats], in a store reached by calls the handlers
    let through: the table has one row per conference and no other; a row's
    Reserved is the sum of the ticket counts of the conference's Active
    holds, without wrap-around, which is the amount [ClaimNext] subtracts
    from the counter; and its Queue is the length of the conference's wait
    queue. *)
Theorem GetConferenceStats_rows now db :
  valid_reachable db →
  ∀ c, GetConferenceStats now db !! c =
       (λ _, (held_active now c db, Z.of_nat (length (queue_of c db))))
         <$> Conferences db !! c.
Proof.
  intros Hvalid c.
  pose proof (valid_reachable_bounded _ Hvalid) as Hb.
  pose proof (reachable_wf _ (valid_reachable_reachable _ Hvalid)) as Hwf.
  unfold GetConferenceStats. cbv zeta. rewrite stats_fold.
  - rewrite map_lookup_imap.
    destruct (Conferences db !! c) as [conf|] eqn:Hconf; [|done]. simpl.
    destruct (bounded_fits c conf db (active_for now c) Hb Hconf
                (active_for_conference now c db)) as [Hs _].
    destruct (bounded_confs _ Hb c conf Hconf) as (HT & _ & Hsum & _).
    unfold held_active. rewrite wrap64_id; [done|]. int_bounds. lia.
  - intros c' s. rewrite map_lookup_imap.
    destruct (Conferences db !! c'); simpl; [|done]. by intros [= <-].
  - intros i r Hr. rewrite map_lookup_imap.
    destruct (Hwf i r Hr) as [conf ->]. by eexists.
Qed.

End statistics.

Section reservable.
Context {lib : Strings}.
Implicit Types (db : Database) (now : Z).

Lemma held_purged now c db :
  held now c (cleanupExpiredReservationsLocked now db) = held now c db.
Proof.
  unfold held. rewrite total_tickets_cleanup. apply total_tickets_ext.
  intros i r _. by destruct (for_conference c r), (unpurged now r).
Qed.

Lemma effective_purged now c db :
  effective now c (cleanupExpiredReservationsLocked now db) = effective now c db.
Proof. unfold effective. by rewrite held_purged. Qed.

Lemma for_conference_eq c' r :
  for_conference c' r = bool_decide (c' = Res_ConferenceID r).
Proof. unfold for_conference. apply bool_decide_ext. naive_solver. Qed.

(** Selling [n] tickets of a conference and dropping [k] of its held
    tickets. *)
Lemma effective_sell now c conf n db db' k :
  Conferences db !! c = Some conf →
  fits_int (AvailableTickets conf - n) →
  Conferences db' = <[c := take_tickets n conf]> (Conferences db) →
  (∀ c', held now c' db' = held now c' db - if decide (c' = c) then k else 0) →
  ∀ c', effective now c' db' =
        (λ a, if decide (c' = c) then a - n + k else a) <$> effective now c' db.
Proof.
  intros Hconf Hfits Hc Hheld c'. unfold effective. rewrite Hc, Hheld.
  destruct (decide (c' = c)) as [->|Hne].
  - rewrite lookup_insert_eq, Hconf. simpl. rewrite int_sub_exact by done.
    f_equal; lia.
  - rewrite lookup_insert_ne by done. destruct (Conferences db !! c'); simpl; [|done].
    f_equal; lia.
Qed.

(** X20.  The tickets a requester can still reserve of a conference, the
    counter less the tickets on hold, change as follows in a store reached
    by calls the handlers let through: a direct booking and a new hold of
    [n] tickets lower them by [n]; confirming a live hold leaves them as
    they are (the hold becomes a booking, nothing is taken twice);
    cancelling a live hold gives its tickets back; and no other conference
    is affected. *)
Theorem effective_accounting now db :
  valid_reachable db →
  (∀ id u c n db' b,
     1 <= n → CreateBooking id now u c n db = (db', Ok b) →
     ∀ c', effective now c' db' =
           (λ a, if decide (c' = c) then a - n else a) <$> effective now c' db) ∧
  (∀ id created u c n db' r,
     Reservations db !! id = None →
     CreateReservation id now created u c n db = (db', Ok r) →
     ∀ c', effective now c' db' =
           (λ a, if decide (c' = c) then a - n else a) <$> effective now c' db) ∧
  (∀ id rid r,
     Reservations db !! rid = Some r → now <= ExpiresAt r →
     is_Ok (ConfirmReservation id now rid db).2 = true ∧
     ∀ c', effective now c' (ConfirmReservation id now rid db).1 =
           effective now c' db) ∧
  (∀ rid r,
     Reservations db !! rid = Some r → now <= ExpiresAt r →
     ∀ c', effective now c' (CancelReservation rid db).1 =
           (λ a, if decide (c' = Res_ConferenceID r) then a + Res_TicketCount r
                 else a) <$> effective now c' db).
Proof.
  intros Hvalid.
  pose proof (valid_reachable_bounded _ Hvalid) as Hb.
  pose proof (reachable_wf _ (valid_reachable_reachable _ Hvalid)) as Hwf.
  assert (∀ rid r, Reservations db !! rid = Some r → now <= ExpiresAt r →
    ∀ c', total_tickets (λ r, for_conference c' r && unpurged now r)
            (delete rid (Reservations db)) =
          held now c' db -
            if decide (c' = Res_ConferenceID r) then Res_TicketCount r else 0)
    as Hdrop.
  { intros rid r Hr Hlive c'. rewrite (total_tickets_delete _ _ rid r Hr).
    unfold held, unpurged. rewrite (proj2 (After_false now (ExpiresAt r))) by done.
    rewrite for_conference_eq. simpl. rewrite andb_true_r.
    by destruct (decide (c' = Res_ConferenceID r));
      [rewrite bool_decide_eq_true_2|rewrite bool_decide_eq_false_2]. }
  split; [|split; [|split]].
  - intros id u c n db' b Hn. unfold CreateBooking.
    destruct (Conferences db !! c) as [conf|] eqn:Hconf; [|done].
    case_bool_decide as Hlt; [done|]. intros [= <- <-] c'.
    rewrite (effective_sell now c conf n db _ 0 Hconf); try done.
    + destruct (effective now c' db); simpl; [|done].
      by destruct (decide (c' = c)); f_equal; lia.
    + apply (CreateBooking_fits c conf n db); try done. lia.
    + intros c''. unfold held. simpl. destruct (decide (c'' = c)); lia.
  - intros id created u c n db' r Hfresh
      (conf & Hconf & Hdup & -> & ->)%CreateReservation_Ok_inv c'.
    rewrite <- (effective_purged now c' db). unfold effective, held. simpl.
    rewrite total_tickets_insert by (by apply lookup_cleanup_None).
    unfold unpurged at 1. simpl.
    rewrite (proj2 (After_false now (now + holdDuration)))
      by (pose proof holdDuration_pos; lia).
    rewrite for_conference_eq. simpl. rewrite andb_true_r.
    destruct (Conferences db !! c') as [conf'|]; simpl; [|done].
    by destruct (decide (c' = c));
      [rewrite bool_decide_eq_true_2 by done|rewrite bool_decide_eq_false_2 by done];
      f_equal; lia.
  - intros id rid r Hr Hlive. unfold ConfirmReservation. rewrite Hr.
    rewrite (proj2 (After_false now (ExpiresAt r))) by done.
    destruct (Hwf rid r Hr) as [conf Hconf]. rewrite Hconf. split; [done|].
    intros c'. cbn [fst].
    rewrite (effective_sell now (Res_ConferenceID r) conf (Res_TicketCount r) db _
               (Res_TicketCount r) Hconf); try done.
    + destruct (effective now c' db); simpl; [|done].
      by destruct (decide (c' = Res_ConferenceID r)); f_equal; lia.
    + by apply (ConfirmReservation_fits rid r conf db).
    + intros c''. by apply Hdrop.
  - intros rid r Hr Hlive c'. unfold CancelReservation. rewrite Hr. cbn [fst].
    unfold effective at 1. unfold held. simpl. rewrite (Hdrop rid r Hr Hlive).
    unfold effective. destruct (Conferences db !! c'); simpl; [|done].
    by destruct (decide (c' = Res_ConferenceID r)); f_equal; lia.
Qed.

End reservable.

Section overselling.
Context {lib : Strings}.
Implicit Types (db : Database) (now : Z).

Lemma exec_keeps_conferences c db :
  booking_id_drawn c = None → keeps_data c →
  Conferences (exec c db).1 = Conferences db.
Proof.
  intros Hdrawn Hkeep. destruct c; simpl in *; try done.
  - unfold CreateUser. by case_bool_decide.
  - unfold CreateReservation. simpl. destruct (Conferences db !! conferenceID); [|done].
    repeat (case_bool_decide; [done|]). done.
  - unfold CancelReservation. by destruct (Reservations db !! reservationID).
  - unfold GetReservation. simpl. by destruct (_ !! reservationID).
  - unfold EnqueueWait. by destruct (find_user userID (queue_of conferenceID db)).
  - unfold ClaimNext. simpl. destruct (queue_of conferenceID _); [done|].
    case_bool_decide; [done|]. destruct (Conferences db !! conferenceID); [|done].
    by case_bool_decide.
Qed.

Lemma in_stock_NewDatabase now d1 d2 d3 : in_stock (NewDatabase now d1 d2 d3).
Proof.
  intros c conf Hc. change (Conferences (NewDatabase now d1 d2 d3))
    with (catalogue 100 75 150 d1 d2 d3) in Hc.
  apply catalogue_lookup in Hc as [[_ ->]|[[_ ->]|[_ ->]]]; simpl; lia.
Qed.

Lemma in_stock_exec c db :
  valid_call c → no_confirm c → in_stock db → in_stock (exec c db).1.
Proof.
  intros Hvalid Hno Hin.
  destruct (booking_id_drawn c) as [id|] eqn:Hdrawn.
  - destruct c; simpl in *; try done. unfold CreateBooking.
    destruct (Conferences db !! conferenceID) as [conf|] eqn:Hconf; [|done].
    case_bool_decide as Hlt; [done|]. simpl. intros c' conf' Hc'.
    destruct (Hin conferenceID conf Hconf) as [Hav HT]. simpl in Hc'.
    apply lookup_insert_Some in Hc' as [[<- <-]|[_ Hc']]; [|by apply (Hin c')].
    simpl. rewrite int_sub_exact; [lia|]. int_bounds. lia.
  - destruct c; try done;
      try (unfold in_stock; rewrite (exec_keeps_conferences _ db Hdrawn I);
           exact Hin).
    apply in_stock_NewDatabase.
Qed.

(** X21.  Direct bookings alone never oversell.  From a fresh store, along
    any calls the handlers let through among which no hold is confirmed,
    every conference's counter stays between 0 and its capacity: the
    counter can go negative only through [ConfirmReservation]. *)
Theorem direct_booking_never_oversells now d1 d2 d3 cs :
  Forall valid_call cs → Forall no_confirm cs →
  ∀ c conf, Conferences (run (NewDatabase now d1 d2 d3) cs) !! c = Some conf →
    0 <= AvailableTickets conf <= TotalTickets conf.
Proof.
  intros Hvalid Hno.
  assert (in_stock (run (NewDatabase now d1 d2 d3) cs)) as Hin.
  { generalize (in_stock_NewDatabase now d1 d2 d3).
    generalize (NewDatabase now d1 d2 d3) as db.
    induction cs as [|c cs IH]; intros db Hdb; [done|].
    apply Forall_cons in Hvalid as [Hc Hcs]. apply Forall_cons in Hno as [Hn Hns].
    simpl. apply IH; try done. by apply in_stock_exec. }
  intros c conf Hc. by apply (Hin c).
Qed.

Lemma covered_NewDatabase now d1 d2 d3 : covered (NewDatabase now d1 d2 d3).
Proof.
  split; [intros i r Hr; simpl in Hr; by rewrite lookup_empty in Hr|].
  intros c conf Hc. change (Reservations (NewDatabase now d1 d2 d3)) with
    (∅ : gmap string SeatReservation). rewrite total_tickets_empty.
  change (Conferences (NewDatabase now d1 d2 d3))
    with (catalogue 100 75 150 d1 d2 d3) in Hc.
  apply catalogue_lookup in Hc as [[_ ->]|[[_ ->]|[_ ->]]]; simpl; lia.
Qed.

Lemma covered_cleanup now db : covered db → covered (cleanupExpiredReservationsLocked now db).
Proof.
  intros [Hnn Hcov]. split.
  - apply (nonneg_subseteq (Reservations db)); [apply map_filter_subseteq|done].
  - intros c conf Hc. destruct (Hcov c conf Hc) as (Hle & ? & ?).
    pose proof (total_tickets_cleanup_le (for_conference c) now db Hnn). lia.
Qed.

Lemma covered_delete rid db : covered db → covered (set_Reservations (delete rid) db).
Proof.
  intros [Hnn Hcov]. split; [by apply nonneg_delete|].
  intros c conf Hc. destruct (Hcov c conf Hc) as (Hle & ? & ?).
  pose proof (total_tickets_delete_le (for_conference c) (Reservations db) rid Hnn).
  simpl. lia.
Qed.

Lemma covered_CreateReservation id now created u c n db :
  1 <= n → covered db → covered (CreateReservation id now created u c n db).1.
Proof.
  intros Hn Hcov%(covered_cleanup now). unfold CreateReservation.
  remember (cleanupExpiredReservationsLocked now db) as db1 eqn:Hdb1. clear Hdb1.
  cbv zeta. destruct (Conferences db1 !! c) as [conf|] eqn:Hconf; [|done].
  case_bool_decide; [done|].
  destruct Hcov as [Hnn Hcov]. destruct (Hcov c conf Hconf) as (Hle & Hav & HT).
  pose proof (total_tickets_nonneg (for_conference c) _ Hnn) as Hpos.
  rewrite sum_tickets_wrap, wrap64_id by (int_bounds; lia).
  rewrite int_sub_exact by (int_bounds; lia).
  case_bool_decide as Hlt; [done|]. cbn [fst]. split.
  - apply nonneg_insert; [simpl; lia|done].
  - intros c' conf' Hc'. simpl in Hc'. destruct (Hcov c' conf' Hc') as (Hle' & ? & ?).
    split; [|done].
    pose proof (total_tickets_insert_le (for_conference c') (Reservations db1) id
                  (new_reservation id now created u c n conf) Hnn) as Hins.
    change (for_conference c' (new_reservation id now created u c n conf))
      with (bool_decide (c = c')) in Hins.
    change (Res_TicketCount (new_reservation id now created u c n conf)) with n in Hins.
    simpl. case_bool_decide as Hcc; [|lia]. subst c'.
    rewrite Hconf in Hc'. injection Hc' as <-. lia.
Qed.

Lemma covered_ConfirmReservation id now rid db :
  covered db → covered (ConfirmReservation id now rid db).1.
Proof.
  intros Hcov. unfold ConfirmReservation.
  destruct (Reservations db !! rid) as [r|] eqn:Hr; [|done].
  destruct (After now (ExpiresAt r)); [by apply covered_delete|].
  destruct (Conferences db !! Res_ConferenceID r) as [conf|] eqn:Hconf; [|done].
  cbn [fst]. destruct Hcov as [Hnn Hcov].
  destruct (Hcov _ conf Hconf) as (Hle & Hav & HT).
  pose proof (Hnn rid r Hr) as Hcount.
  assert (∀ c', total_tickets (for_conference c') (delete rid (Reservations db)) =
               total_tickets (for_conference c') (Reservations db) -
               if bool_decide (Res_ConferenceID r = c') then Res_TicketCount r
               else 0) as Hdel
    by (intros c'; by apply (total_tickets_delete (for_conference c'))).
  pose proof (total_tickets_nonneg (for_conference (Res_ConferenceID r)) _
                (nonneg_delete _ rid Hnn)) as Hpos.
  rewrite Hdel, bool_decide_eq_true_2 in Hpos by done.
  split; [by apply nonneg_delete|].
  intros c' conf' Hc'. simpl in Hc'. simpl. rewrite Hdel.
  apply lookup_insert_Some in Hc' as [[<- <-]|[Hne Hc']].
  - simpl. rewrite bool_decide_eq_true_2 by done.
    rewrite int_sub_exact by (int_bounds; lia). lia.
  - destruct (Hcov c' conf' Hc') as (Hle' & ? & ?).
    rewrite bool_decide_eq_false_2 by done. lia.
Qed.

Lemma covered_exec c db :
  valid_call c → holds_only c → covered db → covered (exec c db).1.
Proof.
  intros Hvalid Honly Hcov. destruct c; simpl in *; try done.
  - unfold CreateUser. by case_bool_decide.
  - by apply covered_CreateReservation.
  - by apply covered_ConfirmReservation.
  - unfold CancelReservation. destruct (Reservations db !! reservationID); [|done].
    by apply covered_delete.
  - unfold GetReservation. cbv zeta.
    destruct (_ !! reservationID); by apply covered_cleanup.
  - by apply covered_cleanup.
  - unfold EnqueueWait. by destruct (find_user userID (queue_of conferenceID db)).
  - apply covered_NewDatabase.
Qed.

(** X22.  The hold workflow alone never oversells.  From a fresh store,
    along any calls the handlers let through among which there is no direct
    booking and no queue claim (holds are reserved, then confirmed,
    cancelled or left to expire), the holds stored for a conference never
    exceed its counter, so they can all be confirmed, and the counter stays
    between 0 and the capacity. *)
Theorem hold_workflow_never_oversells now d1 d2 d3 cs :
  Forall valid_call cs → Forall holds_only cs →
  let db := run (NewDatabase now d1 d2 d3) cs in
  ∀ c conf, Conferences db !! c = Some conf →
    0 <= total_tickets (for_conference c) (Reservations db)
      <= AvailableTickets conf ∧
    AvailableTickets conf <= TotalTickets conf.
Proof.
  intros Hvalid Honly db.
  assert (covered db) as [Hnn Hcov].
  { subst db. generalize (covered_NewDatabase now d1 d2 d3).
    generalize (NewDatabase now d1 d2 d3) as db.
    induction cs as [|c cs IH]; intros db Hdb; [done|].
    apply Forall_cons in Hvalid as [Hc Hcs]. apply Forall_cons in Honly as [Hn Hns].
    simpl. apply IH; try done. by apply covered_exec. }
  intros c conf Hc. destruct (Hcov c conf Hc) as (Hle & Hav & _).
  pose proof (total_tickets_nonneg (for_conference c) _ Hnn). lia.
Qed.

End overselling.

Section registered_users.
Context {lib : Strings}.
Implicit Types (db : Database) (now : Z).

Lemma users_kept c db :
  keeps_data c →
  (∀ id, user_id_drawn c = Some id → Users db !! id = None) →
  Users db ⊆ Users (exec c db).1.
Proof.
  intros Hkeep Hfresh. destruct c; simpl in *; try done.
  - unfold CreateUser. case_bool_decide; [done|]. simpl.
    apply insert_subseteq. by apply Hfresh.
  - unfold CreateBooking. destruct (Conferences db !! conferenceID); [|done].
    by case_bool_decide.
  - unfold CreateReservation. simpl.
    destruct (Conferences db !! conferenceID); [|done].
    repeat (case_bool_decide; [done|]). done.
  - unfold ConfirmReservation. destruct (Reservations db !! reservationID); [|done].
    destruct (After now (ExpiresAt s)); [done|].
    by destruct (Conferences db !! Res_ConferenceID s).
  - unfold CancelReservation. by destruct (Reservations db !! reservationID).
  - unfold GetReservation. simpl. by destruct (_ !! reservationID).
  - unfold EnqueueWait. by destruct (find_user userID (queue_of conferenceID db)).
  - unfold ClaimNext. simpl. destruct (queue_of conferenceID _); [done|].
    case_bool_decide; [done|]. destruct (Conferences db !! conferenceID); [|done].
    by case_bool_decide.
Qed.

(** X23.  A registered email stays taken.  Whatever calls follow, other
    than a reset, and as long as no call draws the identifier of a stored
    user, [GetUser] keeps returning every user once created, unchanged (no
    call edits or deletes a user), and [CreateUser] keeps refusing every
    spelling of that user's email. *)
Theorem registered_email_stays_taken db cs :
  Forall keeps_data cs → users_fresh db cs →
  ∀ id u, GetUser id db = Ok u →
    GetUser id (run db cs) = Ok u ∧
    ∀ id' now name email,
      ToLower (TrimSpace email) = ToLower (TrimSpace (User_Email u)) →
      (CreateUser id' now name email (run db cs)).2 = Err (ErrUserExists email).
Proof.
  intros Hkeep Hfresh id u Hu.
  assert (Users db !! id = Some u) as Hin
    by (unfold GetUser in Hu; destruct (Users db !! id); congruence).
  clear Hu.
  assert (Users (run db cs) !! id = Some u) as Hrun.
  { revert db Hkeep Hfresh Hin. induction cs as [|c cs IH]; intros db Hkeep Hfresh Hin;
      [done|].
    apply Forall_cons in Hkeep as [Hc Hcs]. destruct Hfresh as [Hf Hfs].
    change (run db (c :: cs)) with (run (exec c db).1 cs).
    apply IH; try done. by apply (lookup_weaken _ _ _ _ Hin), users_kept. }
  split; [unfold GetUser; by rewrite Hrun|].
  intros id' now name email Heq. unfold CreateUser.
  rewrite bool_decide_eq_true_2; [done|]. by exists id, u.
Qed.

End registered_users.

Section ticket_counts.
Context {lib : Strings}.
Implicit Types (db : Database) (now : Z).

Lemma positive_NewDatabase now d1 d2 d3 : positive (NewDatabase now d1 d2 d3).
Proof. split; simpl; intros ? ? H; by rewrite lookup_empty in H. Qed.

Lemma positive_cleanup now db : positive db → positive (cleanupExpiredReservationsLocked now db).
Proof.
  intros [Hb Hh Hq]. split; try done.
  intros id r Hr. apply lookup_cleanup in Hr as [Hr _]. by apply (Hh id).
Qed.

Lemma positive_delete rid db : positive db → positive (set_Reservations (delete rid) db).
Proof.
  intros [Hb Hh Hq]. split; try done.
  intros id r Hr. simpl in Hr. apply lookup_delete_Some in Hr as [_ Hr]. by apply (Hh id).
Qed.

Lemma positive_insert_hold id r db :
  1 <= Res_TicketCount r → positive db → positive (set_Reservations (insert id r) db).
Proof.
  intros Hr [Hb Hh Hq]. split; try done.
  intros id' r' Hr'. simpl in Hr'.
  apply lookup_insert_Some in Hr' as [[_ <-]|[_ Hr']]; [done|]. by apply (Hh id').
Qed.

Lemma positive_insert_booking id b db (f : gmap string Conference → gmap string Conference) :
  1 <= TicketsBooked b → positive db →
  positive (set_Bookings (insert id b) (set_Conferences f db)).
Proof.
  intros Hn [Hb Hh Hq]. split; try done.
  intros id' b' Hb'. simpl in Hb'.
  apply lookup_insert_Some in Hb' as [[_ <-]|[_ Hb']]; [done|]. by apply (Hb id').
Qed.

Lemma positive_set_queue c q db :
  Forall (λ e, 1 <= Wait_TicketCount e) q → positive db →
  positive (set_WaitQueues (insert c q) db).
Proof.
  intros Hall [Hb Hh Hq]. split; try done.
  intros c' q' Hq'. simpl in Hq'.
  apply lookup_insert_Some in Hq' as [[_ <-]|[_ Hq']]; [done|]. by apply (Hq c').
Qed.

Lemma positive_queue c db : positive db → Forall (λ e, 1 <= Wait_TicketCount e) (queue_of c db).
Proof.
  intros Hpos. unfold queue_of. destruct (WaitQueues db !! c) as [q|] eqn:Hq; simpl.
  - by apply (positive_queues _ Hpos c).
  - constructor.
Qed.

Lemma positive_exec c db : valid_call c → positive db → positive (exec c db).1.
Proof.
  intros Hvalid Hpos. destruct c; simpl in *.
  - unfold CreateUser. case_bool_decide; [done|]. by destruct Hpos.
  - unfold CreateBooking. destruct (Conferences db !! conferenceID); [|done].
    case_bool_decide; [done|]. by apply positive_insert_booking.
  - apply (positive_cleanup now) in Hpos. unfold CreateReservation. cbv zeta.
    destruct (Conferences _ !! conferenceID); [|done].
    repeat (case_bool_decide; [done|]). by apply positive_insert_hold.
  - unfold ConfirmReservation.
    destruct (Reservations db !! reservationID) as [r|] eqn:Hr; [|done].
    destruct (After now (ExpiresAt r)); [by apply positive_delete|].
    destruct (Conferences db !! Res_ConferenceID r); [|done].
    cbn [fst]. apply positive_delete. apply positive_insert_booking; [|done].
    by apply (positive_holds _ Hpos reservationID).
  - unfold CancelReservation. destruct (Reservations db !! reservationID); [|done].
    by apply positive_delete.
  - unfold GetReservation. cbv zeta.
    destruct (_ !! reservationID); by apply positive_cleanup.
  - by apply positive_cleanup.
  - pose proof (positive_queue conferenceID db Hpos) as Hq. unfold EnqueueWait.
    destruct (find_user userID (queue_of conferenceID db)) as [i|]; cbn [fst];
      apply positive_set_queue; try done.
    + apply Forall_alter; [done|]. intros e _ _. simpl. done.
    + apply Forall_app. split; [done|]. by repeat constructor.
  - apply (positive_cleanup now) in Hpos.
    pose proof (positive_queue conferenceID _ Hpos) as Hq. unfold ClaimNext. cbv zeta.
    destruct (queue_of conferenceID _) as [|hd rest]; [done|].
    apply Forall_cons in Hq as [Hhd Hrest].
    case_bool_decide; [done|]. destruct (Conferences _ !! conferenceID); [|done].
    case_bool_decide; [done|]. cbn [fst].
    apply positive_set_queue; [done|]. by apply positive_insert_hold.
  - apply positive_NewDatabase.
Qed.

(** X24.  No empty orders.  In a store reached by calls the handlers let
    through, every booking, every hold and every wait-queue entry is for at
    least one ticket ([ClaimNext] takes the count of the queue entry and
    [ConfirmReservation] that of the hold). *)
Theorem counts_positive db :
  valid_reachable db →
  (∀ id b, GetBooking id db = Some b → 1 <= TicketsBooked b) ∧
  (∀ id r, Reservations db !! id = Some r → 1 <= Res_TicketCount r) ∧
  (∀ c e, e ∈ queue_of c db → 1 <= Wait_TicketCount e).
Proof.
  intros (now & d1 & d2 & d3 & cs & Hvalid & ->).
  assert (positive (run (NewDatabase now d1 d2 d3) cs)) as Hpos.
  { generalize (positive_NewDatabase now d1 d2 d3).
    generalize (NewDatabase now d1 d2 d3) as db.
    induction cs as [|c cs IH]; intros db Hdb; [done|].
    apply Forall_cons in Hvalid as [Hc Hcs].
    simpl. apply IH; try done. by apply positive_exec. }
  split; [apply Hpos|]. split; [apply Hpos|].
  intros c e He. pose proof (positive_queue c _ Hpos) as Hq.
  rewrite Forall_forall in Hq. by apply Hq.
Qed.

End ticket_counts.

Section waiting_order.
Context {lib : Strings}.
Implicit Types (db : Database) (now : Z).

(** X25.  Nobody jumps the queue.  Whatever the store, a call other than a
    reset leaves the order of the requesters waiting for a conference as it
    was, or appends one requester who was not waiting, or removes the head:
    requesters are never reordered, inserted in the middle or dropped from
    the middle. *)
Theorem waiting_order_stable c k db :
  keeps_data c →
  let q := (Wait_UserID <$> queue_of k db) in
  let q' := (Wait_UserID <$> queue_of k (exec c db).1) in
  q' = q ∨ (∃ u, (u ∉ q) ∧ q' = q ++ [u]) ∨ (∃ u, q = u :: q').
Proof.
  intros Hkeep q q'. subst q q'. destruct c; simpl in *; try done.
  - left. unfold CreateUser. by case_bool_decide.
  - left. unfold CreateBooking. destruct (Conferences db !! conferenceID); [|done].
    by case_bool_decide.
  - left. unfold CreateReservation. simpl.
    destruct (Conferences db !! conferenceID); [|done].
    repeat (case_bool_decide; [done|]). done.
  - left. unfold ConfirmReservation. destruct (Reservations db !! reservationID); [|done].
    destruct (After now (ExpiresAt s)); [done|].
    by destruct (Conferences db !! Res_ConferenceID s).
  - left. unfold CancelReservation. by destruct (Reservations db !! reservationID).
  - left. unfold GetReservation. simpl. by destruct (_ !! reservationID).
  - by left.
  - destruct (decide (conferenceID = k)) as [->|Hne].
    + destruct (find_user userID (queue_of k db)) as [i|] eqn:Hfind.
      * left. by apply (EnqueueWait_again id now userID k ticketCount db i).
      * right. left. exists userID. split; [by apply find_user_None_inv|].
        destruct (EnqueueWait_new id now userID k ticketCount db Hfind)
          as (e & Hu & _ & -> & _).
        rewrite fmap_app. simpl. by rewrite Hu.
    + left. unfold EnqueueWait.
      destruct (find_user userID (queue_of conferenceID db)); cbn [fst];
        rewrite queue_of_insert; by rewrite decide_False.
  - destruct (ClaimNext id now created userID conferenceID db) as [db' [res|e|]] eqn:Hclaim.
    + destruct (ClaimNext_success _ _ _ _ _ _ _ _ Hclaim) as (hd & Hq & Hhd & _).
      simpl. destruct (decide (conferenceID = k)) as [->|Hne].
      * right. right. exists (Wait_UserID hd). by rewrite Hq.
      * left. revert Hclaim. unfold ClaimNext. simpl.
        destruct (queue_of conferenceID _); [done|].
        case_bool_decide; [done|]. destruct (Conferences db !! conferenceID); [|done].
        case_bool_decide; [done|]. intros [= <- _].
        rewrite queue_of_insert. by rewrite decide_False.
    + left. simpl. pose proof (ClaimNext_failure id now created userID conferenceID db e) as Hf.
      rewrite Hclaim in Hf. destruct (Hf eq_refl) as [Hdb' _]. simpl in Hdb'.
      subst db'. by rewrite queue_of_cleanup.
    + left. simpl. revert Hclaim. unfold ClaimNext. simpl.
      destruct (queue_of conferenceID _); [done|].
      case_bool_decide; [done|]. destruct (Conferences db !! conferenceID); [|done].
      by case_bool_decide.
Qed.

End waiting_order.

(** * Concrete runs

    The fast paths, applied to every string, obey the laws of [Strings].
    The runs below are computed with this instance, on ASCII contacts, where
    every instance agrees with it. *)

Section ascii_text.

Lemma isSpace_toLowerByte c : isSpace (toLowerByte c) = isSpace c.
Proof. destruct c as [[] [] [] [] [] [] [] []]; reflexivity. Qed.

Lemma toLowerByte_idem c : toLowerByte (toLowerByte c) = toLowerByte c.
Proof. destruct c as [[] [] [] [] [] [] [] []]; reflexivity. Qed.

Lemma lower_ascii_idem s : lower_ascii (lower_ascii s) = lower_ascii s.
Proof. induction s as [|c s IH]; simpl; [done|]. by rewrite toLowerByte_idem, IH. Qed.

Lemma lower_ascii_app s t : lower_ascii (s +:+ t) = lower_ascii s +:+ lower_ascii t.
Proof. induction s as [|c s IH]; simpl; [done|]. by rewrite IH. Qed.

Lemma lower_ascii_trimLeft s : lower_ascii (trimLeft s) = trimLeft (lower_ascii s).
Proof.
  induction s as [|c s IH]; simpl; [done|]. rewrite isSpace_toLowerByte.
  by destruct (isSpace c).
Qed.

Lemma lower_ascii_trimRight s : lower_ascii (trimRight s) = trimRight (lower_ascii s).
Proof.
  induction s as [|c s IH]; simpl; [done|]. rewrite <- IH, isSpace_toLowerByte.
  destruct (trimRight s); simpl; [by destruct (isSpace c)|done].
Qed.

Lemma lower_ascii_trim s : lower_ascii (trim_ascii s) = trim_ascii (lower_ascii s).
Proof. unfold trim_ascii. by rewrite lower_ascii_trimRight, lower_ascii_trimLeft. Qed.

Lemma trimRight_idem s : trimRight (trimRight s) = trimRight s.
Proof.
  induction s as [|c s IH]; simpl; [done|].
  destruct (trimRight s) as [|c' r] eqn:Hr.
  - destruct (isSpace c) eqn:Hc; simpl; [done|]. by rewrite Hc.
  - simpl in *. by rewrite IH.
Qed.

Lemma trimLeft_clean s : starts_clean (trimLeft s).
Proof. induction s as [|c s IH]; simpl; [done|]. by destruct (isSpace c) eqn:Hc. Qed.

Lemma trimLeft_id s : starts_clean s → trimLeft s = s.
Proof. destruct s as [|c s]; simpl; [done|]. by intros ->. Qed.

Lemma trimRight_clean s : starts_clean s → starts_clean (trimRight s).
Proof.
  destruct s as [|c s]; simpl; [done|]. intros Hc.
  destruct (trimRight s); simpl; [by rewrite Hc|done].
Qed.

Lemma trim_ascii_idem s : trim_ascii (trim_ascii s) = trim_ascii s.
Proof.
  unfold trim_ascii.
  rewrite (trimLeft_id (trimRight (trimLeft s)))
    by apply trimRight_clean, trimLeft_clean.
  apply trimRight_idem.
Qed.

Lemma trimLeft_all_space s : all_space s = true → trimLeft s = EmptyString.
Proof.
  induction s as [|c s IH]; simpl; [done|].
  intros [Hc Hs]%andb_true_iff. rewrite Hc. by apply IH.
Qed.

Lemma trimRight_all_space s : all_space s = true → trimRight s = EmptyString.
Proof.
  induction s as [|c s IH]; simpl; [done|].
  intros [Hc Hs]%andb_true_iff. by rewrite IH, Hc.
Qed.

Lemma trimLeft_pad pre s : all_space pre = true → trimLeft (pre +:+ s) = trimLeft s.
Proof.
  induction pre as [|c pre IH]; simpl; [done|].
  intros [Hc Hs]%andb_true_iff. rewrite Hc. by apply IH.
Qed.

Lemma trimRight_pad s post :
  all_space post = true → trimRight (s +:+ post) = trimRight s.
Proof.
  intros Hpost. induction s as [|c s IH]; simpl.
  - by apply trimRight_all_space.
  - by rewrite IH.
Qed.

Lemma trim_ascii_pad_right s post :
  all_space post = true → trim_ascii (s +:+ post) = trim_ascii s.
Proof.
  intros Hpost. unfold trim_ascii. induction s as [|c s IH]; simpl.
  - by rewrite trimLeft_all_space.
  - destruct (isSpace c); [done|].
    change (String c (s +:+ post)) with (String c s +:+ post).
    by rewrite trimRight_pad.
Qed.

Lemma trim_ascii_pad pre s post :
  all_space pre = true → all_space post = true →
  trim_ascii (pre +:+ s +:+ post) = trim_ascii s.
Proof.
  intros Hpre Hpost. rewrite <- (trim_ascii_pad_right s post Hpost).
  unfold trim_ascii. by rewrite trimLeft_pad.
Qed.

Lemma trimRight_empty s : trimRight s = EmptyString → all_space s = true.
Proof.
  induction s as [|c s IH]; simpl; [done|].
  destruct (trimRight s); [|done]. destruct (isSpace c); [|done].
  intros _. by apply IH.
Qed.

Lemma trimLeft_all_space_inv s : all_space (trimLeft s) = true → all_space s = true.
Proof.
  induction s as [|c s IH]; simpl; [done|].
  destruct (isSpace c) eqn:Hc; simpl; [done|]. by rewrite Hc.
Qed.

Lemma trim_ascii_empty s : trim_ascii s = EmptyString → all_space s = true.
Proof. intros Hs. by apply trimLeft_all_space_inv, trimRight_empty. Qed.

End ascii_text.

(** The functions of ASCII text obey the laws of [Strings]. *)
#[global] Instance ascii_strings : Strings := {|
  ToLower := lower_ascii;
  TrimSpace := trim_ascii;
  ToLower_ascii := λ s _, eq_refl;
  TrimSpace_ascii := λ s _, eq_refl;
  ToLower_ToLower := lower_ascii_idem;
  TrimSpace_TrimSpace := trim_ascii_idem;
  TrimSpace_ToLower := λ s, eq_sym (lower_ascii_trim s);
  TrimSpace_blank := λ pre s post Hpre Hpost,
    trim_ascii_pad pre s post (trim_ascii_empty pre Hpre) (trim_ascii_empty post Hpost)
|}.

(** C4, as stated, fails at the expiry instant: with [now = expiresAt]
    the claim's [now ≥ expiresAt] asks for Expired, and the confirmation
    succeeds. *)
Lemma confirm_at_expiry_counterexample :
  let db := (CreateReservation "r1" 0 1 "alice" "conf-1" 1 (NewDatabase 0 1 2 3)).1 in
  let now := holdDuration in
  ExpiresAt <$> Reservations db !! "r1" = Some now ∧
  is_Ok (ConfirmReservation "b1" now "r1" db).2 = true ∧
  (ConfirmReservation "b1" now "r1" db).2 ≠ Err ErrReservationExpired.
Proof. vm_compute. repeat split; try done. Qed.

Lemma confirm_reservation_contract_witness :
  let db := run (NewDatabase 0 1 2 3) [CallCreateReservation "r1" 0 1 "alice" "conf-1" 2] in
  reachable db ∧
  Reservations db !! "r1" = Some (new_reservation "r1" 0 1 "alice" "conf-1" 2 (conf1 1)) ∧
  AvailableTickets <$> Conferences (ConfirmReservation "b1" 5 "r1" db).1 !! "conf-1"
    = Some (100 - 2) ∧
  ConfirmReservation "b1" (holdDuration + 1) "r1" db =
    (set_Reservations (delete "r1") db, Err ErrReservationExpired).
Proof.
  intros db.
  assert (reachable db) as Hreach by (by exists 0, 1, 2, 3, [CallCreateReservation "r1" 0 1 "alice" "conf-1" 2]).
  assert (Reservations db !! "r1" =
          Some (new_reservation "r1" 0 1 "alice" "conf-1" 2 (conf1 1))) as Hr
    by (vm_compute; reflexivity).
  split; [exact Hreach|]. split; [exact Hr|]. split.
  - destruct (confirm_reservation_contract "b1" 5 "r1" db Hreach) as (_ & _ & Hok).
    destruct (Hok _ Hr) as (conf & b & Hc & _ & _ & _ & _ & _ & _ & _ & _ & _ & Hav).
    + vm_compute. discriminate.
    + assert (Some conf = Some (conf1 1)) as [= ->]
        by (rewrite <- Hc; vm_compute; reflexivity).
      apply Hav.
      exists 0, 1, 2, 3, [CallCreateReservation "r1" 0 1 "alice" "conf-1" 2].
      split; [|reflexivity]. repeat constructor. simpl. lia.
  - destruct (confirm_reservation_contract "b1" (holdDuration + 1) "r1" db Hreach)
      as (_ & Hexp & _).
    apply (Hexp _ Hr). vm_compute. reflexivity.
Defined.

(** C5, as stated, fails: a confirmation after the hold window has elapsed
    does not always yield Expired.  A hold is made at instant 0; after its
    expiry somebody lists their reservations, which purges it; the first
    confirmation then yields NotFound.  And at the expiry instant itself,
    where the hold is no longer Active, the confirmation succeeds. *)
Lemma expired_confirm_counterexample :
  let db := run (NewDatabase 0 1 2 3)
              [CallCreateReservation "r1" 0 1 "alice" "conf-1" 2] in
  let db' := run db [CallGetUserReservations (holdDuration + 1) "bob"] in
  (∃ r, Reservations db !! "r1" = Some r ∧ ExpiresAt r = holdDuration) ∧
  (ConfirmReservation "b1" (holdDuration + 2) "r1" db').2 = Err ErrReservationNotFound ∧
  (ConfirmReservation "b1" (holdDuration + 2) "r1" db').2 ≠ Err ErrReservationExpired ∧
  ¬ Active holdDuration (new_reservation "r1" 0 1 "alice" "conf-1" 2 (conf1 1)) ∧
  is_Ok (ConfirmReservation "b1" holdDuration "r1" db).2 = true.
Proof.
  intros db db'. split; [eexists; split; vm_compute; reflexivity|].
  split; [vm_compute; reflexivity|]. split; [vm_compute; discriminate|].
  split; [vm_compute; discriminate|vm_compute; reflexivity].
Qed.

Lemma expiry_idempotence_witness :
  let db := run (NewDatabase 0 1 2 3)
              [CallCreateReservation "r1" 0 1 "alice" "conf-1" 2] in
  let db1 := (ConfirmReservation "b1" (holdDuration + 1) "r1" db).1 in
  let cs := [CallCreateReservation "r2" (holdDuration + 2) (holdDuration + 3)
               "alice" "conf-1" 2] in
  reachable db ∧
  (ConfirmReservation "b1" (holdDuration + 1) "r1" db).2 = Err ErrReservationExpired ∧
  (ConfirmReservation "b1" (holdDuration + 3) "r1"
     (exec (CallGetReservation (holdDuration + 1) "r1") db).1).2 =
    Err ErrReservationNotFound ∧
  (ConfirmReservation "b2" (holdDuration + 3) "r1" (run db1 cs)).2 =
    Err ErrReservationNotFound ∧
  (CancelReservation "r1" (run db1 [])).2 = Err ErrReservationNotFound.
Proof.
  intros db db1 cs.
  assert (reachable db) as Hreach
    by (by exists 0, 1, 2, 3, [CallCreateReservation "r1" 0 1 "alice" "conf-1" 2]).
  destruct (expiry_idempotence "r1" db Hreach) as (Hexp & Hpurged & _ & Hgone & _).
  assert (∃ id now, db1 = (ConfirmReservation id now "r1" db).1) as Hdb1
    by (by exists "b1", (holdDuration + 1)).
  split; [exact Hreach|]. split; [|split; [|split]].
  - apply (Hexp "b1" (holdDuration + 1)).
    exists (new_reservation "r1" 0 1 "alice" "conf-1" 2 (conf1 1)).
    split; vm_compute; reflexivity.
  - apply (Hpurged (new_reservation "r1" 0 1 "alice" "conf-1" 2 (conf1 1))
             (CallGetReservation (holdDuration + 1) "r1") (holdDuration + 1)).
    + vm_compute. reflexivity.
    + exact I.
    + reflexivity.
    + vm_compute. reflexivity.
    + discriminate.
  - refine (proj1 (proj2 (Hgone db1 (or_introl Hdb1) cs _ "b2" (holdDuration + 3)))).
    repeat constructor. vm_compute. discriminate.
  - exact (proj1 (proj2 (proj2 (Hgone db1 (or_introl Hdb1) [] (List.Forall_nil _) "b1" 0)))).
Defined.

Lemma failed_calls_change_nothing_witness :
  let db := run (NewDatabase 0 1 2 3) [CallCreateReservation "r1" 0 1 "alice" "conf-1" 2] in
  let c := CallConfirmReservation "b1" (holdDuration + 1) "r1" in
  reachable db ∧ (exec c db).2 = Failure ErrReservationExpired ∧
  purged_only (holdDuration + 1) db (exec c db).1.
Proof.
  intros db c.
  assert (reachable db) as Hreach by (by exists 0, 1, 2, 3, [CallCreateReservation "r1" 0 1 "alice" "conf-1" 2]).
  assert ((exec c db).2 = Failure ErrReservationExpired) as Hfail
    by (vm_compute; reflexivity).
  split; [exact Hreach|]. split; [exact Hfail|].
  exact (proj2 (failed_calls_change_nothing c db Hreach) _ Hfail).
Defined.

Lemma claim_gating_witness :
  let db := (EnqueueWait "w1" 0 "alice" "conf-1" 1 (NewDatabase 0 1 2 3)).1 in
  let out := ClaimNext "r1" 1 2 "bob" "conf-1" db in
  Wait_UserID <$> head (queue_of "conf-1" db) ≠ Some "bob" ∧
  out.2 = Err ErrNotYourTurn ∧ WaitQueues out.1 = WaitQueues db ∧
  Conferences out.1 = Conferences db.
Proof.
  intros db out.
  assert (Wait_UserID <$> head (queue_of "conf-1" db) ≠ Some "bob") as Hhead
    by (vm_compute; discriminate).
  destruct (claim_gating "r1" 1 2 "bob" "conf-1" db) as [Hturn Hfail].
  pose proof (Hturn Hhead) as Hout.
  destruct (Hfail _ Hout) as (_ & HQ & HC & _).
  repeat split; assumption.
Defined.

Lemma queue_fairness_witness :
  let reqs := [ {| req_id := "w1"; req_now := 1; req_user := "alice"; req_count := 2 |};
                {| req_id := "w2"; req_now := 2; req_user := "bob"; req_count := 1 |};
                {| req_id := "w3"; req_now := 3; req_user := "carol"; req_count := 4 |} ] in
  let out := enqueue_all "conf-1" reqs (NewDatabase 0 1 2 3) in
  out.2 = [1; 2; 3] ∧
  GetQueuePosition "carol" "conf-1" out.1 = 3 ∧
  GetQueuePosition "carol" "conf-1" (ClaimNext "r1" 4 5 "alice" "conf-1" out.1).1 = 2.
Proof.
  intros reqs out.
  destruct (queue_fairness "conf-1" reqs (NewDatabase 0 1 2 3))
    as (Hpos & Hget & Hclaim).
  - vm_compute. reflexivity.
  - apply (bool_decide_unpack _). vm_compute. exact I.
  - split; [exact Hpos|]. split; [exact (Hget 2%nat "carol" eq_refl)|].
    destruct (ClaimNext "r1" 4 5 "alice" "conf-1" out.1) as [db' [res| |]] eqn:Hc.
    + exact (proj2 (Hclaim "r1" 4 5 "alice" db' res Hc) 1%nat "carol" eq_refl).
    + vm_compute in Hc. discriminate.
    + vm_compute in Hc. discriminate.
Defined.

(** C9, as stated, fails for a requester who already holds an Active
    reservation: the conference exists, 99 seats are effectively available,
    and the second request of the (unregistered) requester is refused. *)
Lemma ghost_duplicate_counterexample :
  let db := (CreateReservation "r1" 0 1 "ghost" "conf-1" 1 (NewDatabase 0 1 2 3)).1 in
  Users db !! "ghost" = None ∧
  AvailableTickets <$> Conferences db !! "conf-1" = Some 100 ∧
  held 0 "conf-1" db = 1 ∧
  1 <= 100 - 1 ∧
  (CreateReservation "r2" 0 1 "ghost" "conf-1" 1 db).2 = Err ErrAlreadyReserved.
Proof. vm_compute. repeat split; try done. Qed.

Lemma requester_existence_not_checked_witness :
  let db := NewDatabase 0 1 2 3 in
  valid_reachable db ∧
  Users db !! "ghost" = None ∧
  (∃ b, (CreateBooking "b1" 0 "ghost" "conf-2" 3 db).2 = Ok b ∧
        Booking_UserID b = "ghost") ∧
  (∃ r, (CreateReservation "r1" 0 1 "ghost" "conf-2" 3 db).2 = Ok r ∧
        Res_UserID r = "ghost").
Proof.
  intros db.
  assert (valid_reachable db) as Hreach
    by (exists 0, 1, 2, 3, []; split; [constructor|reflexivity]).
  assert (Conferences db !! "conf-2" = Some (conf2 2)) as Hconf
    by (vm_compute; reflexivity).
  destruct (requester_existence_not_checked "b1" 0 1 "ghost" "conf-2" 3 db
    (conf2 2) Hreach Hconf) as (Hbook & _).
  destruct (requester_existence_not_checked "r1" 0 1 "ghost" "conf-2" 3 db
    (conf2 2) Hreach Hconf) as (_ & Hhold & _).
  split; [exact Hreach|]. split; [vm_compute; reflexivity|]. split.
  - destruct Hbook as (b & Hb & Hu & _); [vm_compute; discriminate|].
    exists b. split; assumption.
  - destruct Hhold as (r & Hr & Hu & _).
    + vm_compute. reflexivity.
    + vm_compute. discriminate.
    + exists r. split; assumption.
Defined.

Lemma create_user_normalizes_witness :
  let out := CreateUser "u1" 0 "A" "Test@Example.com" (NewDatabase 0 1 2 3) in
  (∃ u, out.2 = Ok u ∧ User_Email u = "test@example.com") ∧
  (CreateUser "u2" 1 "B" "  test@example.COM " out.1).2 =
    Err (ErrUserExists "  test@example.COM ").
Proof.
  intros out.
  destruct (create_user_normalizes "u1" 0 "A" "Test@Example.com"
              (NewDatabase 0 1 2 3)) as (Hok & _ & _ & Hdup & _).
  split.
  - eexists. split; [vm_compute; reflexivity|].
    apply (proj2 (proj2 (Hok _ ltac:(vm_compute; reflexivity)))).
    vm_compute. reflexivity.
  - apply Hdup; [vm_compute; reflexivity|].
    exists "", "", "  ", " ", "Test@Example.com", "test@example.COM".
    vm_compute. by repeat split.
Defined.

(** C3, as stated, fails at the expiry instant.  A hold of 100 seats
    expires at [now]: it is no longer Active ([now < expiresAt] fails), so
    100 seats are effectively available by the claim's count and a request
    for one seat should succeed; the purge keeps the hold ([now] is not after
    its expiry), the loop counts it, and the request is refused. *)
Lemma create_reservation_boundary_counterexample :
  let db := (CreateReservation "r1" 0 1 "bob" "conf-1" 100 (NewDatabase 0 1 2 3)).1 in
  let now := holdDuration in
  AvailableTickets <$> Conferences db !! "conf-1" = Some 100 ∧
  active_holds now "alice" "conf-1" db = ∅ ∧
  held_active now "conf-1" db = 0 ∧
  ¬ (1 > 100 - 0) ∧
  (CreateReservation "r2" now (now + 1) "alice" "conf-1" 1 db).2 =
    Err ErrNotEnoughForReservation.
Proof. vm_compute. repeat split; try done. Qed.

Lemma create_reservation_effective_availability_witness :
  let db := run (NewDatabase 0 1 2 3) [CallCreateReservation "r0" 0 1 "bob" "conf-1" 99] in
  valid_reachable db ∧
  active_holds 1 "alice" "conf-1" db = ∅ ∧
  held 1 "conf-1" db = 99 ∧
  (CreateReservation "r1" 1 2 "alice" "conf-1" 2 db).2 = Err ErrNotEnoughForReservation ∧
  ∃ r, (CreateReservation "r1" 1 2 "alice" "conf-1" 1 db).2 = Ok r ∧
       ExpiresAt r = 1 + holdDuration.
Proof.
  intros db.
  assert (valid_reachable db) as Hreach.
  { exists 0, 1, 2, 3, [CallCreateReservation "r0" 0 1 "bob" "conf-1" 99].
    split; [|reflexivity]. repeat constructor. simpl. lia. }
  assert (Conferences db !! "conf-1" = Some (conf1 1)) as Hconf
    by (vm_compute; reflexivity).
  assert (active_holds 1 "alice" "conf-1" db = ∅) as Hnone
    by (vm_compute; reflexivity).
  assert (held 1 "conf-1" db = 99) as Hheld by (vm_compute; reflexivity).
  split; [exact Hreach|]. split; [exact Hnone|]. split; [exact Hheld|]. split.
  - destruct (create_reservation_effective_availability "r1" 1 2 "alice" "conf-1" 2
      db (conf1 1) Hreach Hconf Hnone) as (Hfail & _ & _).
    destruct (proj2 Hfail) as (e & He & Hk); [rewrite Hheld; simpl; lia|].
    rewrite He. vm_compute in He. congruence.
  - destruct (create_reservation_effective_availability "r1" 1 2 "alice" "conf-1" 1
      db (conf1 1) Hreach Hconf Hnone) as (_ & Hok & _).
    destruct Hok as (r & Hr & _ & _ & _ & _ & He & _);
      [rewrite Hheld; simpl; lia|].
    exists r. split; assumption.
Defined.

Lemma users_unique_by_email_witness :
  let db := run (NewDatabase 0 1 2 3)
              [CallCreateUser "u1" 0 "A" "Test@Example.com";
               CallCreateUser "u2" 1 "B" " test@example.COM";
               CallCreateUser "u3" 2 "C" "c@example.com"] in
  ∃ u1 u3, Users db !! "u1" = Some u1 ∧ Users db !! "u3" = Some u3 ∧
           User_ID u1 = "u1" ∧ User_Email u1 = "test@example.com" ∧
           Users db !! "u2" = None ∧
           (User_Email u1 = User_Email u3 ∨
            same_contact (User_Email u1) (User_Email u3) → "u1" = "u3" ∧ u1 = u3).
Proof.
  intros db. eexists _, _.
  split; [vm_compute; reflexivity|]. split; [vm_compute; reflexivity|].
  destruct (users_unique_by_email db
    ltac:(by exists 0, 1, 2, 3, [CallCreateUser "u1" 0 "A" "Test@Example.com";
               CallCreateUser "u2" 1 "B" " test@example.COM";
               CallCreateUser "u3" 2 "C" "c@example.com"])
    "u1" "u3" _ _ ltac:(vm_compute; reflexivity) ltac:(vm_compute; reflexivity))
    as (Hid & _ & Huniq).
  split; [exact Hid|]. split; [vm_compute; reflexivity|].
  split; [vm_compute; reflexivity|]. exact Huniq.
Defined.

Lemma GetUserByEmail_finds_witness :
  let db := run (NewDatabase 0 1 2 3)
              [CallCreateUser "u1" 0 "A" "a@example.com"] in
  let out := CreateUser "u2" 1 "B" "Bea@Example.com" db in
  ∃ u, out.2 = Ok u ∧ GetUserByEmail "  BEA@example.com " out.1 = Some u.
Proof.
  intros db out. eexists. split; [vm_compute; reflexivity|].
  destruct (GetUserByEmail_finds db "Bea@Example.com"
    ltac:(by exists 0, 1, 2, 3, [CallCreateUser "u1" 0 "A" "a@example.com"]))
    as (_ & _ & _ & Hround).
  apply (Hround "u2" 1 "B"); [vm_compute; reflexivity|].
  exists "", "", "  ", " ", "Bea@Example.com", "BEA@example.com".
  vm_compute. by repeat split.
Defined.

Lemma conferences_fixed_witness :
  let db := run (NewDatabase 0 1 2 3)
              [CallCreateBooking "b1" 1 "alice" "conf-2" 5;
               CallCreateReservation "r1" 2 3 "bob" "conf-1" 3;
               CallConfirmReservation "b2" 3 "r1"] in
  ∃ a1 a2 a3 d1 d2 d3,
    Conferences db = catalogue a1 a2 a3 d1 d2 d3 ∧
    GetAllConferences db =
      [with_available a1 (conf1 d1); with_available a2 (conf2 d2);
       with_available a3 (conf3 d3)] ∧
    ∀ c, GetConference c db = Err ErrConferenceNotFound ↔
         c ≠ "conf-1" ∧ c ≠ "conf-2" ∧ c ≠ "conf-3".
Proof.
  intros db. apply (conferences_fixed db).
  by exists 0, 1, 2, 3, [CallCreateBooking "b1" 1 "alice" "conf-2" 5;
               CallCreateReservation "r1" 2 3 "bob" "conf-1" 3;
               CallConfirmReservation "b2" 3 "r1"].
Defined.

Lemma GetAllConferences_sorted_witness :
  let db := NewDatabase 0 1 2 3 in
  GetAllConferences db ≡ₚ (map_to_list (Conferences db)).*2 ∧
  Sorted id_le (GetAllConferences db) ∧
  ∀ l, l ≡ₚ (map_to_list (Conferences db)).*2 → Sorted id_le l →
       l = GetAllConferences db.
Proof.
  intros db.
  apply (GetAllConferences_sorted db).
  intros k conf Hk. apply catalogue_lookup in Hk as [[-> ->]|[[-> ->]|[-> ->]]]; done.
Defined.

Lemma bookings_well_formed_witness :
  let db := run (NewDatabase 0 1 2 3)
              [CallCreateReservation "r1" 2 3 "bob" "conf-1" 3;
               CallCreateBooking "b1" 3 "alice" "conf-1" 97;
               CallConfirmReservation "b2" 4 "r1"] in
  ∃ b, GetBooking "b2" db = Some b ∧
    Booking_ID b = "b2" ∧ Status b = "confirmed" ∧
    ∃ conf, Conferences db !! Booking_ConferenceID b = Some conf ∧
            Booking_TotalAmount b =
              PrimFloat.mul (Price conf) (float64_of_int (TicketsBooked b)).
Proof.
  intros db. eexists. split; [vm_compute; reflexivity|].
  apply (bookings_well_formed db);
    [|vm_compute; reflexivity].
  by exists 0, 1, 2, 3, [CallCreateReservation "r1" 2 3 "bob" "conf-1" 3;
               CallCreateBooking "b1" 3 "alice" "conf-1" 97;
               CallConfirmReservation "b2" 4 "r1"].
Defined.

Lemma bookings_persist_witness :
  let db := (CreateBooking "b1" 1 "alice" "conf-1" 2 (NewDatabase 0 1 2 3)).1 in
  let cs := [CallCreateReservation "r1" 2 3 "alice" "conf-1" 3;
             CallCancelReservation "r1";
             CallCreateBooking "b2" 3 "alice" "conf-1" 98;
             CallCreateUser "u1" 4 "A" "a@example.com"] in
  ∃ b, GetBooking "b1" db = Some b ∧ GetBooking "b1" (run db cs) = Some b.
Proof.
  intros db cs. eexists. split; [vm_compute; reflexivity|].
  apply (bookings_persist db cs).
  - by repeat constructor.
  - repeat split; intros id [= <-]; vm_compute; reflexivity.
  - vm_compute; reflexivity.
Defined.

Lemma booking_listed_for_requester_witness :
  let db := run (NewDatabase 0 1 2 3)
              [CallCreateBooking "b1" 1 "alice" "conf-2" 5;
               CallCreateReservation "r1" 2 3 "bob" "conf-1" 3] in
  let out := ConfirmReservation "b2" 3 "r1" db in
  ∃ b, out.2 = Ok b ∧
       GetUserBookings "bob" out.1 = <[ "b2" := b ]> (GetUserBookings "bob" db) ∧
       GetUserBookings "alice" out.1 = GetUserBookings "alice" db.
Proof.
  intros db out. eexists. split; [vm_compute; reflexivity|].
  destruct (booking_listed_for_requester "b2" 3 db ltac:(vm_compute; reflexivity))
    as [_ Hconfirm].
  destruct (Hconfirm "r1" _ out.1 _ ltac:(vm_compute; reflexivity)
              ltac:(vm_compute; reflexivity)) as [Hown Hothers].
  split; [exact Hown|]. by apply Hothers.
Defined.

Lemma GetAllBookings_rows_witness :
  let db := run (NewDatabase 0 1 2 3)
              [CallCreateUser "u1" 0 "A" "a@example.com";
               CallCreateBooking "b1" 1 "u1" "conf-2" 5;
               CallCreateBooking "b2" 2 "ghost" "conf-1" 1] in
  match GetAllBookings db !! "b2" with
  | Some (b, user, conference) =>
      GetBooking "b2" db = Some b ∧ is_Some conference ∧
      conference = Conferences db !! Booking_ConferenceID b ∧
      (user = None ↔ GetUser (Booking_UserID b) db = Err ErrUserNotFound)
  | None => GetBooking "b2" db = None
  end.
Proof.
  intros db. apply (GetAllBookings_rows db).
  by exists 0, 1, 2, 3, [CallCreateUser "u1" 0 "A" "a@example.com";
               CallCreateBooking "b1" 1 "u1" "conf-2" 5;
               CallCreateBooking "b2" 2 "ghost" "conf-1" 1].
Defined.

Lemma tickets_never_return_witness :
  let db := run (NewDatabase 0 1 2 3)
              [CallCreateReservation "r1" 2 3 "bob" "conf-1" 3;
               CallCreateBooking "b1" 3 "alice" "conf-1" 10] in
  ∃ conf conf',
    Conferences db !! "conf-1" = Some conf ∧
    Conferences (exec (CallCancelReservation "r1") db).1 !! "conf-1" = Some conf' ∧
    AvailableTickets conf = 90 ∧
    AvailableTickets conf' <= AvailableTickets conf.
Proof.
  intros db.
  destruct (tickets_never_return (CallCancelReservation "r1") db) with
    (k := "conf-1") (conf := with_available 90 (conf1 1))
    as (conf' & Hconf' & _ & Hle & _).
  - exists 0, 1, 2, 3, [CallCreateReservation "r1" 2 3 "bob" "conf-1" 3;
               CallCreateBooking "b1" 3 "alice" "conf-1" 10].
    split; [|done]. repeat constructor; simpl; lia.
  - exact I.
  - exact I.
  - vm_compute; reflexivity.
  - eexists _, conf'. split; [vm_compute; reflexivity|]. split; [exact Hconf'|].
    split; [reflexivity|exact Hle].
Defined.

Lemma holds_well_formed_witness :
  let cs := [CallEnqueueWait "w1" 1 "bob" "conf-3" 4;
             CallClaimNext "r1" 2 3 "bob" "conf-3"] in
  let db := run (NewDatabase 0 1 2 3) cs in
  ∃ r, Reservations db !! "r1" = Some r ∧
    CreatedAt r = 3 ∧ ExpiresAt r = 2 + 15 * Second ∧
    Res_ID r = "r1" ∧
    (∃ conf, Conferences db !! Res_ConferenceID r = Some conf ∧
             Res_TotalAmount r =
               PrimFloat.mul (Price conf) (float64_of_int (Res_TicketCount r))) ∧
    ExpiresAt r <= CreatedAt r + 15 * Second.
Proof.
  intros cs db. eexists. split; [vm_compute; reflexivity|].
  split; [reflexivity|]. split; [reflexivity|].
  destruct (holds_well_formed db ltac:(by exists 0, 1, 2, 3, cs) "r1" _
              ltac:(vm_compute; reflexivity)) as (Hid & Hamount & Htime).
  split; [exact Hid|]. split; [exact Hamount|]. apply Htime.
  exists 0, 1, 2, 3, cs. split; [|reflexivity].
  repeat constructor. simpl. lia.
Defined.

Lemma duplicate_window_witness :
  let out := CreateReservation "r1" 0 1 "alice" "conf-1" 2 (NewDatabase 0 1 2 3) in
  is_Ok out.2 = true ∧
  (CreateReservation "r2" (15 * Second - 1) (15 * Second) "alice" "conf-1" 1 out.1).2 =
    Err ErrAlreadyReserved ∧
  (CreateReservation "r2" (15 * Second) (15 * Second + 1) "alice" "conf-1" 1 out.1).2 ≠
    Err ErrAlreadyReserved.
Proof.
  intros out. split; [vm_compute; reflexivity|].
  assert (∀ t1, 0 <= t1 →
    (CreateReservation "r2" t1 (t1 + 1) "alice" "conf-1" 1 out.1).2 =
      Err ErrAlreadyReserved ↔
    t1 < 0 + holdDuration) as Hwin.
  { intros t1 Ht1.
    apply (duplicate_window "r1" "r2" 0 1 t1 (t1 + 1) "alice" "conf-1" 2 1
             (NewDatabase 0 1 2 3) out.1
             (new_reservation "r1" 0 1 "alice" "conf-1" 2 (conf1 1)));
      [vm_compute; reflexivity|exact Ht1]. }
  split.
  - apply Hwin; vm_compute; [discriminate|reflexivity].
  - intros Herr%Hwin; [|vm_compute; discriminate]. vm_compute in Herr. discriminate.
Defined.

Lemma reserve_then_cancel_witness :
  let db := run (NewDatabase 0 1 2 3)
              [CallCreateReservation "r0" 0 1 "bob" "conf-1" 3] in
  let out := CreateReservation "r1" (20 * Second) (20 * Second + 1) "alice" "conf-1" 2 db in
  is_Ok out.2 = true ∧
  CancelReservation "r1" out.1 =
    (cleanupExpiredReservationsLocked (20 * Second) db, Ok tt).
Proof.
  intros db out. split; [vm_compute; reflexivity|].
  apply (reserve_then_cancel "r1" (20 * Second) (20 * Second + 1) "alice" "conf-1" 2 db out.1
           (new_reservation "r1" (20 * Second) (20 * Second + 1) "alice" "conf-1" 2 (conf1 1)));
    vm_compute; reflexivity.
Defined.

Lemma reads_agree_witness :
  let db := run (NewDatabase 0 1 2 3)
              [CallCreateReservation "r1" 0 1 "alice" "conf-1" 2] in
  let out := GetReservation (15 * Second) "r1" db in
  ∃ r b, out.2 = Ok r ∧
         (ConfirmReservation "b1" (15 * Second) "r1" out.1).2 = Ok b ∧
         TicketsBooked b = 2 ∧
         (GetUserReservations (15 * Second) "alice" db).2 !! "r1" = Some r.
Proof.
  intros db out.
  destruct (reads_agree (15 * Second) "r1" db
    ltac:(by exists 0, 1, 2, 3, [CallCreateReservation "r1" 0 1 "alice" "conf-1" 2]))
    as (_ & Hconfirm & _ & Hlist).
  destruct (Hconfirm (new_reservation "r1" 0 1 "alice" "conf-1" 2 (conf1 1)) "b1"
              ltac:(vm_compute; reflexivity)) as (b & Hb & _ & _ & Hn).
  eexists _, b. split; [vm_compute; reflexivity|]. split; [exact Hb|].
  split; [exact Hn|]. apply Hlist. split; vm_compute; reflexivity.
Defined.

Lemma queue_one_slot_witness :
  let db := run (NewDatabase 0 1 2 3)
              [CallEnqueueWait "w1" 1 "alice" "conf-1" 2;
               CallEnqueueWait "w2" 2 "bob" "conf-1" 1;
               CallEnqueueWait "w3" 3 "alice" "conf-1" 5] in
  length (queue_of "conf-1" db) = 2%nat ∧
  NoDup (Wait_UserID <$> queue_of "conf-1" db) ∧
  Forall (λ e, Wait_ConferenceID e = "conf-1") (queue_of "conf-1" db) ∧
  ∀ i e, queue_of "conf-1" db !! i = Some e →
         GetQueuePosition (Wait_UserID e) "conf-1" db = Z.of_nat i + 1.
Proof.
  intros db. split; [vm_compute; reflexivity|].
  apply (queue_one_slot db "conf-1").
  by exists 0, 1, 2, 3, [CallEnqueueWait "w1" 1 "alice" "conf-1" 2;
               CallEnqueueWait "w2" 2 "bob" "conf-1" 1;
               CallEnqueueWait "w3" 3 "alice" "conf-1" 5].
Defined.

Lemma claim_succeeds_iff_witness :
  let db := run (NewDatabase 0 1 2 3)
              [CallCreateReservation "r0" 0 1 "carol" "conf-2" 70;
               CallEnqueueWait "w1" 1 "alice" "conf-2" 5;
               CallEnqueueWait "w2" 2 "bob" "conf-2" 1] in
  let out := ClaimNext "r1" 3 4 "alice" "conf-2" db in
  is_Ok out.2 = true ∧
  queue_of "conf-2" out.1 = tail (queue_of "conf-2" db) ∧
  GetQueuePosition "alice" "conf-2" out.1 = 0.
Proof.
  intros db out.
  destruct (claim_succeeds_iff "r1" 3 4 "alice" "conf-2" db) as [_ Heffect].
  { exists 0, 1, 2, 3, [CallCreateReservation "r0" 0 1 "carol" "conf-2" 70;
               CallEnqueueWait "w1" 1 "alice" "conf-2" 5;
               CallEnqueueWait "w2" 2 "bob" "conf-2" 1].
    split; [|done]. repeat constructor; simpl; lia. }
  destruct (Heffect (new_reservation "r1" 3 4 "alice" "conf-2" 5
                       (with_available 75 (conf2 2)))
              ltac:(vm_compute; reflexivity)) as (_ & Hq & _ & Hpos & _).
  split; [vm_compute; reflexivity|]. split; [exact Hq|exact Hpos].
Defined.

Lemma GetConferenceStats_rows_witness :
  let db := run (NewDatabase 0 1 2 3)
              [CallCreateReservation "r0" 0 1 "carol" "conf-2" 70;
               CallCreateReservation "r1" (14 * Second) (14 * Second + 1) "dave" "conf-2" 2;
               CallEnqueueWait "w1" 1 "alice" "conf-2" 5] in
  GetConferenceStats (15 * Second) db !! "conf-2" = Some (2, 1) ∧
  GetConferenceStats (15 * Second) db !! "conf-9" = None.
Proof.
  intros db.
  assert (valid_reachable db) as Hvalid.
  { exists 0, 1, 2, 3, [CallCreateReservation "r0" 0 1 "carol" "conf-2" 70;
               CallCreateReservation "r1" (14 * Second) (14 * Second + 1) "dave" "conf-2" 2;
               CallEnqueueWait "w1" 1 "alice" "conf-2" 5].
    split; [|done]. repeat constructor; simpl; lia. }
  split.
  - rewrite (GetConferenceStats_rows (15 * Second) db Hvalid "conf-2").
    vm_compute. reflexivity.
  - rewrite (GetConferenceStats_rows (15 * Second) db Hvalid "conf-9").
    vm_compute. reflexivity.
Defined.

Lemma effective_accounting_witness :
  let db := run (NewDatabase 0 1 2 3)
              [CallCreateReservation "r1" 0 1 "alice" "conf-1" 30;
               CallCreateBooking "b1" 1 "bob" "conf-1" 20] in
  effective 2 "conf-1" db = Some 50 ∧
  effective 2 "conf-1" (ConfirmReservation "b2" 2 "r1" db).1 = Some 50 ∧
  effective 2 "conf-1" (CancelReservation "r1" db).1 = Some 80.
Proof.
  intros db.
  destruct (effective_accounting 2 db) as (_ & _ & Hconfirm & Hcancel).
  { exists 0, 1, 2, 3, [CallCreateReservation "r1" 0 1 "alice" "conf-1" 30;
               CallCreateBooking "b1" 1 "bob" "conf-1" 20].
    split; [|done]. repeat constructor; simpl; lia. }
  assert (effective 2 "conf-1" db = Some 50) as Heff by (vm_compute; reflexivity).
  split; [exact Heff|]. split.
  - destruct (Hconfirm "b2" "r1" (new_reservation "r1" 0 1 "alice" "conf-1" 30 (conf1 1))
                ltac:(vm_compute; reflexivity) ltac:(vm_compute; discriminate))
      as [_ Hsame].
    rewrite Hsame. exact Heff.
  - rewrite (Hcancel "r1" (new_reservation "r1" 0 1 "alice" "conf-1" 30 (conf1 1))
               ltac:(vm_compute; reflexivity) ltac:(vm_compute; discriminate)).
    rewrite Heff. vm_compute. reflexivity.
Defined.

Lemma direct_booking_never_oversells_witness :
  let cs := [CallCreateReservation "r1" 0 1 "alice" "conf-1" 60;
             CallCreateBooking "b1" 1 "bob" "conf-1" 100;
             CallCreateBooking "b2" 2 "carol" "conf-1" 1;
             CallCancelReservation "r1"] in
  ∃ conf, Conferences (run (NewDatabase 0 1 2 3) cs) !! "conf-1" = Some conf ∧
          AvailableTickets conf = 0 ∧
          0 <= AvailableTickets conf <= TotalTickets conf.
Proof.
  intros cs. eexists. split; [vm_compute; reflexivity|]. split; [reflexivity|].
  apply (direct_booking_never_oversells 0 1 2 3 cs) with (c := "conf-1").
  - repeat constructor; simpl; lia.
  - repeat constructor.
  - vm_compute; reflexivity.
Defined.

Lemma hold_workflow_never_oversells_witness :
  let cs := [CallCreateReservation "r1" 0 1 "alice" "conf-2" 60;
             CallCreateReservation "r2" 1 2 "bob" "conf-2" 15;
             CallConfirmReservation "b1" 2 "r1";
             CallCreateReservation "r3" 3 4 "carol" "conf-2" 1] in
  let db := run (NewDatabase 0 1 2 3) cs in
  ∃ conf, Conferences db !! "conf-2" = Some conf ∧
          AvailableTickets conf = 15 ∧
          0 <= total_tickets (for_conference "conf-2") (Reservations db)
            <= AvailableTickets conf.
Proof.
  intros cs db.
  assert (Forall valid_call cs) as Hvalid by (repeat constructor; simpl; lia).
  assert (Forall holds_only cs) as Honly by (repeat constructor).
  assert (Conferences db !! "conf-2" = Some (with_available 15 (conf2 2))) as Hconf
    by (vm_compute; reflexivity).
  exists (with_available 15 (conf2 2)). split; [exact Hconf|]. split; [reflexivity|].
  exact (proj1 (hold_workflow_never_oversells 0 1 2 3 cs Hvalid Honly "conf-2" _ Hconf)).
Defined.

Lemma registered_email_stays_taken_witness :
  let db := (CreateUser "u1" 0 "A" "Ann@Example.com" (NewDatabase 0 1 2 3)).1 in
  let cs := [CallCreateUser "u2" 1 "B" "bob@example.com";
             CallCreateBooking "b1" 2 "u1" "conf-1" 1;
             CallEnqueueWait "w1" 3 "u2" "conf-1" 1] in
  ∃ u, GetUser "u1" (run db cs) = Ok u ∧
       (CreateUser "u3" 4 "C" " ANN@example.com " (run db cs)).2 =
         Err (ErrUserExists " ANN@example.com ").
Proof.
  intros db cs.
  destruct (registered_email_stays_taken db cs) with
    (id := "u1")
    (u := {| User_ID := "u1"; User_Name := "A"; User_Email := "ann@example.com";
             User_Created := 0 |}) as [Hget Htaken].
  - by repeat constructor.
  - repeat split; intros id [= <-]; vm_compute; reflexivity.
  - vm_compute; reflexivity.
  - eexists. split; [exact Hget|]. apply Htaken. vm_compute; reflexivity.
Defined.

Lemma counts_positive_witness :
  let db := run (NewDatabase 0 1 2 3)
              [CallEnqueueWait "w1" 1 "bob" "conf-3" 4;
               CallEnqueueWait "w2" 2 "bob" "conf-3" 7;
               CallClaimNext "r1" 3 4 "bob" "conf-3";
               CallConfirmReservation "b1" 4 "r1"] in
  ∃ b, GetBooking "b1" db = Some b ∧ TicketsBooked b = 7 ∧ 1 <= TicketsBooked b.
Proof.
  intros db. eexists. split; [vm_compute; reflexivity|]. split; [reflexivity|].
  destruct (counts_positive db) as (Hb & _ & _).
  - exists 0, 1, 2, 3, [CallEnqueueWait "w1" 1 "bob" "conf-3" 4;
               CallEnqueueWait "w2" 2 "bob" "conf-3" 7;
               CallClaimNext "r1" 3 4 "bob" "conf-3";
               CallConfirmReservation "b1" 4 "r1"].
    split; [|done]. repeat constructor; simpl; lia.
  - apply (Hb "b1"). vm_compute; reflexivity.
Defined.

Lemma waiting_order_stable_witness :
  let db := run (NewDatabase 0 1 2 3)
              [CallEnqueueWait "w1" 1 "alice" "conf-1" 2;
               CallEnqueueWait "w2" 2 "bob" "conf-1" 1] in
  Wait_UserID <$> queue_of "conf-1" db = ["alice"; "bob"] ∧
  (let q := (Wait_UserID <$> queue_of "conf-1" db) in
   let q' := (Wait_UserID <$>
                queue_of "conf-1" (exec (CallClaimNext "r1" 3 4 "alice" "conf-1") db).1) in
   q' = q ∨ (∃ u, (u ∉ q) ∧ q' = q ++ [u]) ∨ (∃ u, q = u :: q')).
Proof.
  intros db. split; [vm_compute; reflexivity|].
  apply (waiting_order_stable (CallClaimNext "r1" 3 4 "alice" "conf-1") "conf-1" db).
  exact I.
Defined.
